(** * Chisinau traffic simulation: trace post-processing

    A shallow embedding of [make_deckgl.py] and [postprocess.py]: the
    line-by-line scan of the floating-car-data trace, the trajectory
    table and its finalisation, the per-edge speed aggregation, the
    congestion classifier, the geometry merge and lane offsets, and the
    ground-truth validation.

    Conventions of the embedding.
    - A trace is a [list string], one element per line of the file, and
      the characters are ASCII, as SUMO writes them.
    - Python floats are rationals ([Q]): [float] of a decimal literal is
      its exact value, arithmetic is exact, [round] rounds half to even on
      the exact value.  Binary rounding error is not modelled.
    - A Python exception that nothing catches ends the run: functions that
      can raise return [result], and [Raise] propagates.
    - A [dict] is an association list in insertion order with unique keys.
    - Progress printing is left out: it reads the state and writes none. *)

From Stdlib Require Import ZArith QArith Qround Qabs List String Ascii Bool Lia Lqa.
From Stdlib Require Import Sorted Permutation DecimalString DecimalNat.
Import ListNotations.

Set Implicit Arguments.

(** ** Exceptions *)

Inductive pyerr : Type :=
| ValueError
| IndexError
| ZeroDivisionError.

Inductive result (A : Type) : Type :=
| Ok (a : A)
| Raise (e : pyerr).

Arguments Ok {A} a.
Arguments Raise {A} e.

Definition bind {A B : Type} (r : result A) (k : A -> result B) : result B :=
  match r with
  | Ok a => k a
  | Raise e => Raise e
  end.

Definition rmap {A B : Type} (f : A -> B) (r : result A) : result B :=
  bind r (fun a => Ok (f a)).

Notation "x <- c ;; k" := (bind c (fun x => k))
  (at level 61, c at next level, right associativity).

(** ** Characters and strings *)

Module Lex.

Local Open Scope string_scope.

Definition dquote : ascii := "034"%char.
Definition newline : ascii := "010"%char.

Definition in_range (lo hi : N) (c : ascii) : bool :=
  let n := N_of_ascii c in (lo <=? n)%N && (n <=? hi)%N.

(** [\d] on ASCII text. *)
Definition is_digit (c : ascii) : bool := in_range 48 57 c.

(** [\w] on ASCII text: letters, digits and the underscore. *)
Definition is_word (c : ascii) : bool :=
  is_digit c || in_range 65 90 c || in_range 97 122 c || Ascii.eqb c "_"%char.

(** The class [[\d.]]. *)
Definition is_num_char (c : ascii) : bool := is_digit c || Ascii.eqb c "."%char.

(** The class of every character but the double quote. *)
Definition is_not_quote (c : ascii) : bool := negb (Ascii.eqb c dquote).

(** [drop_prefix p s] is what follows [p] in [s] when [s] starts with [p]. *)
Fixpoint drop_prefix (p s : string) : option string :=
  match p with
  | EmptyString => Some s
  | String a p' =>
      match s with
      | EmptyString => None
      | String b s' => if Ascii.eqb a b then drop_prefix p' s' else None
      end
  end.

(** [pat in s] *)
Fixpoint contains (pat s : string) : bool :=
  match drop_prefix pat s with
  | Some _ => true
  | None =>
      match s with
      | EmptyString => false
      | String _ s' => contains pat s'
      end
  end.

(** The longest prefix of [s] in the class, and the rest. *)
Fixpoint span (cls : ascii -> bool) (s : string) : string * string :=
  match s with
  | EmptyString => (EmptyString, EmptyString)
  | String c s' =>
      if cls c then let (v, r) := span cls s' in (String c v, r)
      else (EmptyString, s)
  end.

(** A match of the literal, a non-empty greedy run of the class and a
    closing double quote at the start of [s]: the quote is in neither
    class the patterns use, so the longest run is the only candidate. *)
Definition match_here (lit : string) (cls : ascii -> bool) (s : string)
  : option string :=
  match drop_prefix lit s with
  | None => None
  | Some rest =>
      match span cls rest with
      | (EmptyString, _) => None
      | (v, String c _) => if Ascii.eqb c dquote then Some v else None
      | (_, EmptyString) => None
      end
  end.

(** [re.search] for such a pattern, with a leading [\b] when [wb]
    holds: the leftmost position where the pattern matches.  Every literal
    starts with a letter, so [\b] asks for the start of the line or a
    non-word character before. [prev] is the character before [s]. *)
Fixpoint search_from (wb : bool) (lit : string) (cls : ascii -> bool)
  (prev : option ascii) (s : string) : option string :=
  let boundary :=
    match prev with
    | None => true
    | Some c => negb (is_word c)
    end in
  let here := if negb wb || boundary then match_here lit cls s else None in
  match here with
  | Some v => Some v
  | None =>
      match s with
      | EmptyString => None
      | String c s' => search_from wb lit cls (Some c) s'
      end
  end.

Definition re_search (wb : bool) (name : string) (cls : ascii -> bool)
  (line : string) : option string :=
  search_from wb (name ++ String "="%char (String dquote EmptyString)) cls None line.

Definition RE_TIME := re_search false "time" is_num_char.
Definition RE_VID := re_search true "id" is_not_quote.
Definition RE_X := re_search true "x" is_num_char.
Definition RE_Y := re_search true "y" is_num_char.
Definition RE_SPEED := re_search false "speed" is_num_char.
Definition RE_LANE := re_search false "lane" is_not_quote.

(** *** [float] on what [[\d.]+] captures *)

Definition digit_val (c : ascii) : Z := Z.of_N (N_of_ascii c) - 48.

(** Digits read left to right onto an accumulator; [None] at a character
    that is not a digit. *)
Fixpoint read_digits (acc : Z) (s : string) : option Z :=
  match s with
  | EmptyString => Some acc
  | String c s' =>
      if is_digit c then read_digits (10 * acc + digit_val c) s' else None
  end.

Definition pow10 (n : nat) : positive := Pos.pow 10 (Pos.of_nat n).

Definition ten_to (n : nat) : positive :=
  match n with
  | O => 1%positive
  | S _ => pow10 n
  end.

(** [float(s)]: digits, at most one dot, at least one digit; anything else
    raises [ValueError]. *)
Definition py_float (s : string) : result Q :=
  let (ip, rest) := span is_digit s in
  match rest with
  | EmptyString =>
      match ip, read_digits 0 ip with
      | String _ _, Some n => Ok (inject_Z n)
      | _, _ => Raise ValueError
      end
  | String c fp =>
      if Ascii.eqb c "."%char then
        match read_digits 0 (ip ++ fp) with
        | Some n =>
            if (String.length ip + String.length fp =? 0)%nat
            then Raise ValueError
            else Ok (Qmake n (ten_to (String.length fp)))
        | None => Raise ValueError
        end
      else Raise ValueError
  end.

(** *** Prefixes in which a pattern cannot start *)

(** Every character of [s] is in the class. *)
Fixpoint every (cls : ascii -> bool) (s : string) : bool :=
  match s with
  | EmptyString => true
  | String c s' => cls c && every cls s'
  end.

(** [lit] and [t] differ at a character that both have. *)
Fixpoint clash (lit t : string) : bool :=
  match lit, t with
  | String a lit', String b t' => if Ascii.eqb a b then clash lit' t' else true
  | _, _ => false
  end.

(** [lit] clashes with [p] from each of its positions on. *)
Fixpoint clear_of (lit p : string) : bool :=
  match p with
  | EmptyString => true
  | String _ p' => clash lit p && clear_of lit p'
  end.

(** The character before what follows [p], [prev] being the one before
    [p]. *)
Fixpoint last_char (prev : option ascii) (p : string) : option ascii :=
  match p with
  | EmptyString => prev
  | String c p' => last_char (Some c) p'
  end.

End Lex.

(** ** Numbers *)

(** [int(x)]: truncation towards zero. *)
Definition py_int (x : Q) : Z := Z.quot (Qnum x) (Zpos (Qden x)).

(** Nearest integer, ties to the even one. *)
Definition round_half_even (x : Q) : Z :=
  let f := Qfloor x in
  let d := (x - inject_Z f)%Q in
  match Qcompare d (1 # 2) with
  | Lt => f
  | Gt => (f + 1)%Z
  | Eq => if Z.even f then f else (f + 1)%Z
  end.

(** [round(x, n)] *)
Definition py_round (x : Q) (n : nat) : Q :=
  let p := Lex.ten_to n in
  Qmake (round_half_even (x * inject_Z (Zpos p))) p.

(** [a / b] on floats. *)
Definition py_div (a b : Q) : result Q :=
  if Qeq_bool b 0 then Raise ZeroDivisionError else Ok (a / b)%Q.

(** [l[i]] with Python's negative indices. *)
Definition py_index {A : Type} (l : list A) (i : Z) : result A :=
  let n := Z.of_nat (List.length l) in
  let j := if (i <? 0)%Z then (n + i)%Z else i in
  if ((j <? 0) || (n <=? j))%Z then Raise IndexError
  else match nth_error l (Z.to_nat j) with
       | Some a => Ok a
       | None => Raise IndexError
       end.

Definition Qleb (a b : Q) : bool := Qle_bool a b.
Definition Qltb (a b : Q) : bool := negb (Qle_bool b a).

(** ** The line loop *)

(** What a loop body asks for: the next line, or [break]. *)
Inductive ctl : Type := Continue | Break.

Section Loop.
Variable S : Type.
Variable step : S -> string -> result (ctl * S).

(** [for line in f: ...] with [break], on the lines of the file. *)
Fixpoint run (st : S) (lines : list string) : result S :=
  match lines with
  | [] => Ok st
  | l :: rest =>
      match step st l with
      | Raise e => Raise e
      | Ok (Break, st') => Ok st'
      | Ok (Continue, st') => run st' rest
      end
  end.

(** The same body with its [break] taken out: every line is read. *)
Definition no_break (st : S) (l : string) : result (ctl * S) :=
  rmap (fun r => (Continue, snd r)) (step st l).
End Loop.

(** ** Dictionaries of lists *)

Section Dict.
Variable V : Type.

Fixpoint dict_get (k : string) (d : list (string * V)) : option V :=
  match d with
  | [] => None
  | (k', v) :: d' => if String.eqb k' k then Some v else dict_get k d'
  end.

(** [d.get(k, dflt)] *)
Definition get_or (dflt : V) (k : string) (d : list (string * V)) : V :=
  match dict_get k d with
  | Some v => v
  | None => dflt
  end.

(** [d[k] = f(d[k])] when [k] is a key, [d[k] = f(dflt)] otherwise: the
    new key goes last. *)
Fixpoint dict_update (k : string) (dflt : V) (f : V -> V)
  (d : list (string * V)) : list (string * V) :=
  match d with
  | [] => [(k, f dflt)]
  | (k', v) :: d' =>
      if String.eqb k' k then (k', f v) :: d'
      else (k', v) :: dict_update k dflt f d'
  end.
End Dict.

(** ** Trajectories *)

Record waypoint : Type := mkWaypoint {
  wp_t : Z;
  wp_lon : Q;
  wp_lat : Q;
  wp_speed : Q
}.

Definition trajectories : Type := list (string * list waypoint).

(** [if vid not in vehicles: vehicles[vid] = []] and
    [vehicles[vid].append(wp)] *)
Definition add_waypoint (vid : string) (wp : waypoint) (d : trajectories)
  : trajectories :=
  dict_update vid [] (fun wps => wps ++ [wp]) d.

Definition MORNING_START : Z := 7 * 3600.
Definition MORNING_END : Z := 9 * 3600.
Definition kmh : Q := 36 # 10.

(** The waypoint of a vehicle line read at [cur_time], coordinates rounded
    to [digits] places; [None] when an attribute is missing. *)
Definition parse_waypoint (digits : nat) (cur_time : Q) (line : string)
  : option (result (string * waypoint)) :=
  match Lex.RE_VID line, Lex.RE_X line, Lex.RE_Y line, Lex.RE_SPEED line with
  | Some vid, Some xs, Some ys, Some ss =>
      Some (x <- Lex.py_float xs ;;
            y <- Lex.py_float ys ;;
            s <- Lex.py_float ss ;;
            Ok (vid, mkWaypoint (py_int cur_time) (py_round x digits)
                       (py_round y digits) (py_round (s * kmh) 1)))
  | _, _, _, _ => None
  end.

(** *** make_deckgl.py *)

Module MakeDeckgl.

Local Open Scope string_scope.

Definition BUFFER : Z := 60.
Definition MAX_VEHICLES : nat := 8000.
Definition MIN_WAYPOINTS : nat := 5.

Record state : Type := mkState {
  vehicles : trajectories;
  cur_time : Q;
  in_window : bool
}.

Definition init : state := mkState [] (-1) false.

Definition window_lo : Q := inject_Z (MORNING_START - BUFFER).
Definition window_hi : Q := inject_Z (MORNING_END + BUFFER).

(** The body of the loop over the lines. *)
Definition step (st : state) (line : string) : result (ctl * state) :=
  if Lex.contains "<timestep" line then
    match Lex.RE_TIME line with
    | Some v =>
        t <- Lex.py_float v ;;
        let st' := mkState (vehicles st) t
                     (Qleb window_lo t && Qleb t window_hi) in
        if Qltb window_hi t then Ok (Break, st') else Ok (Continue, st')
    | None => Ok (Continue, st)
    end
  else if in_window st && Lex.contains "<vehicle" line then
    match parse_waypoint 5 (cur_time st) line with
    | Some r =>
        vw <- r ;;
        Ok (Continue,
            mkState (add_waypoint (fst vw) (snd vw) (vehicles st))
              (cur_time st) (in_window st))
    | None => Ok (Continue, st)
    end
  else Ok (Continue, st).

Definition scan (trace : list string) : result trajectories :=
  rmap vehicles (run step init trace).

(** The scan that reads the entire file. *)
Definition scan_full (trace : list string) : result trajectories :=
  rmap vehicles (run (no_break step) init trace).

(** [sorted(keys, key=..., reverse=True)]: stable, largest key first. *)
Section SortedReverse.
Variable A : Type.
Variable key : A -> nat.

Fixpoint insert_desc (x : A) (l : list A) : list A :=
  match l with
  | [] => [x]
  | y :: l' => if (key x <? key y)%nat then y :: insert_desc x l' else x :: l
  end.

Definition sorted_reverse (l : list A) : list A :=
  fold_right insert_desc [] l.
End SortedReverse.

Definition waypoints_of (d : trajectories) (vid : string) : list waypoint :=
  match dict_get vid d with
  | Some wps => wps
  | None => []
  end.

(** The filter on [MIN_WAYPOINTS] and the cap on [MAX_VEHICLES]. *)
Definition finalize (vehicles : trajectories) : trajectories :=
  let valid :=
    filter (fun e => (MIN_WAYPOINTS <=? List.length (snd e))%nat) vehicles in
  if (MAX_VEHICLES <? List.length valid)%nat then
    let sorted_vids :=
      sorted_reverse (fun v => List.length (waypoints_of valid v))
        (map fst valid) in
    map (fun vid => (vid, waypoints_of valid vid))
      (firstn MAX_VEHICLES sorted_vids)
  else valid.

(** The list written to trips_deckgl.json. *)
Definition deckgl (trace : list string) : result trajectories :=
  rmap finalize (scan trace).

End MakeDeckgl.

(** *** postprocess.py, step 4 *)

Module Step4.

Local Open Scope string_scope.

Record state : Type := mkState {
  vehicles : trajectories;
  cur_time : Q
}.

Definition init : state := mkState [] (-1).

Definition window_lo : Q := inject_Z (MORNING_START - 60).
Definition window_hi : Q := inject_Z (MORNING_END + 60).
Definition stop_after : Q := inject_Z (MORNING_END + 120).

Definition step (st : state) (line : string) : result (ctl * state) :=
  if Lex.contains "<timestep" line then
    match Lex.RE_TIME line with
    | Some v =>
        t <- Lex.py_float v ;;
        let st' := mkState (vehicles st) t in
        if Qltb stop_after t then Ok (Break, st') else Ok (Continue, st')
    | None => Ok (Continue, st)
    end
  else if Qleb window_lo (cur_time st) && Qleb (cur_time st) window_hi
          && Lex.contains "<vehicle" line then
    match parse_waypoint 6 (cur_time st) line with
    | Some r =>
        vw <- r ;;
        Ok (Continue,
            mkState (add_waypoint (fst vw) (snd vw) (vehicles st))
              (cur_time st))
    | None => Ok (Continue, st)
    end
  else Ok (Continue, st).

Definition scan (trace : list string) : result trajectories :=
  rmap vehicles (run step init trace).

(** The scan that reads the entire file. *)
Definition scan_full (trace : list string) : result trajectories :=
  rmap vehicles (run (no_break step) init trace).

(** The list written to trips_deckgl.json. *)
Definition deckgl (trace : list string) : result trajectories :=
  rmap (filter (fun e => (5 <=? List.length (snd e))%nat)) (scan trace).

End Step4.

(** ** The static network, as sumolib gives it *)

Definition point : Type := (Q * Q)%type.

Record edge : Type := mkEdge {
  getID : string;
  getLanes : nat;
  getSpeed : Q;
  getLength : Q;
  getShape : list point
}.

Record network : Type := mkNetwork {
  getEdges : list edge;
  convertXY2LonLat : Q -> Q -> point;
  getRoundabouts : list (list string)
}.

(** [net.getEdge(id)]; [None] stands for the [KeyError]. *)
Definition getEdge (net : network) (id : string) : option edge :=
  find (fun e => String.eqb (getID e) id) (getEdges net).

(** ** postprocess.py, steps 1 and 2: speeds per edge *)

Module Aggregate.

Local Open Scope string_scope.

Definition EVENING_START : Z := 17 * 3600.
Definition EVENING_END : Z := 20 * 3600.
Definition SAMPLE_EVERY : Z := 30.

Record state : Type := mkState {
  edge_speed_sum : list (string * Q);
  edge_speed_count : list (string * Z);
  current_time : Q;
  in_peak : bool;
  sample_this : bool
}.

Definition init : state := mkState [] [] (-1) false false.

(** What is before the last underscore, when there is one. *)
Fixpoint before_last_underscore (s : string) : option string :=
  match s with
  | EmptyString => None
  | String c s' =>
      match before_last_underscore s' with
      | Some p => Some (String c p)
      | None => if Ascii.eqb c "_"%char then Some EmptyString else None
      end
  end.

(** [lane.rsplit('_', 1)[0]] *)
Definition edge_of_lane (lane : string) : string :=
  match before_last_underscore lane with
  | Some p => p
  | None => lane
  end.

(** The sample of a line read in state [st]: the edge and the speed in
    km/h; [None] when the line is not a vehicle line of a sampled
    timestep or misses an attribute. *)
Definition sample_of (st : state) (line : string)
  : option (result (string * Q)) :=
  if sample_this st && Lex.contains "<vehicle" line then
    match Lex.RE_LANE line, Lex.RE_SPEED line with
    | Some lane, Some ss =>
        Some (s <- Lex.py_float ss ;; Ok (edge_of_lane lane, (s * kmh)%Q))
    | _, _ => None
    end
  else None.

Definition fold_sample (st : state) (es : string * Q) : state :=
  mkState
    (dict_update (fst es) 0%Q (fun v => (v + snd es)%Q) (edge_speed_sum st))
    (dict_update (fst es) 0%Z (fun c => (c + 1)%Z) (edge_speed_count st))
    (current_time st) (in_peak st) (sample_this st).

Definition step (st : state) (line : string) : result (ctl * state) :=
  if Lex.contains "<timestep" line then
    match Lex.RE_TIME line with
    | Some v =>
        t <- Lex.py_float v ;;
        let peak :=
          (Qleb (inject_Z MORNING_START) t && Qleb t (inject_Z MORNING_END))
          || (Qleb (inject_Z EVENING_START) t && Qleb t (inject_Z EVENING_END)) in
        let sample := peak && (py_int t mod SAMPLE_EVERY =? 0)%Z in
        Ok (Continue,
            mkState (edge_speed_sum st) (edge_speed_count st) t peak sample)
    | None => Ok (Continue, st)
    end
  else
    match sample_of st line with
    | Some r => es <- r ;; Ok (Continue, fold_sample st es)
    | None => Ok (Continue, st)
    end.

Definition scan (trace : list string) : result state := run step init trace.

(** [edge_speed_sum[edge_id]] on the [defaultdict]. *)
Definition sum_of (st : state) (edge_id : string) : Q :=
  match dict_get edge_id (edge_speed_sum st) with
  | Some v => v
  | None => 0
  end.

(** [mean_speed = edge_speed_sum[edge_id] / count] *)
Definition mean_speed (st : state) (edge_id : string) (count : Z) : result Q :=
  py_div (sum_of st edge_id) (inject_Z count).

Record row : Type := mkRow {
  edge_id : string;
  mean_speed_kmh : Q;
  mean_speed_rel : Q;
  freeflow_kmh : Q;
  length_m : Q;
  sample_count : Z;
  peak_flow : Q
}.

(** [max(a, b)] *)
Definition py_max (a b : Q) : Q := if Qltb a b then b else a.

Definition row_of (net : network) (st : state) (ec : string * Z) : result row :=
  let (eid, count) := ec in
  m <- mean_speed st eid count ;;
  let (ff, len) :=
    match getEdge net eid with
    | Some e => (py_max (getSpeed e * kmh) 10, getLength e)
    | None => (50, 50)
    end in
  rel <- py_div m ff ;;
  Ok (mkRow eid (py_round m 2) (py_round rel 4) (py_round ff 1)
        (py_round len 1) count (py_round (inject_Z count / 4) 1)).

Fixpoint collect {A B : Type} (f : A -> result B) (l : list A)
  : result (list B) :=
  match l with
  | [] => Ok []
  | a :: l' => b <- f a ;; bs <- collect f l' ;; Ok (b :: bs)
  end.

Definition rows (net : network) (st : state) : result (list row) :=
  collect (row_of net st) (edge_speed_count st).

(** The samples the scan folds, in the order it folds them. *)
Fixpoint folded (st : state) (lines : list string) : list (string * Q) :=
  match lines with
  | [] => []
  | l :: rest =>
      match step st l with
      | Raise _ => []
      | Ok (_, st') =>
          let here :=
            if Lex.contains "<timestep" l then []
            else match sample_of st l with
                 | Some (Ok es) => [es]
                 | _ => []
                 end in
          here ++ folded st' rest
      end
  end.

Definition samples_for (eid : string) (log : list (string * Q)) : list Q :=
  map snd (filter (fun es => String.eqb (fst es) eid) log).

Definition Qsum (l : list Q) : Q := fold_right Qplus 0 l.

End Aggregate.

(** ** postprocess.py, step 3: the congestion map *)

Definition sr_to_color (sr : Q) : list Z :=
  if Qltb sr (25 # 100) then [204; 0; 0]%Z
  else if Qltb sr (45 # 100) then [255; 68; 0]%Z
  else if Qltb sr (60 # 100) then [255; 136; 0]%Z
  else if Qltb sr (75 # 100) then [255; 187; 0]%Z
  else if Qltb sr (90 # 100) then [136; 204; 0]%Z
  else [0; 170; 68]%Z.

Module Geometry.

Local Open Scope string_scope.

Definition LANE_WIDTH : Q := 32 # 10.
Definition tolerance : Q := 5 # 100000.

Section OffsetLine.
(** [math.sqrt], which the development leaves open. *)
Variable sqrt : Q -> Q.

(** [dx, dy] at vertex [i] of [n]: forward difference at the first
    vertex, backward at the last, central elsewhere. *)
Definition direction (coords : list point) (n i : Z) : result point :=
  let diff (a b : Z) : result point :=
    pa <- py_index coords a ;;
    pb <- py_index coords b ;;
    Ok ((fst pa - fst pb)%Q, (snd pa - snd pb)%Q) in
  if (i =? 0)%Z then diff 1%Z 0%Z
  else if (i =? n - 1)%Z then diff (-1)%Z (-2)%Z
  else diff (i + 1)%Z (i - 1)%Z.

Definition norm (d : point) : Q :=
  sqrt (fst d * fst d + snd d * snd d).

(** One turn of the loop of [offset_line]: the vertex moved along the
    normal, or left where it is when the direction has length zero. *)
Definition offset_vertex (coords : list point) (offset_m : Q) (n i : Z)
  (pt : point) : result point :=
  d <- direction coords n i ;;
  let L := norm d in
  if Qeq_bool L 0 then Ok pt
  else
    nx <- py_div (- snd d) L ;;
    ny <- py_div (fst d) L ;;
    Ok ((fst pt + nx * offset_m / 75000)%Q,
        (snd pt + ny * offset_m / 111000)%Q).

Fixpoint offset_loop (coords : list point) (offset_m : Q) (n i : Z)
  (todo : list point) : result (list point) :=
  match todo with
  | [] => Ok []
  | pt :: todo' =>
      p <- offset_vertex coords offset_m n i pt ;;
      ps <- offset_loop coords offset_m n (i + 1) todo' ;;
      Ok (p :: ps)
  end.

Definition offset_line (coords : list point) (offset_m : Q)
  : result (list point) :=
  offset_loop coords offset_m (Z.of_nat (List.length coords)) 0 coords.
End OffsetLine.

(** [from_newline s]: [s] from its first line feed on. *)
Fixpoint from_newline (s : string) : string :=
  match s with
  | EmptyString => EmptyString
  | String c s' => if Ascii.eqb c Lex.newline then s else from_newline s'
  end.

(** [re.sub] of an optional minus, digits and the rest of the line, by the
    digits. *)
Definition base_id (eid : string) : string :=
  let body :=
    match eid with
    | String c r => if Ascii.eqb c "-"%char then r else eid
    | EmptyString => eid
    end in
  match Lex.span Lex.is_digit body with
  | (EmptyString, _) => eid
  | (d, r) => d ++ from_newline r
  end.

Definition starts_with (c : ascii) (s : string) : bool :=
  match s with
  | String a _ => Ascii.eqb a c
  | EmptyString => false
  end.

(** A hash sign, digits and the end of the id, at the start of [s]. *)
Definition seg_here (s : string) : option string :=
  match s with
  | String c rest =>
      if Ascii.eqb c "#"%char then
        match Lex.span Lex.is_digit rest with
        | (EmptyString, _) => None
        | (d, EmptyString) => Some d
        | (d, String e EmptyString) =>
            if Ascii.eqb e Lex.newline then Some d else None
        | _ => None
        end
      else None
  | EmptyString => None
  end.

Fixpoint seg_search (s : string) : option string :=
  match seg_here s with
  | Some d => Some d
  | None =>
      match s with
      | EmptyString => None
      | String _ s' => seg_search s'
      end
  end.

Definition seg_num (e : edge) : Z :=
  match seg_search (getID e) with
  | Some d =>
      match Lex.read_digits 0 d with
      | Some n => n
      | None => 0%Z
      end
  | None => 0%Z
  end.

(** [sorted(edges, key=seg_num)]: stable, smallest key first. *)
Fixpoint insert_asc (x : edge) (l : list edge) : list edge :=
  match l with
  | [] => [x]
  | y :: l' =>
      if (seg_num x <=? seg_num y)%Z then x :: l else y :: insert_asc x l'
  end.

Definition sorted_edges (l : list edge) : list edge :=
  fold_right insert_asc [] l.

Definition coincide (a b : point) : bool :=
  Qltb (Qabs (fst a - fst b)) tolerance
  && Qltb (Qabs (snd a - snd b)) tolerance.

(** One turn of the merge loop, for the shape [ll] of the next edge. *)
Definition merge_step (merged ll : list point) : list point :=
  let ll' :=
    match merged, ll with
    | _ :: _, p :: tl =>
        if coincide p (List.last merged p) then tl else ll
    | _, _ => ll
    end in
  (merged ++ ll')%list.

Definition lonlat (net : network) (e : edge) : list point :=
  map (fun xy => convertXY2LonLat net (fst xy) (snd xy)) (getShape e).

Definition merge (net : network) (edges : list edge) : list point :=
  fold_left merge_step (map (lonlat net) edges) [].

Record feature : Type := mkFeature {
  coordinates : list point;
  speed_ratio : Q;
  peak_flow : Z;
  color : list Z;
  n_lanes : nat;
  is_roundabout : bool
}.

Definition group_key : Type := (string * nat * bool)%type.

Definition key_eqb (a b : group_key) : bool :=
  String.eqb (fst (fst a)) (fst (fst b))
  && Nat.eqb (snd (fst a)) (snd (fst b))
  && Bool.eqb (snd a) (snd b).

(** [groups[key].append(e)] on the [defaultdict(list)]. *)
Fixpoint group_add (k : group_key) (e : edge)
  (g : list (group_key * list edge)) : list (group_key * list edge) :=
  match g with
  | [] => [(k, [e])]
  | (k', es) :: g' =>
      if key_eqb k' k then (k', (es ++ [e])%list) :: g'
      else (k', es) :: group_add k e g'
  end.

Definition congestion_of (rows : list Aggregate.row)
  : list (string * Aggregate.row) :=
  map (fun r => (Aggregate.edge_id r, r)) rows.

Definition groups (net : network) (congestion : list (string * Aggregate.row))
  : list (group_key * list edge) :=
  fold_left
    (fun g e =>
       let eid := getID e in
       if starts_with ":"%char eid
          || match dict_get eid congestion with Some _ => false | None => true end
       then g
       else group_add (base_id eid, getLanes e, starts_with "-"%char eid) e g)
    (getEdges net) [].

(** The rows of the edges of a group that have one, with the lengths. *)
Definition weighted (congestion : list (string * Aggregate.row))
  (edges : list edge) : list (Aggregate.row * Q) :=
  flat_map
    (fun e =>
       match dict_get (getID e) congestion with
       | Some r => [(r, getLength e)]
       | None => []
       end) edges.

Definition lane_offset (n_lanes li : nat) : Q :=
  ((inject_Z (Z.of_nat li) - (inject_Z (Z.of_nat n_lanes) - 1) / 2)
   * LANE_WIDTH)%Q.

Definition roundabout_edges (net : network) : list string :=
  List.concat (getRoundabouts net).

Section Features.
Variable sqrt : Q -> Q.
Variable net : network.
Variable congestion : list (string * Aggregate.row).

(** The body of the loop over the groups: the features of one group.
    The two weighted means are exact quotients of exact sums.  The code
    divides sums of binary floats, so its mean can differ from the exact
    one in the last place, and fall on the other side of a border of
    [sr_to_color] when the exact mean sits on it: nothing below depends
    on the value of the means. *)
Definition group_features (key : group_key) (edges : list edge)
  : result (list feature) :=
  let n_lanes := snd (fst key) in
  let edges := sorted_edges edges in
  let merged := merge net edges in
  if (List.length merged <? 2)%nat then Ok []
  else
    let rws := weighted congestion edges in
    match rws with
    | [] => Ok []
    | _ :: _ =>
        let W := Aggregate.Qsum (map snd rws) in
        avg_sr <- py_div
          (Aggregate.Qsum
             (map (fun rw => (Aggregate.mean_speed_rel (fst rw) * snd rw)%Q) rws))
          W ;;
        avg_flow <- py_div
          (Aggregate.Qsum
             (map (fun rw => (Aggregate.peak_flow (fst rw) * snd rw)%Q) rws))
          W ;;
        let color := sr_to_color avg_sr in
        let is_rb :=
          existsb
            (fun e => existsb (String.eqb (getID e)) (roundabout_edges net))
            edges in
        let feat (coords : list point) (n : nat) : feature :=
          mkFeature coords (py_round avg_sr 3) (py_int avg_flow) color n is_rb in
        if (n_lanes =? 1)%nat then Ok [feat merged 1%nat]
        else
          Aggregate.collect
            (fun li =>
               coords <- offset_line sqrt merged (lane_offset n_lanes li) ;;
               Ok (feat coords n_lanes))
            (seq 0 n_lanes)
    end.

Fixpoint all_features (gs : list (group_key * list edge))
  : result (list feature) :=
  match gs with
  | [] => Ok []
  | (k, es) :: gs' =>
      fs <- group_features k es ;;
      rest <- all_features gs' ;;
      Ok (fs ++ rest)%list
  end.

Definition features : result (list feature) :=
  all_features (groups net congestion).
End Features.

End Geometry.

(** ** postprocess.py, step 5: validation *)

Module Validation.

Local Open Scope string_scope.

Record corridor : Type := mkCorridor {
  name : string;
  bbox : Q * Q * Q * Q;
  google : Q
}.

Inductive status : Type :=
| GOOD
| HIGH
| TOO_FAST
| NO_DATA.

(** The first vertex of each edge that the network knows, with the mean
    speed of its row. *)
Definition edge_coords (net : network) (rows : list Aggregate.row)
  : list (string * (Q * Q * Q)) :=
  flat_map
    (fun r =>
       match getEdge net (Aggregate.edge_id r) with
       | Some e =>
           match getShape e with
           | xy :: _ =>
               let ll := convertXY2LonLat net (fst xy) (snd xy) in
               [(Aggregate.edge_id r,
                 (fst ll, snd ll, Aggregate.mean_speed_kmh r))]
           | [] => []
           end
       | None => []
       end) rows.

Definition inside (b : Q * Q * Q * Q) (lon lat : Q) : bool :=
  let '(lon0, lon1, lat0, lat1) := b in
  Qleb lon0 lon && Qleb lon lon1 && Qleb lat0 lat && Qleb lat lat1.

Definition speeds_in (ec : list (string * (Q * Q * Q))) (info : corridor)
  : list Q :=
  map (fun e => snd (snd e))
    (filter (fun e => inside (bbox info) (fst (fst (snd e))) (snd (fst (snd e))))
       ec).

Definition status_of (ratio : Q) : status :=
  if Qltb ratio (15 # 10) then GOOD
  else if Qltb ratio (25 # 10) then HIGH
  else TOO_FAST.

(** The body of the loop over the corridors: the ratio, when there is one,
    and the status that is printed. *)
Definition validate (ec : list (string * (Q * Q * Q))) (info : corridor)
  : result (option Q * status) :=
  match speeds_in ec info with
  | [] => Ok (None, NO_DATA)
  | speeds =>
      sim <- py_div (Aggregate.Qsum speeds)
               (inject_Z (Z.of_nat (List.length speeds))) ;;
      ratio <- py_div sim (google info) ;;
      Ok (Some ratio, status_of ratio)
  end.

(** The rows that a corridor averages, said of the rows themselves: the
    network knows the edge of the row, the shape of the edge has a first
    vertex, and that vertex, in degrees, lies in the box of the corridor,
    its borders included. *)
Definition first_vertex_in_box (net : network) (info : corridor)
  (r : Aggregate.row) : bool :=
  match getEdge net (Aggregate.edge_id r) with
  | Some e =>
      match getShape e with
      | xy :: _ =>
          let ll := convertXY2LonLat net (fst xy) (snd xy) in
          let '(lon0, lon1, lat0, lat1) := bbox info in
          Qleb lon0 (fst ll) && Qleb (fst ll) lon1
          && Qleb lat0 (snd ll) && Qleb (snd ll) lat1
      | [] => false
      end
  | None => false
  end.


End Validation.

(** ** The bands of the classifier, as the specification words them *)

Module Bands.

Definition thresholds : list Q := [25 # 100; 45 # 100; 60 # 100; 75 # 100; 90 # 100].

Definition colors : list (list Z) :=
  [ [204; 0; 0]; [255; 68; 0]; [255; 136; 0]; [255; 187; 0]; [136; 204; 0];
    [0; 170; 68] ]%Z.

(** The band of a ratio: the number of thresholds it has reached, so that a
    ratio on a threshold is in the band above it. *)
Definition band (r : Q) : nat :=
  List.length (filter (fun t => Qleb t r) thresholds).

End Bands.

(** ** The timestep times of a trace *)

(** The time a line sets: [None] for a line that is no timestep line or
    has no time attribute, [Some (Raise _)] when [float] refuses the
    attribute. *)
Definition line_time (line : string) : option (result Q) :=
  if Lex.contains "<timestep" line then
    match Lex.RE_TIME line with
    | Some v => Some (Lex.py_float v)
    | None => None
    end
  else None.

(** The times of the timestep lines in file order; [None] when one of them
    is no number. *)
Fixpoint timestep_times (trace : list string) : option (list Q) :=
  match trace with
  | [] => Some []
  | l :: rest =>
      match line_time l with
      | None => timestep_times rest
      | Some (Raise _) => None
      | Some (Ok t) =>
          match timestep_times rest with
          | Some ts => Some (t :: ts)
          | None => None
          end
      end
  end.

(** Timestep times that never go back. *)
Definition monotone (trace : list string) : Prop :=
  exists ts, timestep_times trace = Some ts /\ Sorted Qle ts.

(** The seconds of a trajectory, and the window they are to stay in. *)
Definition seconds (wps : list waypoint) : list Z := map wp_t wps.

Definition in_window_Z (t : Z) : Prop :=
  (MORNING_START - 60 <= t <= MORNING_END + 60)%Z.

(** ** Sample inputs *)

Module Samples.

Local Open Scope string_scope.

Definition q : string := String Lex.dquote EmptyString.

(** An attribute with its value between double quotes, after a space. *)
Definition attr (name value : string) : string :=
  " " ++ name ++ "=" ++ q ++ value ++ q.

Definition timestep_line (t : string) : string :=
  "<timestep" ++ attr "time" t ++ ">".

Definition vehicle (vid speed lane : string) : string :=
  "<vehicle" ++ attr "id" vid ++ attr "x" "28.85" ++ attr "y" "47.01"
    ++ attr "speed" speed ++ attr "lane" lane ++ "/>".

Definition vehicle_line (vid : string) : string := vehicle vid "10.00" "123#0_0".

(** The line of a vehicle up to its id, and after the id. *)
Definition vehicle_head : string := "<vehicle id=" ++ q.

Definition vehicle_tail : string :=
  attr "x" "28.85" ++ attr "y" "47.01" ++ attr "speed" "10.00"
    ++ attr "lane" "123#0_0" ++ "/>".

(** The waypoint that such a line gives at time [c], the coordinates
    rounded to [digits] places. *)
Definition seen (digits : nat) (c : Q) : waypoint :=
  mkWaypoint (py_int c) (py_round (2885 # 100) digits)
    (py_round (4701 # 100) digits) (py_round ((1000 # 100) * kmh) 1).

(** A timestep with one line for each vehicle. *)
Definition block (ids : list string) (t : string) : list string :=
  (timestep_line t :: map vehicle_line ids ++ ["</timestep>"])%list.

Definition blocks (ids times : list string) : list string :=
  List.concat (map (block ids) times).

(** The decimal numeral of [n], and the ids [0], ..., [n - 1]. *)
Definition decimal (n : nat) : string := NilEmpty.string_of_uint (Nat.to_uint n).

Definition fleet (n : nat) : list string := map decimal (seq 0 n).

(** Five steps of one second, every vehicle of [ids] in each. *)
Definition five_seconds : list string :=
  ["25200.00"; "25201.00"; "25202.00"; "25203.00"; "25204.00"].

Definition five_times : list Q :=
  [2520000 # 100; 2520100 # 100; 2520200 # 100; 2520300 # 100; 2520400 # 100].

Definition crowd (ids : list string) : list string := blocks ids five_seconds.

(** Five steps of half a second. *)
Definition half_seconds : list string :=
  ["25200.00"; "25200.50"; "25201.00"; "25201.50"; "25202.00"].

Definition half_second_trace : list string := blocks ["7"] half_seconds.

(** Two vehicles from before the window to after it. *)
Definition morning : list string :=
  blocks ["7"; "8"]
    ["25100.00"; "25200.00"; "25201.00"; "25202.00"; "25203.00"; "25204.00";
     "32460.00"; "32461.00"; "32521.00"; "32600.00"].

(** What make_deckgl.py writes for it. *)
Definition morning_table : trajectories :=
  Eval vm_compute in
    match MakeDeckgl.deckgl morning with
    | Ok tbl => tbl
    | Raise _ => []
    end.

(** A timestep whose time the pattern accepts and [float] refuses, and a
    vehicle with such a speed. *)
Definition bad_time : list string := [timestep_line "1.2.3"].

Definition bad_speed : list string :=
  [timestep_line "25200.00"; vehicle "7" "1.2.3" "123#0_0"].

(** Two samples on one edge in a sampled second of the peak, and one in a
    second that is not sampled. *)
Definition peak : list string :=
  [ timestep_line "25200.00";
    vehicle "7" "10.00" "123#0_0";
    vehicle "8" "5.00" "123#0_1";
    "</timestep>";
    timestep_line "25201.00";
    vehicle "7" "12.00" "123#0_0";
    "</timestep>" ].

Definition peak_state : Aggregate.state :=
  Eval vm_compute in
    match Aggregate.scan peak with
    | Ok st => st
    | Raise _ => Aggregate.init
    end.

(** A square root to six decimals. *)
Definition sqrt6 (x : Q) : Q :=
  Qmake (Z.sqrt (Qfloor (x * 1000000000000))) 1000000.

(** Two segments of one street that share an end point. *)
Definition e0 : edge :=
  mkEdge "123#0" 2 (139 # 10) 100 [(0, 0); (100, 0)].
Definition e1 : edge :=
  mkEdge "123#1" 2 (139 # 10) 50 [(100, 0); (130, 40)].

Definition net : network :=
  mkNetwork [e0; e1]
    (fun x y => ((28 + x / 75000)%Q, (47 + y / 111000)%Q)) [].

Definition row0 : Aggregate.row :=
  Aggregate.mkRow "123#0" 27 (54 # 100) 50 100 3 (8 # 10).
Definition row1 : Aggregate.row :=
  Aggregate.mkRow "123#1" 40 (80 # 100) 50 50 2 (5 # 10).

Definition congestion : list (string * Aggregate.row) :=
  Geometry.congestion_of [row0; row1].


(** A corridor whose reference is 10 km/h.  Its box has the first vertex
    of [e0] on its western border and leaves the first vertex of [e1]
    outside, to the east. *)
Definition corridor : Validation.corridor :=
  Validation.mkCorridor "Centru" (28, 28001 # 1000, 46, 48) 10.

(** [e0] at 20 km/h. *)
Definition row20 : Aggregate.row :=
  Aggregate.mkRow "123#0" 20 (40 # 100) 50 100 3 (8 # 10).

End Samples.

(** The invariant of a trajectory table at time [c]: in each trajectory the
    seconds never go back, stay in the window and are not after [c]. *)
Definition traj_inv (c : Q) (tbl : trajectories) : Prop :=
  forall vid wps,
    In (vid, wps) tbl ->
    Sorted Z.le (seconds wps)
    /\ Forall (fun wp => in_window_Z (wp_t wp) /\ (inject_Z (wp_t wp) <= c)%Q)
         wps.

(** * Theorems *)

Lemma Qle_bool_false (a b : Q) : Qle_bool a b = false -> (b < a)%Q.
Proof.
  intros H. apply Qnot_le_lt. intros Hle.
  apply Qle_bool_iff in Hle. congruence.
Qed.

Ltac qbool :=
  repeat match goal with
    | H : Qle_bool _ _ = true |- _ => apply Qle_bool_iff in H
    | H : Qle_bool _ _ = false |- _ => apply Qle_bool_false in H
    end.

Ltac split_Qle :=
  repeat match goal with
    | |- context [Qle_bool ?a ?b] => destruct (Qle_bool a b) eqn:?
    end.

Section Classifier.
Import Bands.

Lemma sr_to_color_band (r : Q) : sr_to_color r = nth (band r) colors [].
Proof.
  unfold sr_to_color, band, thresholds, Qltb, Qleb. cbn [filter].
  split_Qle; cbn; try reflexivity; exfalso; qbool; lra.
Qed.

Lemma band_lt_6 (r : Q) : (band r < 6)%nat.
Proof.
  unfold band, thresholds, Qleb. cbn [filter].
  split_Qle; cbn; try lia; exfalso; qbool; lra.
Qed.

(** C5. The classifier sends every speed ratio to one of exactly six
    bands, the bands that the ascending thresholds 0.25, 0.45, 0.60,
    0.75 and 0.90 delimit, each with a colour of its own; a ratio equal
    to a threshold is in the next, less severe band, so 0.25 is in the
    band below 0.45. *)
Theorem sr_to_color_six_bands :
  (forall r, sr_to_color r = nth (band r) colors [] /\ (band r < 6)%nat)
  /\ List.length colors = 6%nat
  /\ NoDup colors
  /\ map band [0; 30 # 100; 50 # 100; 70 # 100; 80 # 100; 1]
     = [0; 1; 2; 3; 4; 5]%nat
  /\ StronglySorted Qlt thresholds
  /\ map band thresholds = [1; 2; 3; 4; 5]%nat
  /\ sr_to_color (25 # 100) = [255; 68; 0]%Z
  /\ map sr_to_color thresholds = tl colors.
Proof.
  split; [intros r; split; [apply sr_to_color_band | apply band_lt_6] |].
  split; [reflexivity |].
  split.
  { unfold colors.
    repeat (constructor; [cbn; intuition congruence |]). constructor. }
  split; [reflexivity |].
  split.
  { unfold thresholds.
    repeat (constructor; [| repeat constructor; reflexivity]). constructor. }
  repeat split; reflexivity.
Qed.
End Classifier.

Section Validator.
Import Validation.

Lemma status_of_spec (ratio : Q) :
  (status_of ratio = GOOD <-> ratio < 15 # 10)%Q
  /\ (status_of ratio = HIGH <-> 15 # 10 <= ratio /\ ratio < 25 # 10)%Q
  /\ (status_of ratio = TOO_FAST <-> 25 # 10 <= ratio)%Q.
Proof.
  unfold status_of, Qltb.
  split_Qle; cbn; qbool; repeat split; intros; try discriminate;
    try lra; try (exfalso; lra); intuition lra.
Qed.

Lemma validate_table (ec : list (string * (Q * Q * Q))) (info : corridor) :
  (speeds_in ec info = [] -> validate ec info = Ok (None, NO_DATA))
  /\ (speeds_in ec info <> [] -> ~ (google info == 0)%Q ->
      exists ratio,
        validate ec info = Ok (Some ratio, status_of ratio)
        /\ ratio
           = (Aggregate.Qsum (speeds_in ec info)
              / inject_Z (Z.of_nat (List.length (speeds_in ec info)))
              / google info)%Q
        /\ status_of ratio <> NO_DATA)
  /\ (validate ec info = Ok (None, NO_DATA) -> speeds_in ec info = []).
Proof.
  split; [| split].
  - unfold validate. intros ->. reflexivity.
  - intros Hne Hg. unfold validate.
    destruct (speeds_in ec info) as [| s speeds] eqn:E; [congruence |].
    assert (Hn : Qeq_bool (inject_Z (Z.of_nat (List.length (s :: speeds)))) 0
                 = false).
    { apply not_true_is_false. intros H. apply Qeq_bool_iff in H.
      unfold Qeq in H. cbn in H. lia. }
    unfold py_div. rewrite Hn. cbn [bind].
    assert (Hg' : Qeq_bool (google info) 0 = false).
    { apply not_true_is_false. intros H. apply Qeq_bool_iff in H. auto. }
    rewrite Hg'. cbn [bind].
    eexists. split; [reflexivity |]. split; [reflexivity |].
    unfold status_of. repeat match goal with
      |- context [if ?b then _ else _] => destruct b end; discriminate.
  - unfold validate.
    destruct (speeds_in ec info) as [| s speeds]; [reflexivity |].
    unfold py_div.
    destruct (Qeq_bool (inject_Z (Z.of_nat (List.length (s :: speeds)))) 0);
      cbn [bind]; [discriminate |].
    destruct (Qeq_bool (google info) 0); cbn [bind]; discriminate.
Qed.

(** The table of first vertices, filtered by the box, is the table of
    rows filtered by [first_vertex_in_box]. *)
Lemma speeds_in_rows (net : network) (rows : list Aggregate.row)
  (info : corridor) :
  speeds_in (edge_coords net rows) info
  = map Aggregate.mean_speed_kmh (filter (first_vertex_in_box net info) rows).
Proof.
  unfold speeds_in, edge_coords.
  induction rows as [| r rows IH]; [reflexivity |].
  cbn [flat_map filter]. rewrite filter_app, map_app, IH. clear IH.
  unfold first_vertex_in_box at 2.
  destruct (getEdge net (Aggregate.edge_id r)) as [e |]; [| reflexivity].
  destruct (getShape e) as [| xy rest]; [reflexivity |].
  cbv zeta. cbn [filter fst snd]. unfold inside.
  destruct (bbox info) as [[[lon0 lon1] lat0] lat1].
  match goal with
  | |- context [if ?b then _ else _] => destruct b
  end; reflexivity.
Qed.

Lemma first_vertex_in_box_spec (net : network) (name : string)
  (lon0 lon1 lat0 lat1 ref : Q) (r : Aggregate.row) :
  first_vertex_in_box net (mkCorridor name (lon0, lon1, lat0, lat1) ref) r
  = true
  <-> exists e xy rest,
        getEdge net (Aggregate.edge_id r) = Some e
        /\ getShape e = xy :: rest
        /\ (lon0 <= fst (convertXY2LonLat net (fst xy) (snd xy)) <= lon1)%Q
        /\ (lat0 <= snd (convertXY2LonLat net (fst xy) (snd xy)) <= lat1)%Q.
Proof.
  unfold first_vertex_in_box. cbn [bbox]. split.
  - destruct (getEdge net (Aggregate.edge_id r)) as [e |]; [| discriminate].
    destruct (getShape e) as [| xy rest] eqn:Es; [discriminate |].
    cbv zeta. unfold Qleb. intros H.
    apply andb_prop in H. destruct H as (H & H4).
    apply andb_prop in H. destruct H as (H & H3).
    apply andb_prop in H. destruct H as (H1 & H2).
    qbool. exists e, xy, rest. repeat split; auto.
  - intros (e & xy & rest & -> & -> & (H1 & H2) & (H3 & H4)).
    cbv zeta. unfold Qleb.
    rewrite (proj2 (Qle_bool_iff _ _) H1), (proj2 (Qle_bool_iff _ _) H2),
      (proj2 (Qle_bool_iff _ _) H3), (proj2 (Qle_bool_iff _ _) H4).
    reflexivity.
Qed.

(** C8. The validator on the table of step 2, one row per edge, and a
    corridor with box [lon0, lon1] x [lat0, lat1] and reference speed
    [ref].  A row matches when the network knows its edge, the shape of
    the edge has a first vertex, and that vertex, in degrees, lies in the
    box, borders included.  With no matching row, and only then, the
    validator reports no data.  Otherwise the ratio is the mean of the mean
    speeds of the matching rows over the reference speed, and the status is
    good exactly below 1.5, needs tuning exactly from 1.5 to below 2.5, and
    under-congested from 2.5 on; a ratio of 2 needs tuning. *)
Theorem validate_verdict (net : network) (rows : list Aggregate.row)
  (name : string) (lon0 lon1 lat0 lat1 ref : Q) :
  NoDup (map Aggregate.edge_id rows) ->
  let info := mkCorridor name (lon0, lon1, lat0, lat1) ref in
  let matching := filter (first_vertex_in_box net info) rows in
  (forall r,
      In r matching
      <-> In r rows
          /\ exists e xy rest,
               getEdge net (Aggregate.edge_id r) = Some e
               /\ getShape e = xy :: rest
               /\ (lon0 <= fst (convertXY2LonLat net (fst xy) (snd xy))
                   <= lon1)%Q
               /\ (lat0 <= snd (convertXY2LonLat net (fst xy) (snd xy))
                   <= lat1)%Q)
  /\ (matching = []
      <-> validate (edge_coords net rows) info = Ok (None, NO_DATA))
  /\ (matching <> [] -> ~ (ref == 0)%Q ->
      exists ratio,
        validate (edge_coords net rows) info
        = Ok (Some ratio, status_of ratio)
        /\ ratio
           = (Aggregate.Qsum (map Aggregate.mean_speed_kmh matching)
              / inject_Z (Z.of_nat (List.length matching))
              / ref)%Q
        /\ status_of ratio <> NO_DATA
        /\ (status_of ratio = GOOD <-> ratio < 15 # 10)%Q
        /\ (status_of ratio = HIGH <-> 15 # 10 <= ratio /\ ratio < 25 # 10)%Q
        /\ (status_of ratio = TOO_FAST <-> 25 # 10 <= ratio)%Q)
  /\ status_of 2 = HIGH.
Proof.
  intros _ info matching.
  pose proof (@speeds_in_rows net rows info) as Hs. fold matching in Hs.
  destruct (@validate_table (edge_coords net rows) info) as (Hnone & Hsome & Hback).
  split; [| split; [| split; [| reflexivity]]].
  - intros r. unfold matching. rewrite filter_In.
    unfold info. rewrite first_vertex_in_box_spec. reflexivity.
  - split.
    + intros Hm. apply Hnone. rewrite Hs, Hm. reflexivity.
    + intros Hv. apply Hback in Hv. rewrite Hs in Hv.
      destruct matching; [reflexivity | discriminate].
  - intros Hm Href.
    destruct Hsome as (ratio & Hv & Hr & Hst).
    + rewrite Hs. destruct matching; [congruence | discriminate].
    + exact Href.
    + exists ratio. split; [exact Hv |]. split.
      * rewrite Hr, Hs, length_map. reflexivity.
      * split; [exact Hst | apply status_of_spec].
Qed.
End Validator.

Section Indexing.
Context {A : Type}.

Lemma py_index_nonneg (l : list A) (i : Z) :
  (0 <= i < Z.of_nat (List.length l))%Z ->
  exists a, py_index l i = Ok a /\ nth_error l (Z.to_nat i) = Some a.
Proof.
  intros Hi. unfold py_index. cbv zeta.
  assert (E1 : (i <? 0)%Z = false) by (apply Z.ltb_ge; lia).
  assert (E2 : (Z.of_nat (List.length l) <=? i)%Z = false)
    by (apply Z.leb_gt; lia).
  rewrite !E1, E2. cbn [orb].
  destruct (nth_error l (Z.to_nat i)) as [a |] eqn:E.
  - exists a. split; reflexivity.
  - apply nth_error_None in E. lia.
Qed.

Lemma py_index_neg (l : list A) (i : Z) :
  (- Z.of_nat (List.length l) <= i < 0)%Z ->
  exists a, py_index l i = Ok a.
Proof.
  intros Hi. unfold py_index. cbv zeta.
  assert (E1 : (i <? 0)%Z = true) by (apply Z.ltb_lt; lia).
  assert (E2 : (Z.of_nat (List.length l) + i <? 0)%Z = false)
    by (apply Z.ltb_ge; lia).
  assert (E3 : (Z.of_nat (List.length l) <=? Z.of_nat (List.length l) + i)%Z
               = false) by (apply Z.leb_gt; lia).
  rewrite E1, E2, E3. cbn [orb].
  destruct (nth_error l (Z.to_nat (Z.of_nat (List.length l) + i)))
    as [a |] eqn:E.
  - exists a. reflexivity.
  - apply nth_error_None in E. lia.
Qed.
End Indexing.

Section OffsetLineFacts.
Import Geometry.
Variable sqrt : Q -> Q.

Lemma direction_ok (coords : list point) (i : Z) :
  (2 <= List.length coords)%nat ->
  (0 <= i < Z.of_nat (List.length coords))%Z ->
  exists d, direction coords (Z.of_nat (List.length coords)) i = Ok d.
Proof.
  intros Hn Hi. unfold direction.
  assert (Hidx : forall a b,
             (0 <= a < Z.of_nat (List.length coords)
              \/ - Z.of_nat (List.length coords) <= a < 0)%Z ->
             (0 <= b < Z.of_nat (List.length coords)
              \/ - Z.of_nat (List.length coords) <= b < 0)%Z ->
             exists d,
               (pa <- py_index coords a ;;
                pb <- py_index coords b ;;
                Ok ((fst pa - fst pb)%Q, (snd pa - snd pb)%Q)) = Ok d).
  { intros a b Ha Hb.
    assert (Ea : exists pa, py_index coords a = Ok pa).
    { destruct Ha as [Ha | Ha];
        [destruct (@py_index_nonneg _ coords _ Ha) as (pa & E & _)
        | destruct (@py_index_neg _ coords _ Ha) as (pa & E)]; eauto. }
    assert (Eb : exists pb, py_index coords b = Ok pb).
    { destruct Hb as [Hb | Hb];
        [destruct (@py_index_nonneg _ coords _ Hb) as (pb & E & _)
        | destruct (@py_index_neg _ coords _ Hb) as (pb & E)]; eauto. }
    destruct Ea as (pa & ->), Eb as (pb & ->). cbn. eauto. }
  destruct (Z.eqb_spec i 0); [apply Hidx; lia |].
  destruct (Z.eqb_spec i (Z.of_nat (List.length coords) - 1));
    apply Hidx; lia.
Qed.

Lemma offset_vertex_ok (coords : list point) (off : Q) (n i : Z)
  (pt d : point) :
  direction coords n i = Ok d ->
  exists p, offset_vertex sqrt coords off n i pt = Ok p
            /\ ((norm sqrt d == 0)%Q -> p = pt).
Proof.
  intros Hd. unfold offset_vertex. rewrite Hd. cbn [bind].
  destruct (Qeq_bool (norm sqrt d) 0) eqn:E.
  - exists pt. split; [reflexivity | auto].
  - unfold py_div. rewrite E. cbn [bind].
    eexists. split; [reflexivity |].
    intros H. apply Qeq_bool_iff in H. congruence.
Qed.

Lemma offset_loop_ok (coords : list point) (off : Q) :
  (2 <= List.length coords)%nat ->
  forall (todo : list point) (i : Z),
    (0 <= i)%Z ->
    (i + Z.of_nat (List.length todo) = Z.of_nat (List.length coords))%Z ->
    exists r,
      offset_loop sqrt coords off (Z.of_nat (List.length coords)) i todo = Ok r
      /\ List.length r = List.length todo
      /\ forall k pt d,
          nth_error todo k = Some pt ->
          direction coords (Z.of_nat (List.length coords)) (i + Z.of_nat k)
          = Ok d ->
          (norm sqrt d == 0)%Q ->
          nth_error r k = Some pt.
Proof.
  intros Hn. induction todo as [| pt todo IH]; intros i Hi Hlen.
  - exists []. cbn. repeat split. intros [| k] ? ? H; discriminate H.
  - cbn [List.length] in Hlen. cbn [offset_loop].
    destruct (@direction_ok coords i Hn) as (d & Hd); [lia |].
    destruct (@offset_vertex_ok coords off _ _ pt d Hd) as (p & Hp & Hzero).
    rewrite Hp. cbn [bind].
    destruct (IH (i + 1)%Z) as (r & Hr & Hlr & Hk); [lia | lia |].
    rewrite Hr. cbn [bind].
    exists (p :: r). split; [reflexivity |]. split; [cbn; lia |].
    intros [| k] pt' d' Hnth Hd' Hz.
    + cbn in Hnth. injection Hnth as <-. cbn.
      replace (i + Z.of_nat 0)%Z with i in Hd' by lia.
      rewrite Hd in Hd'. injection Hd' as <-. rewrite (Hzero Hz). reflexivity.
    + cbn in Hnth. cbn [nth_error]. apply (Hk k pt' d' Hnth); [| exact Hz].
      replace (i + 1 + Z.of_nat k)%Z with (i + Z.of_nat (S k))%Z by lia.
      exact Hd'.
Qed.

Lemma offset_line_ok (coords : list point) (off : Q) :
  (2 <= List.length coords)%nat ->
  exists r,
    offset_line sqrt coords off = Ok r
    /\ List.length r = List.length coords
    /\ forall k pt d,
        nth_error coords k = Some pt ->
        direction coords (Z.of_nat (List.length coords)) (Z.of_nat k) = Ok d ->
        (norm sqrt d == 0)%Q ->
        nth_error r k = Some pt.
Proof.
  intros Hn. unfold offset_line.
  destruct (@offset_loop_ok coords off Hn coords 0%Z) as (r & Hr & Hl & Hk);
    [lia | lia |].
  exists r. repeat split; auto.
Qed.






(** C10. On a polyline of at least two points, the only ones it is given,
    the lane offset raises nothing: every index it reads is in range,
    and a vertex whose direction has length zero is emitted as it is,
    with no division; the result has as many points as the input. *)
Theorem offset_line_total (coords : list point) (offset_m : Q) :
  (2 <= List.length coords)%nat ->
  exists r,
    offset_line sqrt coords offset_m = Ok r
    /\ List.length r = List.length coords
    /\ (forall i, (i < List.length coords)%nat ->
        exists d,
          direction coords (Z.of_nat (List.length coords)) (Z.of_nat i) = Ok d)
    /\ (forall i pt d,
        nth_error coords i = Some pt ->
        direction coords (Z.of_nat (List.length coords)) (Z.of_nat i) = Ok d ->
        (norm sqrt d == 0)%Q ->
        nth_error r i = Some pt).
Proof.
  intros Hn.
  destruct (@offset_line_ok coords offset_m Hn) as (r & Hr & Hl & Hk).
  exists r. repeat split; auto.
  intros i Hi. apply direction_ok; [exact Hn | lia].
Qed.
End OffsetLineFacts.

Section Collect.
Context {A B : Type}.
Variable f : A -> result B.

Lemma collect_ok (l : list A) :
  (forall a, In a l -> exists b, f a = Ok b) ->
  exists bs, Aggregate.collect f l = Ok bs
             /\ Forall2 (fun a b => f a = Ok b) l bs.
Proof.
  induction l as [| a l IH]; intros H.
  - exists []. split; [reflexivity | constructor].
  - destruct (H a (or_introl eq_refl)) as (b & Hb).
    destruct IH as (bs & Hbs & HF); [intros; apply H; right; assumption |].
    exists (b :: bs). cbn. rewrite Hb. cbn. rewrite Hbs. cbn.
    split; [reflexivity | constructor; assumption].
Qed.
End Collect.

Section MergeFacts.
Import Geometry.
Variable sqrt : Q -> Q.
Variable net : network.
Variable congestion : list (string * Aggregate.row).

Lemma merge_step_nil (ll : list point) : merge_step [] ll = ll.
Proof. reflexivity. Qed.

Lemma merge_step_shared (a' b' : list point) (pa pb : point) :
  coincide pb pa = true ->
  merge_step (a' ++ [pa]) (pb :: b') = (a' ++ [pa]) ++ b'.
Proof.
  intros Hc. unfold merge_step.
  destruct (a' ++ [pa]) as [| x xs] eqn:E.
  - destruct a'; discriminate E.
  - rewrite <- E, last_last, Hc. reflexivity.
Qed.

Lemma merge_step_apart (a' b' : list point) (pa pb : point) :
  coincide pb pa = false ->
  merge_step (a' ++ [pa]) (pb :: b') = (a' ++ [pa]) ++ pb :: b'.
Proof.
  intros Hc. unfold merge_step.
  destruct (a' ++ [pa]) as [| x xs] eqn:E.
  - destruct a'; discriminate E.
  - rewrite <- E, last_last, Hc. reflexivity.
Qed.

(** C6. Two segments of a group in their order, the first point of the
    second within 5e-5 degrees of the last point of the first in each
    coordinate: the merged polyline has one point less than the two
    shapes together.  A group whose merged polyline has fewer than two
    points gives no feature. *)
Theorem merge_shared_endpoint :
  (forall (e1 e2 : edge) (a' b' : list point) (pa pb : point),
      (seg_num e1 <= seg_num e2)%Z ->
      lonlat net e1 = a' ++ [pa] ->
      lonlat net e2 = pb :: b' ->
      (Qabs (fst pb - fst pa) < 5 # 100000)%Q ->
      (Qabs (snd pb - snd pa) < 5 # 100000)%Q ->
      merge net (sorted_edges [e1; e2]) = lonlat net e1 ++ b'
      /\ List.length (merge net (sorted_edges [e1; e2]))
         = (List.length (lonlat net e1) + List.length (lonlat net e2) - 1)%nat)
  /\ (forall (key : group_key) (edges : list edge),
         (List.length (merge net (sorted_edges edges)) < 2)%nat ->
         group_features sqrt net congestion key edges = Ok []).
Proof.
  split.
  - intros e1 e2 a' b' pa pb Hord Ha Hb Hx Hy.
    assert (Hs : sorted_edges [e1; e2] = [e1; e2]).
    { cbn. destruct (Z.leb_spec (seg_num e1) (seg_num e2)); [reflexivity | lia]. }
    assert (Hc : coincide pb pa = true).
    { unfold coincide, Qltb, tolerance.
      apply andb_true_iff; split; apply negb_true_iff;
        apply not_true_is_false; intros H; apply Qle_bool_iff in H; lra. }
    assert (Hm : merge net [e1; e2] = lonlat net e1 ++ b').
    { unfold merge. cbn [map fold_left]. rewrite merge_step_nil, Ha, Hb.
      apply merge_step_shared, Hc. }
    rewrite Hs, Hm. split; [reflexivity |].
    rewrite Hb, length_app. cbn [List.length]. lia.
  - intros key edges Hlt. unfold group_features.
    apply Nat.ltb_lt in Hlt. rewrite Hlt. reflexivity.
Qed.


End MergeFacts.

Section DictFacts.
Context {V : Type}.
Implicit Types (d : list (string * V)) (k : string).

Lemma dict_get_update_same k dflt (f : V -> V) d :
  dict_get k (dict_update k dflt f d) = Some (f (get_or dflt k d)).
Proof.
  unfold get_or. induction d as [| [k' v] d IH]; cbn.
  - rewrite String.eqb_refl. reflexivity.
  - destruct (String.eqb k' k) eqn:E; cbn; rewrite E; [reflexivity | exact IH].
Qed.

Lemma dict_get_update_other k k0 dflt (f : V -> V) d :
  k0 <> k ->
  dict_get k0 (dict_update k dflt f d) = dict_get k0 d.
Proof.
  intros Hne. induction d as [| [k' v] d IH]; cbn.
  - destruct (String.eqb_spec k k0); [congruence | reflexivity].
  - destruct (String.eqb_spec k' k) as [-> | Hk]; cbn.
    + destruct (String.eqb_spec k k0); [congruence | reflexivity].
    + destruct (String.eqb k' k0); [reflexivity | exact IH].
Qed.

Lemma dict_get_In k d : dict_get k d <> None <-> In k (map fst d).
Proof.
  induction d as [| [k' v] d IH]; cbn.
  - split; [congruence | tauto].
  - destruct (String.eqb_spec k' k) as [-> | Hk].
    + split; [auto | discriminate].
    + rewrite IH. split; [auto | intros [? | ?]; [congruence | assumption]].
Qed.

Lemma In_dict_get k v d :
  NoDup (map fst d) -> In (k, v) d -> dict_get k d = Some v.
Proof.
  induction d as [| [k' v'] d IH]; cbn; intros Hnd Hin; [tauto |].
  inversion Hnd as [| ? ? Hnotin Hnd']; subst.
  destruct Hin as [Heq | Hin].
  - injection Heq as -> ->. rewrite String.eqb_refl. reflexivity.
  - destruct (String.eqb_spec k' k) as [-> | Hk].
    + exfalso. apply Hnotin. apply (in_map fst) in Hin. exact Hin.
    + auto.
Qed.

Lemma dict_get_Some_In k v d : dict_get k d = Some v -> In (k, v) d.
Proof.
  induction d as [| [k' v'] d IH]; cbn; [discriminate |].
  destruct (String.eqb_spec k' k) as [-> | Hk].
  - intros [= ->]. left. reflexivity.
  - intros H. right. auto.
Qed.

Lemma dict_update_keys k dflt (f : V -> V) d :
  map fst (dict_update k dflt f d)
  = if existsb (String.eqb k) (map fst d) then map fst d
    else map fst d ++ [k].
Proof.
  induction d as [| [k' v] d IH]; cbn; [reflexivity |].
  rewrite (String.eqb_sym k k').
  destruct (String.eqb k' k); cbn; [reflexivity |].
  rewrite IH. destruct (existsb (String.eqb k) (map fst d)); reflexivity.
Qed.

Lemma dict_update_NoDup k dflt (f : V -> V) d :
  NoDup (map fst d) -> NoDup (map fst (dict_update k dflt f d)).
Proof.
  intros Hnd. rewrite dict_update_keys.
  destruct (existsb (String.eqb k) (map fst d)) eqn:E; [exact Hnd |].
  apply NoDup_app; [exact Hnd | repeat constructor; cbn; tauto |].
  intros x Hx [<- | []].
  assert (existsb (String.eqb k) (map fst d) = true); [| congruence].
  apply existsb_exists. exists k. split; [exact Hx | apply String.eqb_refl].
Qed.
End DictFacts.

Section AggregateFacts.
Import Aggregate.

Let tables : Type := (list (string * Q) * list (string * Z))%type.

Let tables_of (st : state) : tables := (edge_speed_sum st, edge_speed_count st).

Let add_sample (t : tables) (es : string * Q) : tables :=
  (dict_update (fst es) 0%Q (fun v => (v + snd es)%Q) (fst t),
   dict_update (fst es) 0%Z (fun c => (c + 1)%Z) (snd t)).

Lemma step_tables (st st1 : state) (line : string) (c : ctl) :
  step st line = Ok (c, st1) ->
  tables_of st1
  = fold_left add_sample
      (if Lex.contains "<timestep" line then []
       else match sample_of st line with
            | Some (Ok es) => [es]
            | _ => []
            end)
      (tables_of st).
Proof.
  unfold step. destruct (Lex.contains "<timestep" line).
  - destruct (Lex.RE_TIME line) as [v |].
    + destruct (Lex.py_float v); cbn; [| discriminate].
      intros [= _ <-]. reflexivity.
    + intros [= _ <-]. reflexivity.
  - destruct (sample_of st line) as [[es | e] |]; cbn.
    + intros [= _ <-]. reflexivity.
    + discriminate.
    + intros [= _ <-]. reflexivity.
Qed.

Lemma step_never_breaks (st st1 : state) (line : string) (c : ctl) :
  step st line = Ok (c, st1) -> c = Continue.
Proof.
  unfold step. destruct (Lex.contains "<timestep" line).
  - destruct (Lex.RE_TIME line) as [v |].
    + destruct (Lex.py_float v); cbn; [| discriminate]. intros [= <- _]. reflexivity.
    + intros [= <- _]. reflexivity.
  - destruct (sample_of st line) as [[es | e] |]; cbn;
      try discriminate; intros [= <- _]; reflexivity.
Qed.

Lemma run_tables (lines : list string) :
  forall st st',
    run step st lines = Ok st' ->
    tables_of st' = fold_left add_sample (folded st lines) (tables_of st).
Proof.
  induction lines as [| l lines IH]; intros st st' H; cbn in H.
  - injection H as <-. reflexivity.
  - cbn [folded]. destruct (step st l) as [[c st1] | e] eqn:E; [| discriminate].
    rewrite (step_never_breaks _ _ E) in H.
    rewrite fold_left_app, <- (step_tables _ _ E). apply IH, H.
Qed.

Lemma fold_count (log : list (string * Q)) (eid : string) :
  forall t : tables,
    NoDup (map fst (snd t)) ->
    let t' := fold_left add_sample log t in
    NoDup (map fst (snd t'))
    /\ dict_get eid (snd t')
       = match dict_get eid (snd t), samples_for eid log with
         | None, [] => None
         | None, l => Some (Z.of_nat (List.length l))
         | Some c, l => Some (c + Z.of_nat (List.length l))%Z
         end
    /\ (get_or 0 eid (fst t')
        == get_or 0 eid (fst t) + Qsum (samples_for eid log))%Q.
Proof.
  induction log as [| [k s] log IH]; intros t Hnd; cbn [fold_left].
  - cbn. split; [exact Hnd |]. split.
    + destruct (dict_get eid (snd t)); [f_equal; lia | reflexivity].
    + unfold Qsum. cbn. ring.
  - destruct (IH (add_sample t (k, s))) as (Hnd' & Hc & Hs).
    { cbn. apply dict_update_NoDup, Hnd. }
    split; [exact Hnd' |].
    cbv zeta in Hc, Hs. cbv zeta.
    unfold samples_for in *. cbn [filter fst].
    destruct (String.eqb_spec k eid) as [-> | Hk].
    + split.
      * rewrite Hc. cbn [add_sample snd fst]. rewrite dict_get_update_same.
        unfold get_or. cbn [map List.length].
        destruct (dict_get eid (snd t)) as [c |];
          destruct (map snd (filter _ log)); cbv beta iota; f_equal;
          cbn [List.length]; lia.
      * rewrite Hs. cbn [add_sample snd fst].
        unfold get_or at 1. rewrite dict_get_update_same.
        unfold Qsum. cbn. ring.
    + split.
      * rewrite Hc. cbn [add_sample snd fst].
        rewrite dict_get_update_other by congruence. reflexivity.
      * rewrite Hs. cbn [add_sample snd fst].
        unfold get_or at 1. rewrite dict_get_update_other by congruence.
        fold (get_or 0 eid (fst t)). reflexivity.
Qed.

(** C4. After the scan, an edge is in the table of counts exactly when a
    sample was folded for it; its count is the number of those samples,
    and its mean speed is the sum of their speeds in km/h over their
    number.  The division cannot fail. *)
Theorem mean_speed_is_mean (trace : list string) (st : state) :
  scan trace = Ok st ->
  let log := folded init trace in
  forall eid,
    (samples_for eid log = [] -> ~ In eid (map fst (edge_speed_count st)))
    /\ (forall count,
        In (eid, count) (edge_speed_count st) ->
        samples_for eid log <> []
        /\ count = Z.of_nat (List.length (samples_for eid log))
        /\ exists m,
            mean_speed st eid count = Ok m
            /\ (m == Qsum (samples_for eid log)
                     / inject_Z (Z.of_nat (List.length (samples_for eid log))))%Q).
Proof.
  intros Hscan log eid. unfold scan in Hscan.
  pose proof (run_tables _ _ Hscan) as Ht. fold log in Ht.
  destruct (@fold_count log eid (tables_of init)) as (Hnd & Hc & Hs);
    [constructor |].
  cbv zeta in Hc, Hs. rewrite <- Ht in Hnd, Hc, Hs.
  cbn [tables_of init snd fst dict_get edge_speed_sum edge_speed_count]
    in Hnd, Hc, Hs.
  split.
  - intros Hnil Hin. apply dict_get_In in Hin. rewrite Hc, Hnil in Hin.
    congruence.
  - intros count Hin. apply In_dict_get in Hin; [| exact Hnd].
    rewrite Hc in Hin.
    destruct (samples_for eid log) as [| s l] eqn:E; [discriminate |].
    injection Hin as <-. split; [discriminate |]. split; [reflexivity |].
    unfold mean_speed, py_div.
    match goal with
    | |- context [Qeq_bool ?x 0] => assert (Hz : Qeq_bool x 0 = false)
    end.
    { apply not_true_is_false. intros H. apply Qeq_bool_iff in H.
      unfold Qeq in H. cbn in H. lia. }
    rewrite Hz. eexists. split; [reflexivity |].
    unfold sum_of. change (match dict_get eid (edge_speed_sum st) with
                           | Some v => v | None => 0 end)
      with (get_or 0 eid (edge_speed_sum st)).
    rewrite Hs. unfold get_or. cbn [dict_get]. 
    apply Qdiv_comp; [ring | reflexivity].
Qed.
End AggregateFacts.

(** ** Scans of the trajectory window *)

Lemma py_int_floor (c : Q) : (0 <= c)%Q -> py_int c = Qfloor c.
Proof.
intros Hc. destruct c as [n d]. unfold py_int, Qfloor. cbn.
apply Z.quot_div_nonneg; [| lia].
unfold Qle in Hc. cbn in Hc. lia.
Qed.

Lemma py_int_in_window (c : Q) :
  (inject_Z (MORNING_START - 60) <= c)%Q ->
  (c <= inject_Z (MORNING_END + 60))%Q ->
  in_window_Z (py_int c) /\ (inject_Z (py_int c) <= c)%Q
  /\ forall w : Z, (inject_Z w <= c)%Q -> (w <= py_int c)%Z.
Proof.
intros Hlo Hhi.
assert (H0 : (0 <= c)%Q).
{ eapply Qle_trans; [| exact Hlo]. unfold Qle. cbn. lia. }
rewrite (py_int_floor H0). unfold in_window_Z.
repeat split.
- rewrite <- (Qfloor_Z (MORNING_START - 60)). apply Qfloor_resp_le, Hlo.
- rewrite <- (Qfloor_Z (MORNING_END + 60)). apply Qfloor_resp_le, Hhi.
- apply Qfloor_le.
- intros w Hw. rewrite <- (Qfloor_Z w). apply Qfloor_resp_le, Hw.
Qed.

Lemma sorted_all_ge (t : Q) (ts : list Q) :
  Sorted Qle (t :: ts) -> Forall (Qle t) ts.
Proof.
intros H. apply Sorted_StronglySorted in H.
- inversion H; assumption.
- intros x y z. apply Qle_trans.
Qed.

Lemma sorted_snoc (l : list Z) (x : Z) :
  Sorted Z.le l -> Forall (fun y => (y <= x)%Z) l -> Sorted Z.le (l ++ [x]).
Proof.
induction l as [| a l IH]; intros Hs Hall; cbn.
- repeat constructor.
- inversion Hs as [| ? ? Hs' Hhd]; subst. inversion Hall as [| ? ? Ha Hall']; subst.
  constructor; [apply IH; assumption |].
  destruct l; cbn; constructor; [exact Ha | inversion Hhd; assumption].
Qed.

Lemma traj_inv_later (c c' : Q) (tbl : trajectories) :
  (c <= c')%Q -> traj_inv c tbl -> traj_inv c' tbl.
Proof.
intros Hc H vid wps Hin. destruct (H vid wps Hin) as (Hs & Hall).
split; [exact Hs |].
eapply Forall_impl; [| exact Hall]. cbn. intros wp (Hw & Hle).
split; [exact Hw | eapply Qle_trans; eassumption].
Qed.

Lemma add_waypoint_In (vid : string) (wp : waypoint) (tbl : trajectories)
  (k : string) (wps : list waypoint) :
  In (k, wps) (add_waypoint vid wp tbl) ->
  In (k, wps) tbl
  \/ (k = vid /\ wps = [wp])
  \/ (k = vid /\ exists old, In (vid, old) tbl /\ wps = old ++ [wp]).
Proof.
unfold add_waypoint. induction tbl as [| [k' v] tbl IH]; cbn.
- intros [[= <- <-] | []]. right. left. split; reflexivity.
- destruct (String.eqb_spec k' vid) as [-> | Hne]; cbn.
  + intros [[= <- <-] | Hin].
    * right. right. split; [reflexivity |]. exists v. split; [left |]; reflexivity.
    * left. right. exact Hin.
  + intros [[= <- <-] | Hin].
    * left. left. reflexivity.
    * destruct (IH Hin) as [H | [H | (Hk & old & Hold & Hw)]].
      -- left. right. exact H.
      -- right. left. exact H.
      -- right. right. split; [exact Hk |]. exists old. split; [right |]; assumption.
Qed.

Lemma traj_inv_add (c : Q) (vid : string) (wp : waypoint) (tbl : trajectories) :
  (inject_Z (MORNING_START - 60) <= c)%Q ->
  (c <= inject_Z (MORNING_END + 60))%Q ->
  wp_t wp = py_int c ->
  traj_inv c tbl -> traj_inv c (add_waypoint vid wp tbl).
Proof.
intros Hlo Hhi Ht H k wps Hin.
destruct (py_int_in_window Hlo Hhi) as (Hw & Hle & Hmax).
assert (Hwp : in_window_Z (wp_t wp) /\ (inject_Z (wp_t wp) <= c)%Q)
  by (rewrite Ht; split; assumption).
destruct (add_waypoint_In _ _ _ _ _ Hin) as [Hold | [(_ & ->) | (_ & old & Hold & ->)]].
- apply (H k wps Hold).
- split; [repeat constructor | constructor; [exact Hwp | constructor]].
- destruct (H vid old Hold) as (Hs & Hall). split.
  + unfold seconds. rewrite map_app. cbn [map]. apply sorted_snoc; [exact Hs |].
    apply Forall_map. eapply Forall_impl; [| exact Hall]. cbn.
    intros w (_ & Hwc). rewrite Ht. apply Hmax, Hwc.
  + apply Forall_app. split; [exact Hall | constructor; [exact Hwp | constructor]].
Qed.

Section Scanner.
Variable S : Type.
Variable step : S -> string -> result (ctl * S).
Variable out : S -> trajectories.
Variable time : S -> Q.
Variables good quiet : S -> Prop.
Variable stops : Q -> bool.

Let lo : Q := inject_Z (MORNING_START - 60).
Let hi : Q := inject_Z (MORNING_END + 60).

Hypothesis step_time :
  forall st l t,
    line_time l = Some (Ok t) ->
    exists st',
      step st l = Ok (if stops t then Break else Continue, st')
      /\ out st' = out st /\ time st' = t /\ good st'
      /\ ((hi < t)%Q -> quiet st').
Hypothesis stops_past : forall t, stops t = true -> (hi < t)%Q.
Hypothesis step_quiet :
  forall st l, line_time l = None -> quiet st -> step st l = Ok (Continue, st).
Hypothesis step_sample :
  forall st l c st',
    line_time l = None -> good st -> step st l = Ok (c, st') ->
    c = Continue /\ good st' /\ time st' = time st
    /\ (out st' = out st
        \/ exists vid wp,
            out st' = add_waypoint vid wp (out st)
            /\ wp_t wp = py_int (time st)
            /\ (lo <= time st)%Q /\ (time st <= hi)%Q).

Lemma times_cons (l : string) (rest : list string) (ts : list Q) :
  timestep_times (l :: rest) = Some ts ->
  (line_time l = None /\ timestep_times rest = Some ts)
  \/ exists t ts', line_time l = Some (Ok t)
                   /\ timestep_times rest = Some ts' /\ ts = t :: ts'.
Proof.
cbn. destruct (line_time l) as [[t | e] |].
- destruct (timestep_times rest) as [ts' |]; [| discriminate].
  intros [= <-]. right. exists t, ts'. repeat split.
- discriminate.
- intros H. left. split; [reflexivity | exact H].
Qed.

(** Past the window the full scan changes no trajectory and raises
    nothing. *)
Lemma quiet_tail (lines : list string) :
  forall ts st,
    timestep_times lines = Some ts ->
    Forall (fun t => (hi < t)%Q) ts ->
    quiet st ->
    exists st', run (no_break step) st lines = Ok st' /\ out st' = out st.
Proof.
induction lines as [| l lines IH]; intros ts st Hts Hall Hq.
- exists st. split; reflexivity.
- cbn [run]. unfold no_break at 1.
  destruct (@times_cons l lines ts Hts) as [(Hl & Hts') | (t & ts' & Hl & Hts' & ->)].
  + rewrite (@step_quiet st l Hl Hq). cbn. apply (IH ts); assumption.
  + destruct (@step_time st l t Hl) as (st1 & -> & Hout & _ & _ & Hquiet).
    inversion Hall as [| ? ? Ht Hall']; subst. cbn.
    destruct (IH ts' st1 Hts' Hall' (Hquiet Ht)) as (st' & Hrun & Hout').
    exists st'. split; [exact Hrun | congruence].
Qed.

(** The scan that stops early and the scan of the whole file give the same
    table. *)
Lemma early_is_full (lines : list string) :
  forall ts st,
    timestep_times lines = Some ts ->
    Sorted Qle ts ->
    good st ->
    rmap out (run step st lines) = rmap out (run (no_break step) st lines).
Proof.
induction lines as [| l lines IH]; intros ts st Hts Hs Hg.
- reflexivity.
- cbn [run]. unfold no_break at 1.
  destruct (@times_cons l lines ts Hts) as [(Hl & Hts') | (t & ts' & Hl & Hts' & ->)].
  + destruct (step st l) as [[c st1] | e] eqn:E; [| reflexivity].
    destruct (@step_sample st l c st1 Hl Hg E) as (-> & Hg1 & _). cbn.
    apply (IH ts); assumption.
  + destruct (@step_time st l t Hl) as (st1 & -> & Hout & _ & Hg1 & Hquiet).
    cbn. destruct (stops t) eqn:Estop.
    * apply stops_past in Estop.
      destruct (@quiet_tail lines ts' st1 Hts') as (st' & -> & Hout');
        [| exact (Hquiet Estop) | cbn; congruence].
      eapply Forall_impl; [| exact (sorted_all_ge Hs)].
      cbn. intros x Hx. eapply Qlt_le_trans; eassumption.
    * apply (IH ts'); [exact Hts' | | exact Hg1].
      inversion Hs; assumption.
Qed.

(** The table keeps its invariant along the scan. *)
Lemma scan_keeps_inv (lines : list string) :
  forall ts st st',
    timestep_times lines = Some ts ->
    Sorted Qle (time st :: ts) ->
    good st ->
    traj_inv (time st) (out st) ->
    run step st lines = Ok st' ->
    traj_inv (time st') (out st').
Proof.
induction lines as [| l lines IH]; intros ts st st' Hts Hs Hg Hinv Hrun.
- cbn in Hrun. injection Hrun as <-. exact Hinv.
- cbn [run] in Hrun.
  destruct (@times_cons l lines ts Hts) as [(Hl & Hts') | (t & ts' & Hl & Hts' & ->)].
  + destruct (step st l) as [[c st1] | e] eqn:E; [| discriminate].
    destruct (@step_sample st l c st1 Hl Hg E) as (-> & Hg1 & Ht1 & Hout).
    apply (IH ts st1 st' Hts'); [rewrite Ht1; exact Hs | exact Hg1 | | exact Hrun].
    rewrite Ht1. destruct Hout as [-> | (vid & wp & -> & Hwp & Hlo & Hhi)].
    * exact Hinv.
    * apply traj_inv_add; assumption.
  + destruct (@step_time st l t Hl) as (st1 & E & Hout & Ht1 & Hg1 & _).
    rewrite E in Hrun.
    assert (Hinv1 : traj_inv (time st1) (out st1)).
    { rewrite Hout, Ht1. apply (traj_inv_later (c := time st)); [| exact Hinv].
      inversion Hs as [| ? ? _ Hhd]; subst. inversion Hhd; assumption. }
    destruct (stops t).
    * injection Hrun as <-. exact Hinv1.
    * apply (IH ts' st1 st' Hts'); [rewrite Ht1; inversion Hs; assumption
                                  | exact Hg1 | exact Hinv1 | exact Hrun].
Qed.
End Scanner.

Lemma read_digits_nonneg (s : string) :
  forall acc n, (0 <= acc)%Z -> Lex.read_digits acc s = Some n -> (0 <= n)%Z.
Proof.
induction s as [| c s IH]; intros acc n Hacc; cbn [Lex.read_digits].
- intros [= <-]. exact Hacc.
- destruct (Lex.is_digit c) eqn:E; [| discriminate].
  apply IH. unfold Lex.is_digit, Lex.in_range in E.
  apply andb_true_iff in E. destruct E as (E & _). apply N.leb_le in E.
  unfold Lex.digit_val. lia.
Qed.

Lemma py_float_nonneg (s : string) (t : Q) :
  Lex.py_float s = Ok t -> (0 <= t)%Q.
Proof.
unfold Lex.py_float. destruct (Lex.span Lex.is_digit s) as [ip rest].
destruct rest as [| c fp].
- destruct ip; [discriminate |].
  destruct (Lex.read_digits 0 (String a ip)) as [n |] eqn:E; [| discriminate].
  intros [= <-]. apply read_digits_nonneg in E; [| lia].
  unfold Qle. cbn. lia.
- destruct (Ascii.eqb c "."); [| discriminate].
  destruct (Lex.read_digits 0 (ip ++ fp)) as [n |] eqn:E; [| discriminate].
  destruct (String.length ip + String.length fp =? 0)%nat; [discriminate |].
  intros [= <-]. apply read_digits_nonneg in E; [| lia].
  unfold Qle. cbn. lia.
Qed.

Lemma line_time_nonneg (l : string) (t : Q) :
  line_time l = Some (Ok t) -> (0 <= t)%Q.
Proof.
unfold line_time. destruct (Lex.contains "<timestep" l); [| discriminate].
destruct (Lex.RE_TIME l) as [v |]; [| discriminate].
intros [= H]. apply (py_float_nonneg _ H).
Qed.

Lemma timestep_times_nonneg (trace : list string) :
  forall ts, timestep_times trace = Some ts -> Forall (Qle 0) ts.
Proof.
induction trace as [| l trace IH]; cbn; intros ts.
- intros [= <-]. constructor.
- destruct (line_time l) as [[t | e] |] eqn:E; [| discriminate | apply IH].
  destruct (timestep_times trace) as [ts' |]; [| discriminate].
  intros [= <-]. constructor; [apply (line_time_nonneg _ E) | apply IH; reflexivity].
Qed.

Lemma sorted_from_start (ts : list Q) :
  Forall (Qle 0) ts -> Sorted Qle ts -> Sorted Qle ((-1)%Q :: ts).
Proof.
intros Hall Hs. constructor; [exact Hs |].
destruct ts as [| t ts]; constructor.
inversion Hall as [| ? ? Ht _]; subst.
eapply Qle_trans; [| exact Ht]. unfold Qle. cbn. lia.
Qed.

Lemma parse_waypoint_time (digits : nat) (c : Q) (line vid : string)
  (wp : waypoint) :
  parse_waypoint digits c line = Some (Ok (vid, wp)) -> wp_t wp = py_int c.
Proof.
unfold parse_waypoint.
destruct (Lex.RE_VID line); [| discriminate].
destruct (Lex.RE_X line) as [xs |]; [| discriminate].
destruct (Lex.RE_Y line) as [ys |]; [| discriminate].
destruct (Lex.RE_SPEED line) as [ss |]; [| discriminate].
destruct (Lex.py_float xs); [| discriminate].
destruct (Lex.py_float ys); [| discriminate].
destruct (Lex.py_float ss); [| discriminate].
cbn. intros [= _ <-]. reflexivity.
Qed.

Lemma Qltb_lt (a b : Q) : Qltb a b = true -> (a < b)%Q.
Proof.
unfold Qltb. intros H. apply negb_true_iff in H. apply Qle_bool_false, H.
Qed.

Lemma Qltb_false (a b : Q) : (a < b)%Q -> Qleb b a = false.
Proof.
intros H. unfold Qleb. apply not_true_is_false. intros Hle.
apply Qle_bool_iff in Hle. apply (Qlt_not_le _ _ H Hle).
Qed.

(** The line left the state as it was. *)
Ltac same_state Hg :=
  split; [reflexivity | split; [exact Hg | split; [reflexivity | left; reflexivity]]].

Section MakeDeckglScan.
Import MakeDeckgl.

Let good (st : state) : Prop :=
  in_window st = true ->
  (window_lo <= cur_time st)%Q /\ (cur_time st <= window_hi)%Q.
Let quiet (st : state) : Prop := in_window st = false.
Let stops (t : Q) : bool := Qltb window_hi t.

Lemma md_bad_time st l e : line_time l = Some (Raise e) -> step st l = Raise e.
Proof.
unfold line_time, step. destruct (Lex.contains "<timestep" l); [| discriminate].
destruct (Lex.RE_TIME l) as [v |]; [| discriminate].
intros [= ->]. reflexivity.
Qed.

Lemma md_time st l t :
  line_time l = Some (Ok t) ->
  exists st',
    step st l = Ok (if stops t then Break else Continue, st')
    /\ vehicles st' = vehicles st /\ cur_time st' = t /\ good st'
    /\ ((window_hi < t)%Q -> quiet st').
Proof.
unfold line_time, step. destruct (Lex.contains "<timestep" l); [| discriminate].
destruct (Lex.RE_TIME l) as [v |]; [| discriminate].
intros [= ->]. cbn [bind]. eexists. split.
- unfold stops. destruct (Qltb window_hi t); reflexivity.
- split; [reflexivity |]. split; [reflexivity |]. split.
  + unfold good. cbn. intros H. apply andb_true_iff in H.
    destruct H as (H1 & H2). split; apply Qle_bool_iff; assumption.
  + intros Hlt. unfold quiet. cbn. rewrite (Qltb_false Hlt).
    apply andb_false_r.
Qed.

Lemma md_quiet st l :
  line_time l = None -> quiet st -> step st l = Ok (Continue, st).
Proof.
unfold line_time, step, quiet. intros Hl ->.
destruct (Lex.contains "<timestep" l); [| reflexivity].
destruct (Lex.RE_TIME l); [discriminate | reflexivity].
Qed.

Lemma md_sample st l c st' :
  line_time l = None -> good st -> step st l = Ok (c, st') ->
  c = Continue /\ good st' /\ cur_time st' = cur_time st
  /\ (vehicles st' = vehicles st
      \/ exists vid wp,
          vehicles st' = add_waypoint vid wp (vehicles st)
          /\ wp_t wp = py_int (cur_time st)
          /\ (window_lo <= cur_time st)%Q /\ (cur_time st <= window_hi)%Q).
Proof.
unfold line_time, step.
destruct (Lex.contains "<timestep" l).
- destruct (Lex.RE_TIME l); [discriminate |].
  intros _ Hg [= <- <-]. same_state Hg.
- intros _ Hg. destruct (in_window st) eqn:Ew; cbn [andb].
  + destruct (Lex.contains "<vehicle" l).
    * destruct (parse_waypoint 5 (cur_time st) l) as [[[vid wp] | e] |] eqn:Ep;
        cbn [bind fst snd].
      -- intros [= <- <-]. cbn [vehicles cur_time in_window].
         split; [reflexivity |]. split; [intros _; apply Hg, Ew |].
         split; [reflexivity |]. right. exists vid, wp. split; [reflexivity |].
         split; [apply (parse_waypoint_time _ _ _ Ep) | apply Hg, Ew].
      -- discriminate.
      -- intros [= <- <-]. same_state Hg.
    * intros [= <- <-]. same_state Hg.
  + intros [= <- <-]. same_state Hg.
Qed.

Lemma md_stops_past t : stops t = true -> (window_hi < t)%Q.
Proof. apply Qltb_lt. Qed.

Lemma md_early_is_full (trace : list string) :
  monotone trace -> scan trace = scan_full trace.
Proof.
intros (ts & Hts & Hs). unfold scan, scan_full.
apply (@early_is_full state step vehicles cur_time good quiet stops
         md_time md_stops_past md_quiet md_sample trace ts init Hts Hs).
unfold good. cbn. discriminate.
Qed.

Lemma md_scan_inv (trace : list string) (tbl : trajectories) :
  monotone trace -> scan trace = Ok tbl -> exists c, traj_inv c tbl.
Proof.
intros (ts & Hts & Hs). unfold scan.
destruct (run step init trace) as [st |] eqn:E; [| discriminate].
cbn. intros [= <-]. exists (cur_time st).
apply (@scan_keeps_inv state step vehicles cur_time good quiet stops
         md_time md_sample trace ts init st Hts).
- apply sorted_from_start; [apply (timestep_times_nonneg _ Hts) | exact Hs].
- unfold good. cbn. discriminate.
- intros vid wps [].
- exact E.
Qed.
End MakeDeckglScan.

Section Step4Scan.
Import Step4.

Let good (st : state) : Prop := True.
Let quiet (st : state) : Prop := (window_hi < cur_time st)%Q.
Let stops (t : Q) : bool := Qltb stop_after t.

Lemma s4_time st l t :
  line_time l = Some (Ok t) ->
  exists st',
    step st l = Ok (if stops t then Break else Continue, st')
    /\ vehicles st' = vehicles st /\ cur_time st' = t /\ good st'
    /\ ((window_hi < t)%Q -> quiet st').
Proof.
unfold line_time, step. destruct (Lex.contains "<timestep" l); [| discriminate].
destruct (Lex.RE_TIME l) as [v |]; [| discriminate].
intros [= ->]. cbn [bind]. eexists. split.
- unfold stops. destruct (Qltb stop_after t); reflexivity.
- split; [reflexivity |]. split; [reflexivity |]. split; [exact I |].
  intros Hlt. exact Hlt.
Qed.

Lemma s4_stops_past t : stops t = true -> (window_hi < t)%Q.
Proof.
intros H. apply Qltb_lt in H. eapply Qlt_trans; [| exact H].
unfold Qlt. cbn. lia.
Qed.

Lemma s4_quiet st l :
  line_time l = None -> quiet st -> step st l = Ok (Continue, st).
Proof.
unfold line_time, step, quiet. intros Hl Hq.
destruct (Lex.contains "<timestep" l).
- destruct (Lex.RE_TIME l); [discriminate | reflexivity].
- rewrite (Qltb_false Hq), andb_false_r. reflexivity.
Qed.

Lemma s4_sample st l c st' :
  line_time l = None -> good st -> step st l = Ok (c, st') ->
  c = Continue /\ good st' /\ cur_time st' = cur_time st
  /\ (vehicles st' = vehicles st
      \/ exists vid wp,
          vehicles st' = add_waypoint vid wp (vehicles st)
          /\ wp_t wp = py_int (cur_time st)
          /\ (window_lo <= cur_time st)%Q /\ (cur_time st <= window_hi)%Q).
Proof.
unfold line_time, step.
destruct (Lex.contains "<timestep" l).
- destruct (Lex.RE_TIME l); [discriminate |].
  intros _ Hg [= <- <-]. same_state Hg.
- intros _ Hg.
  destruct (Qleb window_lo (cur_time st)) eqn:Elo; cbn [andb];
    [| intros [= <- <-]; same_state Hg].
  destruct (Qleb (cur_time st) window_hi) eqn:Ehi; cbn [andb];
    [| intros [= <- <-]; same_state Hg].
  destruct (Lex.contains "<vehicle" l); [| intros [= <- <-]; same_state Hg].
  destruct (parse_waypoint 6 (cur_time st) l) as [[[vid wp] | e] |] eqn:Ep;
    cbn [bind fst snd].
  + intros [= <- <-]. cbn [vehicles cur_time].
    split; [reflexivity |]. split; [exact I |]. split; [reflexivity |].
    right. exists vid, wp. split; [reflexivity |].
    split; [apply (parse_waypoint_time _ _ _ Ep) |].
    split; apply Qle_bool_iff; assumption.
  + discriminate.
  + intros [= <- <-]. same_state Hg.
Qed.

Lemma s4_early_is_full (trace : list string) :
  monotone trace -> scan trace = scan_full trace.
Proof.
intros (ts & Hts & Hs). unfold scan, scan_full.
apply (@early_is_full state step vehicles cur_time good quiet stops
         s4_time s4_stops_past s4_quiet s4_sample trace ts init Hts Hs).
exact I.
Qed.

Lemma s4_scan_inv (trace : list string) (tbl : trajectories) :
  monotone trace -> scan trace = Ok tbl -> exists c, traj_inv c tbl.
Proof.
intros (ts & Hts & Hs). unfold scan.
destruct (run step init trace) as [st |] eqn:E; [| discriminate].
cbn. intros [= <-]. exists (cur_time st).
apply (@scan_keeps_inv state step vehicles cur_time good quiet stops
         s4_time s4_sample trace ts init st Hts).
- apply sorted_from_start; [apply (timestep_times_nonneg _ Hts) | exact Hs].
- exact I.
- intros vid wps [].
- exact E.
Qed.
End Step4Scan.

(** C1. On a trace whose timestep times never go back, the scan that stops
    at the first timestep after the end of the window and its tolerance
    gives the table of the scan that reads every line, in make_deckgl.py
    and in step 4 of postprocess.py alike. *)
Theorem early_stop_is_full_scan (trace : list string) :
  monotone trace ->
  MakeDeckgl.scan trace = MakeDeckgl.scan_full trace
  /\ Step4.scan trace = Step4.scan_full trace.
Proof.
intros H. split; [apply md_early_is_full | apply s4_early_is_full]; exact H.
Qed.

Ltac sorted_times :=
  repeat (first [ apply Sorted_nil | apply Sorted_cons
                | apply HdRel_nil | apply HdRel_cons ]);
  apply Qle_bool_iff; vm_compute; reflexivity.

Lemma morning_monotone : monotone Samples.morning.
Proof.
eexists. split; [vm_compute; reflexivity | sorted_times].
Defined.

Lemma half_second_monotone : monotone Samples.half_second_trace.
Proof.
eexists. split; [vm_compute; reflexivity | sorted_times].
Defined.

Lemma early_stop_is_full_scan_witness :
  monotone Samples.morning
  /\ MakeDeckgl.scan Samples.morning = MakeDeckgl.scan_full Samples.morning
  /\ Step4.scan Samples.morning = Step4.scan_full Samples.morning.
Proof.
split; [exact morning_monotone |].
apply (@early_stop_is_full_scan Samples.morning morning_monotone).
Defined.

(** ** The finalisation of make_deckgl.py *)

Section SortedReverseFacts.
Context {A : Type}.
Variable key : A -> nat.

Lemma insert_desc_In (x a : A) (l : list A) :
  In x (MakeDeckgl.insert_desc key a l) -> x = a \/ In x l.
Proof.
induction l as [| y l IH]; cbn [MakeDeckgl.insert_desc].
- intros [<- | []]. left. reflexivity.
- destruct (key a <? key y)%nat; cbn [In].
  + intros [<- | H]; [right; left; reflexivity |].
    destruct (IH H) as [-> | H']; [left | right; right]; auto.
  + intros [<- | H]; [left; reflexivity | right; exact H].
Qed.

Lemma sorted_reverse_In (x : A) (l : list A) :
  In x (MakeDeckgl.sorted_reverse key l) -> In x l.
Proof.
unfold MakeDeckgl.sorted_reverse. induction l as [| a l IH]; cbn; [auto |].
intros H. apply insert_desc_In in H. destruct H as [-> | H]; [left | right]; auto.
Qed.
End SortedReverseFacts.

Lemma firstn_In {A : Type} (n : nat) (x : A) (l : list A) :
  In x (firstn n l) -> In x l.
Proof.
intros H. rewrite <- (firstn_skipn n l). apply in_or_app. left. exact H.
Qed.

(** What the finalisation keeps was in the table, with at least
    [MIN_WAYPOINTS] waypoints. *)
Lemma finalize_In (tbl : trajectories) (vid : string) (wps : list waypoint) :
  In (vid, wps) (MakeDeckgl.finalize tbl) ->
  In (vid, wps) tbl /\ (MakeDeckgl.MIN_WAYPOINTS <= List.length wps)%nat.
Proof.
unfold MakeDeckgl.finalize.
set (valid := filter _ tbl).
assert (Hvalid : forall v w, In (v, w) valid ->
          In (v, w) tbl /\ (MakeDeckgl.MIN_WAYPOINTS <= List.length w)%nat).
{ intros v w H. apply filter_In in H. destruct H as (H & Hlen).
  split; [exact H | apply Nat.leb_le, Hlen]. }
destruct (MakeDeckgl.MAX_VEHICLES <? List.length valid)%nat.
- intros H. apply in_map_iff in H. destruct H as (v & [= <- <-] & H).
  apply firstn_In, sorted_reverse_In in H.
  apply dict_get_In in H. unfold MakeDeckgl.waypoints_of.
  destruct (dict_get v valid) as [w |] eqn:E; [| contradiction].
  apply Hvalid, dict_get_Some_In, E.
- apply Hvalid.
Qed.

(** The finalisation keeps at most [MAX_VEHICLES] trajectories. *)
Lemma finalize_length (tbl : trajectories) :
  (List.length (MakeDeckgl.finalize tbl) <= MakeDeckgl.MAX_VEHICLES)%nat.
Proof.
unfold MakeDeckgl.finalize.
set (valid := filter _ tbl).
destruct (MakeDeckgl.MAX_VEHICLES <? List.length valid)%nat eqn:E.
- rewrite length_map. apply firstn_le_length.
- apply Nat.ltb_ge, E.
Qed.

(** ** The times of the waypoints *)

Lemma traj_inv_entry (c : Q) (tbl : trajectories) (vid : string)
  (wps : list waypoint) :
  traj_inv c tbl -> In (vid, wps) tbl ->
  Sorted Z.le (seconds wps) /\ Forall in_window_Z (seconds wps).
Proof.
intros H Hin. destruct (H vid wps Hin) as (Hs & Hall).
split; [exact Hs |]. unfold seconds. apply Forall_map.
eapply Forall_impl; [| exact Hall]. cbn. intros wp (Hw & _). exact Hw.
Qed.

(** With timestep times half a second apart, a vehicle has two waypoints
    in one second: the seconds of its trajectory repeat. *)
Lemma waypoint_times_not_strict :
  monotone Samples.half_second_trace
  /\ rmap (map (fun e => seconds (snd e)))
       (MakeDeckgl.deckgl Samples.half_second_trace)
     = Ok [[25200; 25200; 25201; 25201; 25202]%Z]
  /\ rmap (map (fun e => seconds (snd e)))
       (Step4.deckgl Samples.half_second_trace)
     = Ok [[25200; 25200; 25201; 25201; 25202]%Z]
  /\ ~ Sorted Z.lt [25200; 25200; 25201; 25201; 25202]%Z.
Proof.
split; [exact half_second_monotone |].
split; [vm_compute; reflexivity |].
split; [vm_compute; reflexivity |].
intros H. inversion H as [| ? ? _ Hhd]; subst.
inversion Hhd as [| ? ? Hlt]; subst. lia.
Qed.

(** C3, amended. On a trace whose timestep times never go back, in every
    trajectory that is written the seconds of the waypoints never go back
    and lie between the start of the window less the buffer and its end
    plus the buffer. *)
Theorem waypoint_times_in_order (trace : list string) (tbl : trajectories) :
  monotone trace ->
  MakeDeckgl.deckgl trace = Ok tbl \/ Step4.deckgl trace = Ok tbl ->
  forall vid wps,
    In (vid, wps) tbl ->
    Sorted Z.le (seconds wps) /\ Forall in_window_Z (seconds wps).
Proof.
intros Hm [H | H] vid wps Hin.
- unfold MakeDeckgl.deckgl in H.
  destruct (MakeDeckgl.scan trace) as [tbl0 |] eqn:E; [| discriminate].
  cbn in H. injection H as <-.
  destruct (md_scan_inv Hm E) as (c & Hinv).
  apply finalize_In in Hin. apply (@traj_inv_entry c tbl0 vid wps Hinv (proj1 Hin)).
- unfold Step4.deckgl in H.
  destruct (Step4.scan trace) as [tbl0 |] eqn:E; [| discriminate].
  cbn in H. injection H as <-.
  destruct (s4_scan_inv Hm E) as (c & Hinv).
  apply filter_In in Hin. apply (@traj_inv_entry c tbl0 vid wps Hinv (proj1 Hin)).
Qed.

Lemma waypoint_times_in_order_witness :
  monotone Samples.morning
  /\ MakeDeckgl.deckgl Samples.morning = Ok Samples.morning_table
  /\ Sorted Z.le (seconds (MakeDeckgl.waypoints_of Samples.morning_table "7"))
  /\ Forall in_window_Z
       (seconds (MakeDeckgl.waypoints_of Samples.morning_table "7")).
Proof.
assert (H : MakeDeckgl.deckgl Samples.morning = Ok Samples.morning_table)
  by (vm_compute; reflexivity).
split; [exact morning_monotone |]. split; [exact H |].
apply (@waypoint_times_in_order Samples.morning Samples.morning_table
         morning_monotone (or_introl H) "7"%string).
vm_compute. left. reflexivity.
Defined.

(** ** The theorems on the sample inputs *)

Lemma mean_speed_is_mean_witness :
  Aggregate.scan Samples.peak = Ok Samples.peak_state
  /\ exists m,
       Aggregate.mean_speed Samples.peak_state "123#0" 2 = Ok m
       /\ (m == 27)%Q.
Proof.
assert (H : Aggregate.scan Samples.peak = Ok Samples.peak_state)
  by (vm_compute; reflexivity).
split; [exact H |].
destruct (@mean_speed_is_mean Samples.peak Samples.peak_state H "123#0"%string)
  as (_ & Hin).
destruct (Hin 2%Z) as (_ & _ & m & Hm & Hq); [vm_compute; left; reflexivity |].
exists m. split; [exact Hm |]. rewrite Hq. vm_compute. reflexivity.
Defined.

Lemma merge_shared_endpoint_witness :
  List.length
    (Geometry.merge Samples.net (Geometry.sorted_edges [Samples.e0; Samples.e1]))
  = (List.length (Geometry.lonlat Samples.net Samples.e0)
     + List.length (Geometry.lonlat Samples.net Samples.e1) - 1)%nat.
Proof.
apply (proj1 (@merge_shared_endpoint Samples.sqrt6 Samples.net Samples.congestion)
         Samples.e0 Samples.e1
         [convertXY2LonLat Samples.net 0 0]
         [convertXY2LonLat Samples.net 130 40]
         (convertXY2LonLat Samples.net 100 0)
         (convertXY2LonLat Samples.net 100 0)).
- vm_compute. discriminate.
- reflexivity.
- reflexivity.
- vm_compute. reflexivity.
- vm_compute. reflexivity.
Defined.


Lemma validate_verdict_witness :
  exists ratio,
    Validation.validate
      (Validation.edge_coords Samples.net [Samples.row20; Samples.row1])
      Samples.corridor
    = Ok (Some ratio, Validation.HIGH)
    /\ (ratio == 2)%Q.
Proof.
destruct (@validate_verdict Samples.net [Samples.row20; Samples.row1]
            "Centru"%string 28 (28001 # 1000) 46 48 10)
  as (_ & _ & H & _).
- repeat constructor; cbn; intuition discriminate.
- destruct H as (ratio & Hv & Hr & _).
  + vm_compute. discriminate.
  + vm_compute. discriminate.
  + exists ratio. subst ratio. split; [exact Hv | vm_compute; reflexivity].
Defined.

Lemma offset_line_total_witness :
  exists r,
    Geometry.offset_line Samples.sqrt6 [(0, 0); (0, 0); (3, 4)] (16 # 10) = Ok r
    /\ List.length r = 3%nat.
Proof.
destruct (@offset_line_total Samples.sqrt6 [(0, 0); (0, 0); (3, 4)] (16 # 10))
  as (r & Hr & Hl & _); [vm_compute; lia |].
exists r. split; [exact Hr | exact Hl].
Defined.

(** ** Lines that miss an attribute, and attributes that are no numbers *)

Lemma parse_waypoint_missing (digits : nat) (c : Q) (line : string) :
  Lex.RE_VID line = None \/ Lex.RE_X line = None
  \/ Lex.RE_Y line = None \/ Lex.RE_SPEED line = None ->
  parse_waypoint digits c line = None.
Proof.
unfold parse_waypoint. intros [H | [H | [H | H]]]; rewrite H.
- reflexivity.
- destruct (Lex.RE_VID line); reflexivity.
- destruct (Lex.RE_VID line), (Lex.RE_X line); reflexivity.
- destruct (Lex.RE_VID line), (Lex.RE_X line), (Lex.RE_Y line); reflexivity.
Qed.

(** A timestep line in which the time finds no match, and a vehicle line
    in which an attribute finds none, leave the state of each scan as it
    is, and the scan goes on. *)
Lemma missing_attribute_skips (line : string) :
  (Lex.contains "<timestep" line = true -> Lex.RE_TIME line = None ->
   (forall st, MakeDeckgl.step st line = Ok (Continue, st))
   /\ (forall st, Step4.step st line = Ok (Continue, st))
   /\ (forall st, Aggregate.step st line = Ok (Continue, st)))
  /\ (Lex.contains "<timestep" line = false ->
      (Lex.RE_VID line = None \/ Lex.RE_X line = None
       \/ Lex.RE_Y line = None \/ Lex.RE_SPEED line = None ->
       (forall st, MakeDeckgl.step st line = Ok (Continue, st))
       /\ (forall st, Step4.step st line = Ok (Continue, st)))
      /\ (Lex.RE_LANE line = None \/ Lex.RE_SPEED line = None ->
          forall st, Aggregate.step st line = Ok (Continue, st))).
Proof.
split.
- intros Ht Hm.
  unfold MakeDeckgl.step, Step4.step, Aggregate.step. rewrite Ht, Hm.
  repeat split.
- intros Ht. split.
  + intros Hmiss. unfold MakeDeckgl.step, Step4.step. rewrite Ht.
    split; intros st; rewrite (@parse_waypoint_missing _ _ line Hmiss).
    * destruct (MakeDeckgl.in_window st && Lex.contains "<vehicle" line);
        reflexivity.
    * destruct (Qleb Step4.window_lo (Step4.cur_time st)
                && Qleb (Step4.cur_time st) Step4.window_hi
                && Lex.contains "<vehicle" line); reflexivity.
  + intros Hmiss st. unfold Aggregate.step, Aggregate.sample_of. rewrite Ht.
    destruct (Aggregate.sample_this st && Lex.contains "<vehicle" line);
      [| reflexivity].
    destruct Hmiss as [H | H]; rewrite H; [reflexivity |].
    destruct (Lex.RE_LANE line); reflexivity.
Qed.

(** C9. A timestep line whose time is 1.2.3, or a vehicle line with such a
    speed in a sampled second: the pattern matches, [float] raises
    [ValueError], nothing catches it, and each scan ends with the
    exception instead of going on to the next line. *)
Theorem malformed_number_aborts :
  MakeDeckgl.scan Samples.bad_time = Raise ValueError
  /\ Step4.scan Samples.bad_time = Raise ValueError
  /\ Aggregate.scan Samples.bad_time = Raise ValueError
  /\ MakeDeckgl.scan Samples.bad_speed = Raise ValueError
  /\ Step4.scan Samples.bad_speed = Raise ValueError
  /\ Aggregate.scan Samples.bad_speed = Raise ValueError.
Proof.
repeat split; vm_compute; reflexivity.
Qed.

(** ** Searching past a prefix *)

Section LexFacts.
Import Lex.
Local Open Scope string_scope.

Lemma append_assoc' (a b c : string) : (a ++ b) ++ c = a ++ (b ++ c).
Proof.
induction a as [| x a IH]; cbn; [reflexivity | rewrite IH; reflexivity].
Qed.

Lemma clash_drop (lit t s : string) :
  clash lit t = true -> drop_prefix lit (t ++ s) = None.
Proof.
revert t. induction lit as [| a lit IH]; intros t; [discriminate |].
destruct t as [| b t]; [discriminate |]. cbn.
destruct (Ascii.eqb a b); [apply IH | reflexivity].
Qed.

Lemma clash_app (lit t u : string) :
  clash lit t = true -> clash lit (t ++ u) = true.
Proof.
revert t. induction lit as [| a lit IH]; intros t; [discriminate |].
destruct t as [| b t]; [discriminate |]. cbn.
destruct (Ascii.eqb a b); [apply IH | reflexivity].
Qed.

Lemma clear_app (lit p1 p2 : string) :
  clear_of lit p1 = true -> clear_of lit p2 = true ->
  clear_of lit (p1 ++ p2) = true.
Proof.
intros H1 H2. induction p1 as [| c p1 IH]; [exact H2 |].
cbn [clear_of] in H1. apply andb_true_iff in H1. destruct H1 as (Hc & H1).
change (String c p1 ++ p2) with (String c (p1 ++ p2)). cbn [clear_of].
apply andb_true_iff. split; [| apply IH, H1].
apply (@clash_app lit (String c p1) p2 Hc).
Qed.

Lemma clear_contains (pat p s : string) :
  clear_of pat p = true -> contains pat (p ++ s) = contains pat s.
Proof.
induction p as [| c p IH]; [reflexivity |].
cbn [clear_of]. intros H. apply andb_true_iff in H. destruct H as (Hc & H).
change (String c p ++ s) with (String c (p ++ s)). cbn [contains].
change (String c (p ++ s)) with (String c p ++ s).
rewrite (@clash_drop pat (String c p) s Hc). apply IH, H.
Qed.

Lemma search_from_cons wb lit cls prev (c : ascii) (s : string) :
  match_here lit cls (String c s) = None ->
  search_from wb lit cls prev (String c s) = search_from wb lit cls (Some c) s.
Proof.
intros H. cbn [search_from]. rewrite H.
destruct (negb wb || match prev with None => true | Some c0 => negb (is_word c0) end);
  reflexivity.
Qed.

Lemma clear_search wb lit cls (p s : string) :
  forall prev,
    clear_of lit p = true ->
    search_from wb lit cls prev (p ++ s)
    = search_from wb lit cls (last_char prev p) s.
Proof.
induction p as [| c p IH]; intros prev; [reflexivity |].
cbn [clear_of]. intros H. apply andb_true_iff in H. destruct H as (Hc & H).
change (String c p ++ s) with (String c (p ++ s)).
rewrite search_from_cons; [apply IH, H |].
unfold match_here. change (String c (p ++ s)) with (String c p ++ s).
rewrite (@clash_drop lit (String c p) s Hc). reflexivity.
Qed.

Lemma search_here wb lit cls prev (s r : string) :
  negb wb || match prev with None => true | Some c => negb (is_word c) end = true ->
  match_here lit cls s = Some r ->
  search_from wb lit cls prev s = Some r.
Proof.
intros Hb Hm. destruct s as [| c s]; cbn [search_from]; rewrite Hb, Hm; reflexivity.
Qed.

Lemma last_char_app (p1 p2 : string) :
  forall prev, last_char prev (p1 ++ p2) = last_char (last_char prev p1) p2.
Proof.
induction p1 as [| c p1 IH]; intros prev; [reflexivity | apply IH].
Qed.

Lemma span_every cls (v r : string) (c : ascii) :
  every cls v = true -> cls c = false ->
  span cls (v ++ String c r) = (v, String c r).
Proof.
intros Hv Hc. induction v as [| d v IH]; cbn.
- rewrite Hc. reflexivity.
- cbn in Hv. apply andb_true_iff in Hv. destruct Hv as (Hd & Hv).
  rewrite Hd, (IH Hv). reflexivity.
Qed.

Lemma every_impl (cls cls' : ascii -> bool) (v : string) :
  (forall c, cls c = true -> cls' c = true) ->
  every cls v = true -> every cls' v = true.
Proof.
intros Himp. induction v as [| d v IH]; cbn; [reflexivity |].
intros H. apply andb_true_iff in H. destruct H as (Hd & Hv).
rewrite (Himp d Hd), (IH Hv). reflexivity.
Qed.

(** A pattern that starts with no digit starts nowhere in a numeral. *)
Lemma clear_digits (c0 : ascii) (lit v : string) :
  is_digit c0 = false -> every is_digit v = true ->
  clear_of (String c0 lit) v = true.
Proof.
intros H0. induction v as [| d v IH]; cbn [every clear_of]; [reflexivity |].
intros H. apply andb_true_iff in H. destruct H as (Hd & Hv).
apply andb_true_iff. split; [| apply IH, Hv].
cbn [clash]. destruct (Ascii.eqb_spec c0 d) as [-> | _]; [congruence | reflexivity].
Qed.
End LexFacts.

(** ** The line of a vehicle whose id is a numeral *)

Section VehicleLine.
Import Lex.
Local Open Scope string_scope.

Variable v : string.
Hypothesis v_digits : every is_digit v = true.
Hypothesis v_nonempty : v <> EmptyString.

Lemma vehicle_line_after_id :
  Samples.vehicle_line v
  = (Samples.vehicle_head ++ v ++ Samples.q) ++ Samples.vehicle_tail.
Proof.
unfold Samples.vehicle_line, Samples.vehicle, Samples.vehicle_head,
  Samples.vehicle_tail, Samples.attr.
rewrite !append_assoc'. reflexivity.
Qed.

Lemma vehicle_line_at_id :
  Samples.vehicle_line v
  = "<vehicle "
    ++ ("id" ++ String "="%char (String dquote EmptyString))
    ++ v ++ String dquote Samples.vehicle_tail.
Proof.
unfold Samples.vehicle_line, Samples.vehicle, Samples.vehicle_tail, Samples.attr.
rewrite !append_assoc'. reflexivity.
Qed.

Lemma clear_up_to_id (lit : string) :
  clear_of lit Samples.vehicle_head = true ->
  clear_of lit v = true ->
  clear_of lit Samples.q = true ->
  clear_of lit (Samples.vehicle_head ++ v ++ Samples.q) = true.
Proof.
intros H1 H2 H3. apply clear_app; [exact H1 | apply clear_app; assumption].
Qed.

Lemma search_after_id wb lit cls :
  clear_of lit Samples.vehicle_head = true ->
  clear_of lit v = true ->
  clear_of lit Samples.q = true ->
  search_from wb lit cls None (Samples.vehicle_line v)
  = search_from wb lit cls (Some dquote) Samples.vehicle_tail.
Proof.
intros H1 H2 H3.
rewrite vehicle_line_after_id, clear_search by (apply clear_up_to_id; assumption).
rewrite !last_char_app. reflexivity.
Qed.

Lemma contains_after_id (pat : string) :
  clear_of pat Samples.vehicle_head = true ->
  clear_of pat v = true ->
  clear_of pat Samples.q = true ->
  contains pat (Samples.vehicle_line v) = contains pat Samples.vehicle_tail.
Proof.
intros H1 H2 H3.
rewrite vehicle_line_after_id. apply clear_contains, clear_up_to_id; assumption.
Qed.

Ltac past_id c :=
  first [ rewrite search_after_id | rewrite contains_after_id ];
  [ vm_compute; reflexivity
  | vm_compute; reflexivity
  | apply (@clear_digits c); [reflexivity | exact v_digits]
  | vm_compute; reflexivity ].

Lemma vehicle_line_not_timestep :
  contains "<timestep" (Samples.vehicle_line v) = false.
Proof.
rewrite vehicle_line_after_id.
change (Samples.vehicle_head ++ v ++ Samples.q)
  with (String "<" ("vehicle id=" ++ Samples.q ++ v ++ Samples.q)).
change (String "<" ("vehicle id=" ++ Samples.q ++ v ++ Samples.q)
        ++ Samples.vehicle_tail)
  with (String "<" (("vehicle id=" ++ Samples.q ++ v ++ Samples.q)
                    ++ Samples.vehicle_tail)).
cbn [contains drop_prefix]. cbn [Ascii.eqb Bool.eqb].
rewrite clear_contains; [vm_compute; reflexivity |].
change ("vehicle id=" ++ Samples.q ++ v ++ Samples.q)
  with (("vehicle id=" ++ Samples.q) ++ v ++ Samples.q).
apply clear_app; [vm_compute; reflexivity |].
apply clear_app; [| vm_compute; reflexivity].
apply (@clear_digits "<"); [reflexivity | exact v_digits].
Qed.

Lemma vehicle_line_is_vehicle :
  contains "<vehicle" (Samples.vehicle_line v) = true.
Proof.
rewrite vehicle_line_at_id. reflexivity.
Qed.

Lemma vehicle_line_x : RE_X (Samples.vehicle_line v) = Some "28.85".
Proof. unfold RE_X, re_search. past_id "x"%char. Qed.

Lemma vehicle_line_y : RE_Y (Samples.vehicle_line v) = Some "47.01".
Proof. unfold RE_Y, re_search. past_id "y"%char. Qed.

Lemma vehicle_line_speed : RE_SPEED (Samples.vehicle_line v) = Some "10.00".
Proof. unfold RE_SPEED, re_search. past_id "s"%char. Qed.

Lemma vehicle_line_id : RE_VID (Samples.vehicle_line v) = Some v.
Proof.
unfold RE_VID, re_search.
rewrite vehicle_line_at_id, clear_search by (vm_compute; reflexivity).
apply search_here; [vm_compute; reflexivity |].
unfold match_here.
assert (Hd : forall lit s, drop_prefix lit (lit ++ s) = Some s).
{ induction lit as [| a lit IH]; intros s; cbn; [reflexivity |].
  rewrite Ascii.eqb_refl. apply IH. }
rewrite Hd, span_every.
- destruct v; [congruence | cbn; reflexivity].
- apply (every_impl is_digit); [| exact v_digits].
  intros c Hc. unfold is_not_quote.
  destruct (Ascii.eqb_spec c dquote) as [-> | _]; [discriminate Hc | reflexivity].
- reflexivity.
Qed.

Lemma vehicle_line_waypoint (digits : nat) (c : Q) :
  parse_waypoint digits c (Samples.vehicle_line v)
  = Some (Ok (v, Samples.seen digits c)).
Proof.
unfold parse_waypoint.
rewrite vehicle_line_id, vehicle_line_x, vehicle_line_y, vehicle_line_speed.
reflexivity.
Qed.
End VehicleLine.

(** ** Step 4 on a timestep of numbered vehicles *)

Lemma dict_update_app_miss {V : Type} (k : string) (dflt : V) (f : V -> V)
  (d1 d2 : list (string * V)) :
  ~ In k (map fst d1) ->
  dict_update k dflt f (d1 ++ d2) = d1 ++ dict_update k dflt f d2.
Proof.
induction d1 as [| [k' x] d1 IH]; cbn; intros Hk; [reflexivity |].
destruct (String.eqb_spec k' k) as [-> | _]; [tauto |].
rewrite IH by tauto. reflexivity.
Qed.

Lemma keys_of_map {V : Type} (g : string -> V) (l : list string) :
  map fst (map (fun u => (u, g u)) l) = l.
Proof.
rewrite map_map. cbn. apply map_id.
Qed.

Section Fold.
Variable w : waypoint.

Lemma add_fresh (done : list string) (v : string) :
  ~ In v done ->
  add_waypoint v w (map (fun u => (u, [w])) done)
  = map (fun u => (u, [w])) (done ++ [v]).
Proof.
intros Hv. unfold add_waypoint.
rewrite <- (app_nil_r (map (fun u => (u, [w])) done)).
rewrite dict_update_app_miss by (rewrite keys_of_map; exact Hv).
rewrite map_app. reflexivity.
Qed.

Lemma add_known (ws : list waypoint) (done : list string) (v : string)
  (rest : trajectories) :
  ~ In v done ->
  add_waypoint v w (map (fun u => (u, ws ++ [w])) done ++ (v, ws) :: rest)
  = map (fun u => (u, ws ++ [w])) (done ++ [v]) ++ rest.
Proof.
intros Hv. unfold add_waypoint.
rewrite dict_update_app_miss by (rewrite keys_of_map; exact Hv).
cbn [dict_update]. rewrite String.eqb_refl, map_app, <- app_assoc. reflexivity.
Qed.

Lemma not_in_done (done todo : list string) (v : string) :
  NoDup (done ++ v :: todo) -> ~ In v done /\ NoDup ((done ++ [v]) ++ todo).
Proof.
intros Hnd. split.
- intros Hin. apply NoDup_remove_2 in Hnd. apply Hnd, in_or_app. left. exact Hin.
- rewrite <- app_assoc. exact Hnd.
Qed.

(** A first timestep: each vehicle gets a trajectory of one waypoint, in
    the order of the lines. *)
Lemma fold_fresh (todo : list string) :
  forall done,
    NoDup (done ++ todo) ->
    fold_left (fun T v => add_waypoint v w T) todo
      (map (fun u => (u, [w])) done)
    = map (fun u => (u, [w])) (done ++ todo).
Proof.
induction todo as [| v todo IH]; intros done Hnd; cbn [fold_left].
- rewrite app_nil_r. reflexivity.
- destruct (@not_in_done done todo v Hnd) as (Hv & Hnd').
  rewrite (@add_fresh done v Hv), (IH _ Hnd'), <- app_assoc. reflexivity.
Qed.

(** A later timestep: each trajectory gets one waypoint more. *)
Lemma fold_known (ws : list waypoint) (todo : list string) :
  forall done,
    NoDup (done ++ todo) ->
    fold_left (fun T v => add_waypoint v w T) todo
      (map (fun u => (u, ws ++ [w])) done ++ map (fun u => (u, ws)) todo)
    = map (fun u => (u, ws ++ [w])) (done ++ todo).
Proof.
induction todo as [| v todo IH]; intros done Hnd; cbn [fold_left map].
- rewrite !app_nil_r. reflexivity.
- destruct (@not_in_done done todo v Hnd) as (Hv & Hnd').
  rewrite (@add_known ws done v _ Hv), (IH _ Hnd'), <- app_assoc. reflexivity.
Qed.

Lemma fold_fresh_all (ids : list string) :
  NoDup ids ->
  fold_left (fun T v => add_waypoint v w T) ids []
  = map (fun u => (u, [w])) ids.
Proof. intros H. exact (@fold_fresh ids [] H). Qed.

Lemma fold_known_all (ws : list waypoint) (ids : list string) :
  NoDup ids ->
  fold_left (fun T v => add_waypoint v w T) ids (map (fun u => (u, ws)) ids)
  = map (fun u => (u, ws ++ [w])) ids.
Proof. intros H. exact (@fold_known ws ids [] H). Qed.
End Fold.

Lemma filter_all {A : Type} (p : A -> bool) (l : list A) :
  Forall (fun x => p x = true) l -> filter p l = l.
Proof.
induction 1 as [| x l Hx _ IH]; cbn; [reflexivity |].
rewrite Hx, IH. reflexivity.
Qed.

Section Step4Crowd.
Import Step4.
Local Open Scope string_scope.

Variable ids : list string.
Hypothesis ids_numerals :
  Forall (fun v => Lex.every Lex.is_digit v = true /\ v <> EmptyString) ids.
Hypothesis ids_distinct : NoDup ids.

Lemma s4_timestep_line (t : string) (tq : Q) :
  line_time (Samples.timestep_line t) = Some (Ok tq) ->
  Qltb stop_after tq = false ->
  forall st,
    step st (Samples.timestep_line t) = Ok (Continue, mkState (vehicles st) tq).
Proof.
unfold line_time, step. intros Hl Hs st.
destruct (Lex.contains "<timestep" (Samples.timestep_line t)); [| discriminate].
destruct (Lex.RE_TIME (Samples.timestep_line t)) as [x |]; [| discriminate].
injection Hl as ->. cbn [bind]. rewrite Hs. reflexivity.
Qed.

Lemma s4_closing_line (st : state) : step st "</timestep>" = Ok (Continue, st).
Proof.
unfold step.
replace (Lex.contains "<timestep" "</timestep>") with false
  by (vm_compute; reflexivity).
replace (Lex.contains "<vehicle" "</timestep>") with false
  by (vm_compute; reflexivity).
rewrite andb_false_r. reflexivity.
Qed.

Lemma s4_vehicle_lines (c : Q) (rest : list string) :
  Qleb window_lo c && Qleb c window_hi = true ->
  forall (todo : list string) (T : trajectories),
    Forall (fun v => Lex.every Lex.is_digit v = true /\ v <> EmptyString) todo ->
    run step (mkState T c) (map Samples.vehicle_line todo ++ rest)
    = run step
        (mkState
           (fold_left (fun T v => add_waypoint v (Samples.seen 6 c) T) todo T) c)
        rest.
Proof.
intros Hw. induction todo as [| v todo IH]; intros T Hall; [reflexivity |].
inversion Hall as [| ? ? (Hd & Hne) Hall']; subst.
cbn [map app run fold_left]. unfold step at 1. cbn [cur_time vehicles].
rewrite (@vehicle_line_not_timestep v Hd), Hw, (@vehicle_line_is_vehicle v).
cbn [andb]. rewrite (@vehicle_line_waypoint v Hd Hne 6 c). cbn [bind fst snd].
apply IH, Hall'.
Qed.

Lemma s4_block (t : string) (tq : Q) (rest : list string) :
  line_time (Samples.timestep_line t) = Some (Ok tq) ->
  Qltb stop_after tq = false ->
  Qleb window_lo tq && Qleb tq window_hi = true ->
  forall st,
    run step st (Samples.block ids t ++ rest)
    = run step
        (mkState
           (fold_left (fun T v => add_waypoint v (Samples.seen 6 tq) T) ids
              (vehicles st)) tq)
        rest.
Proof.
intros Hl Hs Hw st. unfold Samples.block. cbn [app run].
rewrite (@s4_timestep_line t tq Hl Hs), <- app_assoc.
rewrite (@s4_vehicle_lines tq (["</timestep>"] ++ rest) Hw ids (vehicles st)
           ids_numerals).
cbn [app run]. rewrite s4_closing_line. reflexivity.
Qed.

Lemma s4_crowd_table :
  scan (Samples.crowd ids)
  = Ok (map (fun v => (v, map (Samples.seen 6) Samples.five_times)) ids).
Proof.
unfold scan, Samples.crowd, Samples.blocks, Samples.five_seconds.
cbn [map List.concat].
rewrite (@s4_block "25200.00" (2520000 # 100)) by (vm_compute; reflexivity).
rewrite (@s4_block "25201.00" (2520100 # 100)) by (vm_compute; reflexivity).
rewrite (@s4_block "25202.00" (2520200 # 100)) by (vm_compute; reflexivity).
rewrite (@s4_block "25203.00" (2520300 # 100)) by (vm_compute; reflexivity).
rewrite (@s4_block "25204.00" (2520400 # 100)) by (vm_compute; reflexivity).
cbn [run rmap bind vehicles init].
rewrite (fun w => @fold_fresh_all w ids ids_distinct).
rewrite !(fun w ws => @fold_known_all w ws ids ids_distinct).
reflexivity.
Qed.

Lemma s4_crowd_deckgl :
  deckgl (Samples.crowd ids)
  = Ok (map (fun v => (v, map (Samples.seen 6) Samples.five_times)) ids).
Proof.
unfold deckgl. rewrite s4_crowd_table. cbn [rmap bind]. f_equal.
apply filter_all, Forall_forall. intros e He.
apply in_map_iff in He. destruct He as (v & <- & _). reflexivity.
Qed.
End Step4Crowd.

(** ** The ids 0, 1, ..., n - 1 *)

Lemma numeral_digits (d : Decimal.uint) :
  Lex.every Lex.is_digit (NilEmpty.string_of_uint d) = true.
Proof.
induction d; cbn [NilEmpty.string_of_uint Lex.every]; try reflexivity;
  rewrite IHd; reflexivity.
Qed.

Lemma decimal_numeral (n : nat) :
  Lex.every Lex.is_digit (Samples.decimal n) = true
  /\ Samples.decimal n <> EmptyString.
Proof.
unfold Samples.decimal. split; [apply numeral_digits |].
intros H.
assert (Hn : Nat.to_uint n = Decimal.Nil)
  by (destruct (Nat.to_uint n); [reflexivity | discriminate H ..]).
pose proof (Unsigned.to_of (Nat.to_uint n)) as E.
rewrite Unsigned.of_to, Hn in E. discriminate E.
Qed.

Lemma decimal_inj (a b : nat) : Samples.decimal a = Samples.decimal b -> a = b.
Proof.
unfold Samples.decimal. intros H. apply Unsigned.to_uint_inj.
apply (f_equal NilEmpty.uint_of_string) in H.
rewrite !NilEmpty.usu in H. injection H as H. exact H.
Qed.

Lemma fleet_facts (n : nat) :
  Forall (fun v => Lex.every Lex.is_digit v = true /\ v <> EmptyString)
    (Samples.fleet n)
  /\ NoDup (Samples.fleet n)
  /\ List.length (Samples.fleet n) = n.
Proof.
unfold Samples.fleet. split; [| split].
- apply Forall_forall. intros v Hv. apply in_map_iff in Hv.
  destruct Hv as (k & <- & _). apply decimal_numeral.
- generalize (seq_NoDup n 0). generalize (seq 0 n).
  induction 1 as [| x l Hx _ IH]; cbn; constructor; [| exact IH].
  intros Hin. apply in_map_iff in Hin. destruct Hin as (y & Hy & Hin).
  apply decimal_inj in Hy. subst y. exact (Hx Hin).
- rewrite length_map, length_seq. reflexivity.
Qed.

(** Whatever the trace, make_deckgl.py writes at most [MAX_VEHICLES]
    trajectories, each of at least [MIN_WAYPOINTS] waypoints, and step 4
    of postprocess.py writes trajectories of at least five waypoints. *)
Lemma deckgl_bounds (trace : list string) (tbl : trajectories) :
  (MakeDeckgl.deckgl trace = Ok tbl ->
   (List.length tbl <= MakeDeckgl.MAX_VEHICLES)%nat
   /\ Forall (fun e => (MakeDeckgl.MIN_WAYPOINTS <= List.length (snd e))%nat) tbl)
  /\ (Step4.deckgl trace = Ok tbl ->
      Forall (fun e => (5 <= List.length (snd e))%nat) tbl).
Proof.
split.
- unfold MakeDeckgl.deckgl.
  destruct (MakeDeckgl.scan trace) as [tbl0 |]; [| discriminate].
  cbn. intros [= <-]. split; [apply finalize_length |].
  apply Forall_forall. intros [vid wps] Hin.
  apply (@finalize_In tbl0 vid wps Hin).
- unfold Step4.deckgl.
  destruct (Step4.scan trace) as [tbl0 |]; [| discriminate].
  cbn. intros [= <-]. apply Forall_forall. intros e Hin.
  apply filter_In in Hin. apply Nat.leb_le, Hin.
Qed.

(** C2. Five timesteps of one second in the window, each with a line for
    every one of 8001 vehicles: step 4 of postprocess.py writes all 8001
    trajectories, more than [MAX_VEHICLES], where make_deckgl.py cuts the
    same table down to 8000. *)
Theorem step4_output_exceeds_cap :
  exists tbl,
    Step4.deckgl (Samples.crowd (Samples.fleet 8001)) = Ok tbl
    /\ List.length tbl = 8001%nat
    /\ (MakeDeckgl.MAX_VEHICLES < List.length tbl)%nat
    /\ Forall (fun e => List.length (snd e) = 5%nat) tbl.
Proof.
destruct (fleet_facts 8001) as (Hnum & Hnd & Hlen).
eexists. split; [apply (@s4_crowd_deckgl (Samples.fleet 8001) Hnum Hnd) |].
rewrite length_map, Hlen. split; [reflexivity |]. split.
- apply Nat.ltb_lt. vm_compute. reflexivity.
- apply Forall_forall. intros e He. apply in_map_iff in He.
  destruct He as (v & <- & _). reflexivity.
Qed.

(** * Further properties of the two scripts *)

(** What every turn of a loop keeps, the loop keeps. *)
Lemma run_preserves {S : Type} (step : S -> string -> result (ctl * S))
  (P : S -> Prop) :
  (forall st l c st', P st -> step st l = Ok (c, st') -> P st') ->
  forall lines st st', P st -> run step st lines = Ok st' -> P st'.
Proof.
intros Hstep. induction lines as [| l lines IH]; intros st st' HP; cbn [run].
- intros [= <-]. exact HP.
- destruct (step st l) as [[[|] st1] | e] eqn:E; [| | discriminate].
  + apply IH. apply (Hstep st l Continue st1 HP E).
  + intros [= <-]. apply (Hstep st l Break st1 HP E).
Qed.

(** ** postprocess.py, step 1: what is sampled *)

Section Sampling.
Import Aggregate.

(** The seconds that step 1 samples: in one of the two peaks, and a
    multiple of [SAMPLE_EVERY]. *)
Let sampled (t : Q) : Prop :=
  ((inject_Z MORNING_START <= t /\ t <= inject_Z MORNING_END)
   \/ (inject_Z EVENING_START <= t /\ t <= inject_Z EVENING_END))%Q
  /\ (py_int t mod SAMPLE_EVERY = 0)%Z.

Lemma sample_flag_step (st st' : state) (l : string) (c : ctl) :
  (sample_this st = true -> sampled (current_time st)) ->
  step st l = Ok (c, st') ->
  sample_this st' = true -> sampled (current_time st').
Proof.
intros Hinv. unfold step. destruct (Lex.contains "<timestep" l).
- destruct (Lex.RE_TIME l) as [v |].
  + destruct (Lex.py_float v) as [t | e]; cbn [bind]; [| discriminate].
    intros [= _ <-]. cbn [sample_this current_time]. intros H.
    apply andb_true_iff in H. destruct H as (Hp & Hm). split.
    * apply orb_true_iff in Hp. destruct Hp as [Hp | Hp];
        apply andb_true_iff in Hp; destruct Hp as (H1 & H2);
        [left | right]; split; apply Qle_bool_iff; assumption.
    * apply Z.eqb_eq, Hm.
  + intros [= _ <-]. exact Hinv.
- destruct (sample_of st l) as [[es | e] |]; cbn [bind];
    [| discriminate |]; intros [= _ <-]; exact Hinv.
Qed.

(** X1. Step 1 of postprocess.py, at any point of the scan: a line changes
    the table of sums or the table of counts only if it is a vehicle line
    read in a second that is in the morning or the evening peak and is a
    multiple of thirty. *)
Theorem samples_only_in_peak (pre : list string) (line : string)
  (st st' : state) (c : ctl) :
  run step init pre = Ok st ->
  step st line = Ok (c, st') ->
  edge_speed_sum st' <> edge_speed_sum st
  \/ edge_speed_count st' <> edge_speed_count st ->
  Lex.contains "<vehicle" line = true
  /\ ((inject_Z MORNING_START <= current_time st
       /\ current_time st <= inject_Z MORNING_END)
      \/ (inject_Z EVENING_START <= current_time st
          /\ current_time st <= inject_Z EVENING_END))%Q
  /\ (py_int (current_time st) mod SAMPLE_EVERY = 0)%Z.
Proof.
intros Hrun Hstep Hch.
assert (Hinv : sample_this st = true -> sampled (current_time st)).
{ apply (@run_preserves state step
           (fun s => sample_this s = true -> sampled (current_time s))
           (fun s l c0 s' => @sample_flag_step s s' l c0) pre init st);
    [discriminate | exact Hrun]. }
revert Hstep Hch. unfold step. destruct (Lex.contains "<timestep" line).
- destruct (Lex.RE_TIME line) as [v |].
  + destruct (Lex.py_float v) as [t | e]; cbn [bind]; [| discriminate].
    intros [= _ <-]. cbn. intros [H | H]; contradiction H; reflexivity.
  + intros [= _ <-]. intros [H | H]; contradiction H; reflexivity.
- unfold sample_of.
  destruct (sample_this st) eqn:Es; cbn [andb].
  + destruct (Lex.contains "<vehicle" line).
    * intros _ _. split; [reflexivity | exact (Hinv eq_refl)].
    * intros [= _ <-]. intros [H | H]; contradiction H; reflexivity.
  + intros [= _ <-]. intros [H | H]; contradiction H; reflexivity.
Qed.
End Sampling.

Lemma samples_only_in_peak_witness :
  exists st st',
    run Aggregate.step Aggregate.init [Samples.timestep_line "25200.00"] = Ok st
    /\ Aggregate.step st (Samples.vehicle "7" "10.00" "123#0_0")
       = Ok (Continue, st')
    /\ Aggregate.edge_speed_count st' <> Aggregate.edge_speed_count st
    /\ (py_int (Aggregate.current_time st) mod Aggregate.SAMPLE_EVERY = 0)%Z.
Proof.
eexists. eexists.
split; [vm_compute; reflexivity |].
split; [vm_compute; reflexivity |].
split; [vm_compute; discriminate |].
eapply (@samples_only_in_peak [Samples.timestep_line "25200.00"]
          (Samples.vehicle "7" "10.00" "123#0_0")).
- vm_compute. reflexivity.
- vm_compute. reflexivity.
- right. vm_compute. discriminate.
Defined.

(** ** postprocess.py, steps 1 and 2: the two tables and the rows *)

Section Tables.
Import Aggregate.

(** The two tables have the same keys in the same order, each once, and
    every count is at least one. *)
Let aligned (st : state) : Prop :=
  map fst (edge_speed_sum st) = map fst (edge_speed_count st)
  /\ NoDup (map fst (edge_speed_count st))
  /\ Forall (fun ec => (1 <= snd ec)%Z) (edge_speed_count st).

Lemma dict_update_keys_eq {V W : Type} (k : string) (dv : V) (fv : V -> V)
  (dw : W) (fw : W -> W) (d : list (string * V)) (e : list (string * W)) :
  map fst d = map fst e ->
  map fst (dict_update k dv fv d) = map fst (dict_update k dw fw e).
Proof.
revert e. induction d as [| [k1 v] d IH]; intros [| [k2 w] e]; cbn;
  try discriminate; [reflexivity |].
intros [= -> H]. destruct (String.eqb k2 k); cbn; f_equal; [exact H |].
apply IH, H.
Qed.

Lemma count_update_positive (k : string) (d : list (string * Z)) :
  Forall (fun ec => (1 <= snd ec)%Z) d ->
  Forall (fun ec => (1 <= snd ec)%Z)
    (dict_update k 0%Z (fun c => (c + 1)%Z) d).
Proof.
induction 1 as [| [k' c] d Hc Hd IH]; cbn.
- constructor; [cbn; lia | constructor].
- cbn in Hc. destruct (String.eqb k' k); constructor; cbn; try assumption; lia.
Qed.

Lemma aligned_step (st : state) (l : string) (c : ctl) (st' : state) :
  aligned st -> step st l = Ok (c, st') -> aligned st'.
Proof.
intros Hal. unfold step. destruct (Lex.contains "<timestep" l).
- destruct (Lex.RE_TIME l) as [v |].
  + destruct (Lex.py_float v) as [t | e]; cbn [bind]; [| discriminate].
    intros [= _ <-]. exact Hal.
  + intros [= _ <-]. exact Hal.
- destruct (sample_of st l) as [[es | e] |]; cbn [bind]; [| discriminate |].
  + intros [= _ <-]. destruct Hal as (Hk & Hnd & Hpos).
    unfold aligned, fold_sample. cbn [edge_speed_sum edge_speed_count].
    split; [apply dict_update_keys_eq, Hk |].
    split; [apply dict_update_NoDup, Hnd | apply count_update_positive, Hpos].
  + intros [= _ <-]. exact Hal.
Qed.

Lemma scan_aligned (trace : list string) (st : state) :
  scan trace = Ok st -> aligned st.
Proof.
intros H.
apply (@run_preserves state step aligned aligned_step trace init st);
  [| exact H].
split; [reflexivity |]. split; constructor.
Qed.

(** X2. After the scan of step 1, whatever the trace, the table of sums
    and the table of counts have the same edges in the same order, no edge
    twice, and every count is at least one. *)
Theorem tables_aligned (trace : list string) (st : state) :
  scan trace = Ok st ->
  map fst (edge_speed_sum st) = map fst (edge_speed_count st)
  /\ NoDup (map fst (edge_speed_count st))
  /\ Forall (fun ec => (1 <= snd ec)%Z) (edge_speed_count st).
Proof.
exact (@scan_aligned trace st).
Qed.

Lemma py_max_ge (a b : Q) : (b <= py_max a b)%Q.
Proof.
unfold py_max. destruct (Qltb a b) eqn:E; [apply Qle_refl |].
unfold Qltb in E. apply negb_false_iff, Qle_bool_iff in E. exact E.
Qed.

Lemma freeflow_ge_10 (net : network) (eid : string) :
  (10 <= fst (match getEdge net eid with
              | Some e => (py_max (getSpeed e * kmh) 10, getLength e)
              | None => (50, 50)
              end))%Q.
Proof.
destruct (getEdge net eid); cbn [fst]; [apply py_max_ge |].
unfold Qle. cbn. lia.
Qed.

Lemma round_half_even_ge (k : Z) (x : Q) :
  (inject_Z k <= x)%Q -> (k <= round_half_even x)%Z.
Proof.
intros H. assert (Hf : (k <= Qfloor x)%Z).
{ rewrite <- (Qfloor_Z k). apply Qfloor_resp_le, H. }
unfold round_half_even.
destruct (Qcompare _ _); [destruct (Z.even _) | |]; lia.
Qed.

Lemma py_round_ge (k : Z) (x : Q) (n : nat) :
  (inject_Z k <= x)%Q -> (inject_Z k <= py_round x n)%Q.
Proof.
intros H. unfold py_round.
assert (Hk : (k * Zpos (Lex.ten_to n)
              <= round_half_even (x * inject_Z (Zpos (Lex.ten_to n))))%Z).
{ apply round_half_even_ge. rewrite inject_Z_mult.
  apply Qmult_le_compat_r; [exact H |]. unfold Qle. cbn. lia. }
unfold Qle. cbn. lia.
Qed.

Lemma row_of_total (net : network) (st : state) (eid : string) (count : Z) :
  (1 <= count)%Z ->
  exists r,
    row_of net st (eid, count) = Ok r
    /\ edge_id r = eid /\ sample_count r = count
    /\ (10 <= freeflow_kmh r)%Q.
Proof.
intros Hc. unfold row_of, mean_speed, py_div.
assert (Hz : Qeq_bool (inject_Z count) 0 = false).
{ apply not_true_is_false. intros H. apply Qeq_bool_iff in H.
  unfold Qeq in H. cbn in H. lia. }
rewrite Hz. cbn [bind].
pose proof (freeflow_ge_10 net eid) as Hff.
destruct (match getEdge net eid with
          | Some e => (py_max (getSpeed e * kmh) 10, getLength e)
          | None => (50, 50)
          end) as [ff len].
cbn [fst] in Hff.
assert (Hf : Qeq_bool ff 0 = false).
{ apply not_true_is_false. intros H. apply Qeq_bool_iff in H.
  rewrite H in Hff. unfold Qle in Hff. cbn in Hff. lia. }
rewrite Hf. cbn [bind]. eexists. split; [reflexivity |].
cbn [edge_id sample_count freeflow_kmh].
split; [reflexivity |]. split; [reflexivity |].
apply (@py_round_ge 10 ff 1 Hff).
Qed.

Lemma rows_exist (net : network) (trace : list string) (st : state) :
  scan trace = Ok st ->
  exists rs,
    rows net st = Ok rs
    /\ map (fun r => (edge_id r, sample_count r)) rs = edge_speed_count st
    /\ Forall (fun r => (10 <= freeflow_kmh r)%Q) rs.
Proof.
intros H. destruct (@scan_aligned trace st H) as (_ & _ & Hpos).
unfold rows. induction Hpos as [| [eid count] d Hc _ IH]; cbn [collect].
- exists []. repeat split. constructor.
- destruct (@row_of_total net st eid count Hc) as (r & -> & He & Hs & Hf).
  destruct IH as (rs & -> & Hm & Hall). cbn [bind].
  exists (r :: rs). split; [reflexivity |].
  split; [cbn [map]; rewrite He, Hs, Hm; reflexivity |].
  constructor; assumption.
Qed.

(** X3. Step 2 on the tables of any scan, with any network: no division
    fails, and there is one row for each edge of the table of counts, in
    its order, with the count of the edge; the free-flow speed of every
    row is at least 10 km/h, for an edge that the network does not know
    too. *)
Theorem rows_total (net : network) (trace : list string) (st : state) :
  scan trace = Ok st ->
  exists rs,
    rows net st = Ok rs
    /\ map (fun r => (edge_id r, sample_count r)) rs = edge_speed_count st
    /\ Forall (fun r => (10 <= freeflow_kmh r)%Q) rs.
Proof.
exact (@rows_exist net trace st).
Qed.
End Tables.

Lemma tables_aligned_witness :
  exists st,
    Aggregate.scan Samples.peak = Ok st
    /\ map fst (Aggregate.edge_speed_sum st)
       = map fst (Aggregate.edge_speed_count st).
Proof.
eexists. split; [vm_compute; reflexivity |].
apply (@tables_aligned Samples.peak). vm_compute. reflexivity.
Defined.

Lemma rows_total_witness :
  exists st rs,
    Aggregate.scan Samples.peak = Ok st
    /\ Aggregate.rows Samples.net st = Ok rs
    /\ map (fun r => (Aggregate.edge_id r, Aggregate.sample_count r)) rs
       = Aggregate.edge_speed_count st.
Proof.
eexists.
assert (H : Aggregate.scan Samples.peak = Ok Samples.peak_state)
  by (vm_compute; reflexivity).
destruct (@rows_total Samples.net Samples.peak Samples.peak_state H)
  as (rs & Hr & Hm & _).
exists rs. split; [exact H |]. split; [exact Hr | exact Hm].
Defined.

(** ** Lane, way and segment ids *)

Section Ids.
Import Lex.
Local Open Scope string_scope.

Lemma no_underscore_none (k : string) :
  every (fun c => negb (Ascii.eqb c "_")) k = true ->
  Aggregate.before_last_underscore k = None.
Proof.
induction k as [| c k IH]; cbn; [reflexivity |].
intros H. apply andb_true_iff in H. destruct H as (Hc & Hk).
rewrite (IH Hk). apply negb_true_iff in Hc. rewrite Hc. reflexivity.
Qed.

Lemma before_last_underscore_app (e k : string) :
  every (fun c => negb (Ascii.eqb c "_")) k = true ->
  Aggregate.before_last_underscore (e ++ String "_" k) = Some e.
Proof.
intros Hk. induction e as [| c e IH]; cbn.
- rewrite (no_underscore_none k Hk). reflexivity.
- rewrite IH. reflexivity.
Qed.

(** X4. The edge of a lane id.  The id of a lane is the id of its edge, an
    underscore and the index of the lane: [edge_of_lane] gives the edge
    back, whatever underscores the edge id has itself; a lane id with no
    underscore is its own edge. *)
Theorem edge_of_lane_inverse (e k : string) :
  every (fun c => negb (Ascii.eqb c "_")) k = true ->
  Aggregate.edge_of_lane (e ++ String "_" k) = e
  /\ Aggregate.edge_of_lane k = k.
Proof.
intros Hk. unfold Aggregate.edge_of_lane.
rewrite (before_last_underscore_app e k Hk), (no_underscore_none k Hk).
split; reflexivity.
Qed.

Lemma append_nil_r (s : string) : s ++ "" = s.
Proof.
induction s as [| c s IH]; cbn; [reflexivity | rewrite IH; reflexivity].
Qed.

Lemma span_digits_prefix (d rest : string) :
  every is_digit d = true ->
  match rest with String c _ => is_digit c | EmptyString => false end = false ->
  span is_digit (d ++ rest) = (d, rest).
Proof.
intros Hd Hr. induction d as [| c d IH]; cbn [append span].
- destruct rest as [| c r]; [reflexivity |]. cbn [span]. rewrite Hr. reflexivity.
- cbn [every] in Hd. apply andb_true_iff in Hd. destruct Hd as (Hc & Hd).
  rewrite Hc, (IH Hd). reflexivity.
Qed.

Lemma from_newline_none (r : string) :
  every (fun c => negb (Ascii.eqb c newline)) r = true ->
  Geometry.from_newline r = "".
Proof.
induction r as [| c r IH]; cbn [every Geometry.from_newline]; [reflexivity |].
intros H. apply andb_true_iff in H. destruct H as (Hc & Hr).
apply negb_true_iff in Hc. rewrite Hc. apply IH, Hr.
Qed.

(** X5. The base id of an edge id.  For an id made of a numeral followed
    by a rest that starts with no digit and has no line feed, as in
    123#4, [base_id] is the numeral, and it is the same numeral for the
    id with a minus sign in front: the two directions of a way have one
    base id.  An id that starts with neither a digit nor a minus sign and
    a digit is its own base id. *)
Theorem base_id_of_way (d rest : string) :
  every is_digit d = true ->
  d <> "" ->
  match rest with String c _ => is_digit c | EmptyString => false end = false ->
  every (fun c => negb (Ascii.eqb c newline)) rest = true ->
  Geometry.base_id (d ++ rest) = d
  /\ Geometry.base_id (String "-" (d ++ rest)) = d
  /\ Geometry.base_id (String "-" rest) = String "-" rest
  /\ (Geometry.starts_with "-" rest = false -> Geometry.base_id rest = rest).
Proof.
intros Hd Hne Hr Hnl.
assert (Hs := span_digits_prefix d rest Hd Hr).
assert (Hs0 : span is_digit rest = ("", rest)).
{ destruct rest as [| c r]; cbn [span]; [reflexivity |]. rewrite Hr.
  reflexivity. }
destruct d as [| c d]; [congruence |].
assert (Hc : Ascii.eqb c "-" = false).
{ cbn [every] in Hd. apply andb_true_iff in Hd. destruct Hd as (Hc & _).
  destruct (Ascii.eqb_spec c "-") as [-> | _]; [discriminate Hc | reflexivity]. }
split; [| split; [| split]].
- unfold Geometry.base_id.
  change (String c d ++ rest) with (String c (d ++ rest)). cbv iota beta.
  rewrite Hc. change (String c (d ++ rest)) with (String c d ++ rest).
  rewrite Hs, (from_newline_none rest Hnl). apply append_nil_r.
- unfold Geometry.base_id.
  change (Ascii.eqb "-" "-") with true. cbv iota beta.
  rewrite Hs, (from_newline_none rest Hnl). apply append_nil_r.
- unfold Geometry.base_id.
  change (Ascii.eqb "-" "-") with true. cbv iota beta.
  rewrite Hs0. reflexivity.
- intros Hm. unfold Geometry.base_id. destruct rest as [| a r]; [reflexivity |].
  cbn [Geometry.starts_with] in Hm. rewrite Hm, Hs0. reflexivity.
Qed.

Lemma span_before_hash (d b : string) :
  exists p r, span is_digit (b ++ String "#" d) = (p, r ++ String "#" d).
Proof.
induction b as [| x b (p & r & IH)]; cbn [append span].
- exists "", "". reflexivity.
- destruct (is_digit x).
  + rewrite IH. exists (String x p), r. reflexivity.
  + exists "", (String x b). reflexivity.
Qed.

Lemma seg_here_early (c : ascii) (b d : string) :
  d <> "" -> Geometry.seg_here (String c (b ++ String "#" d)) = None.
Proof.
intros Hd. unfold Geometry.seg_here. destruct (Ascii.eqb c "#"); [| reflexivity].
destruct (span_before_hash d b) as (p & r & ->).
destruct p as [| x p]; [reflexivity |].
destruct r as [| a [| a' r]]; cbn [append]; [| | reflexivity].
- destruct d as [| y d]; [congruence | reflexivity].
- reflexivity.
Qed.

Lemma seg_search_final (b d : string) :
  every is_digit d = true -> d <> "" ->
  Geometry.seg_search (b ++ String "#" d) = Some d.
Proof.
intros Hd Hne. induction b as [| c b IH]; cbn [append Geometry.seg_search].
- unfold Geometry.seg_here. change (Ascii.eqb "#" "#") with true. cbv iota.
  rewrite <- (append_nil_r d) at 1.
  rewrite (span_digits_prefix d "" Hd eq_refl).
  destruct d; [congruence | reflexivity].
- rewrite (seg_here_early c b Hne). exact IH.
Qed.

Lemma read_numeral (d : Decimal.uint) :
  forall a : nat,
    read_digits (Z.of_nat a) (NilEmpty.string_of_uint d)
    = Some (Z.of_nat (Nat.of_uint_acc d a)).
Proof.
induction d as [| d IH | d IH | d IH | d IH | d IH | d IH | d IH | d IH
                | d IH | d IH]; intros a;
  cbn [NilEmpty.string_of_uint read_digits Nat.of_uint_acc];
  [reflexivity | ..];
  match goal with
  | |- (if is_digit ?c then _ else _) = _ =>
      change (is_digit c) with true; cbv iota
  end;
  rewrite <- IH; f_equal; rewrite Nat.tail_mul_spec;
  unfold digit_val; cbn [N_of_ascii N_of_digits]; lia.
Qed.

Lemma seg_search_none (s : string) :
  every (fun c => negb (Ascii.eqb c "#")) s = true ->
  Geometry.seg_search s = None.
Proof.
induction s as [| c s IH]; cbn [every Geometry.seg_search]; [reflexivity |].
intros H. apply andb_true_iff in H. destruct H as (Hc & Hs).
apply negb_true_iff in Hc. unfold Geometry.seg_here. rewrite Hc. apply IH, Hs.
Qed.

(** X6. The segment number of an edge.  An edge whose id ends with a hash
    sign and the decimal numeral of [n] has segment number [n], whatever
    comes before the hash sign, other hash signs included; an edge whose
    id has no hash sign has segment number 0. *)
Theorem seg_num_of_segment (e : edge) (base : string) (n : nat) :
  (getID e = base ++ String "#" (Samples.decimal n) ->
   Geometry.seg_num e = Z.of_nat n)
  /\ (every (fun c => negb (Ascii.eqb c "#")) (getID e) = true ->
      Geometry.seg_num e = 0%Z).
Proof.
split; intros H; unfold Geometry.seg_num.
- destruct (decimal_numeral n) as (Hd & Hne).
  rewrite H, (seg_search_final base Hd Hne). unfold Samples.decimal.
  change 0%Z with (Z.of_nat 0) at 1.
  rewrite (read_numeral (Nat.to_uint n) 0).
  change (Nat.of_uint_acc (Nat.to_uint n) 0) with (Nat.of_uint (Nat.to_uint n)).
  rewrite Unsigned.of_to. reflexivity.
- rewrite (seg_search_none _ H). reflexivity.
Qed.
End Ids.

Lemma edge_of_lane_inverse_witness :
  Aggregate.edge_of_lane "-12_a#3_0" = "-12_a#3"%string
  /\ Aggregate.edge_of_lane "0" = "0"%string.
Proof.
apply (@edge_of_lane_inverse "-12_a#3" "0"). vm_compute. reflexivity.
Defined.

Lemma base_id_of_way_witness :
  Geometry.base_id "123#4" = "123"%string
  /\ Geometry.base_id "-123#4" = "123"%string.
Proof.
destruct (@base_id_of_way "123" "#4") as (H1 & H2 & _);
  [vm_compute; reflexivity | discriminate | vm_compute; reflexivity
  | vm_compute; reflexivity |].
split; [exact H1 | exact H2].
Defined.

Lemma seg_num_of_segment_witness :
  Geometry.seg_num Samples.e1 = 1%Z.
Proof.
apply (proj1 (@seg_num_of_segment Samples.e1 "123" 1)). reflexivity.
Defined.

(** ** postprocess.py, step 3: the order of the segments *)

Section SortedEdges.
Import Geometry.

Lemma insert_asc_perm (x : edge) (l : list edge) :
  Permutation (x :: l) (insert_asc x l).
Proof.
induction l as [| y l IH]; cbn [insert_asc]; [apply Permutation_refl |].
destruct (seg_num x <=? seg_num y)%Z; [apply Permutation_refl |].
apply (perm_trans (perm_swap y x l)). apply perm_skip, IH.
Qed.

Lemma insert_asc_sorted (x : edge) (l : list edge) :
  Sorted Z.le (map seg_num l) -> Sorted Z.le (map seg_num (insert_asc x l)).
Proof.
induction l as [| y l IH]; cbn [insert_asc map]; intros Hs.
- repeat constructor.
- destruct (Z.leb_spec (seg_num x) (seg_num y)) as [Hle | Hgt]; cbn [map].
  + constructor; [exact Hs | constructor; exact Hle].
  + inversion Hs as [| ? ? Hs' Hhd]; subst.
    constructor; [apply IH, Hs' |].
    destruct l as [| z l]; cbn [insert_asc map].
    * constructor. lia.
    * destruct (seg_num x <=? seg_num z)%Z; cbn [map]; constructor;
        [lia | inversion Hhd; assumption].
Qed.

Lemma insert_asc_filter (k : Z) (x : edge) (l : list edge) :
  Sorted Z.le (map seg_num l) ->
  filter (fun e => (seg_num e =? k)%Z) (insert_asc x l)
  = filter (fun e => (seg_num e =? k)%Z) (x :: l).
Proof.
induction l as [| y l IH]; cbn [insert_asc]; intros Hs; [reflexivity |].
destruct (Z.leb_spec (seg_num x) (seg_num y)) as [Hle | Hgt]; [reflexivity |].
cbn [map] in Hs. inversion Hs as [| ? ? Hs' _]; subst.
cbn [filter]. rewrite (IH Hs'). cbn [filter].
destruct (Z.eqb_spec (seg_num y) k) as [Hy | Hy];
  destruct (Z.eqb_spec (seg_num x) k) as [Hx | Hx]; try reflexivity.
lia.
Qed.

Lemma sorted_edges_sorted (l : list edge) :
  Sorted Z.le (map seg_num (sorted_edges l)).
Proof.
unfold sorted_edges. induction l as [| x l IH]; cbn [fold_right map].
- constructor.
- apply insert_asc_sorted, IH.
Qed.

Lemma sorted_edges_perm (l : list edge) : Permutation l (sorted_edges l).
Proof.
unfold sorted_edges. induction l as [| x l IH]; cbn [fold_right].
- apply perm_nil.
- apply (perm_trans (perm_skip x IH)). apply insert_asc_perm.
Qed.

(** X7. The edges of a group in the order of the merge: the same edges,
    each as often as before, with segment numbers that never go down, and
    the edges of one segment number in the order they had: the sort is
    stable. *)
Theorem sorted_edges_stable (l : list edge) :
  Permutation l (sorted_edges l)
  /\ Sorted Z.le (map seg_num (sorted_edges l))
  /\ forall k,
       filter (fun e => (seg_num e =? k)%Z) (sorted_edges l)
       = filter (fun e => (seg_num e =? k)%Z) l.
Proof.
split; [apply sorted_edges_perm |]. split; [apply sorted_edges_sorted |].
intros k. induction l as [| x l IH]; [reflexivity |].
change (sorted_edges (x :: l)) with (insert_asc x (sorted_edges l)).
rewrite (@insert_asc_filter k x (sorted_edges l) (sorted_edges_sorted l)).
cbn [filter]. rewrite IH. reflexivity.
Qed.
End SortedEdges.

(** ** postprocess.py, step 3: the merged polyline *)

Section MergeLength.
Import Geometry.

Lemma merge_step_length (m ll : list point) :
  (List.length (merge_step m ll) <= List.length m + List.length ll)%nat
  /\ (List.length m + List.length ll
      <= List.length (merge_step m ll)
         + match m with [] => 0 | _ :: _ => 1 end)%nat
  /\ (m <> [] -> merge_step m ll <> []).
Proof.
unfold merge_step. destruct m as [| a m]; [cbn; repeat split; try lia; congruence |].
destruct ll as [| p tl]; [cbn; rewrite app_nil_r; repeat split; try lia; discriminate |].
destruct (coincide p (last (a :: m) p)); rewrite length_app; cbn [List.length];
  repeat split; try lia; discriminate.
Qed.

Lemma merge_step_In (m ll : list point) (p : point) :
  In p (merge_step m ll) -> In p m \/ In p ll.
Proof.
unfold merge_step. intros H. apply in_app_or in H. destruct H as [H | H]; [left; exact H |].
right. destruct m as [| a m]; [exact H |]. destruct ll as [| q tl]; [exact H |].
destruct (coincide q (last (a :: m) q)); [right; exact H | exact H].
Qed.

Lemma fold_merge_length (shapes : list (list point)) :
  forall acc,
    let res := fold_left merge_step shapes acc in
    let total := list_sum (map (@List.length point) shapes) in
    (List.length res <= List.length acc + total)%nat
    /\ (List.length acc + total
        <= List.length res
           + match acc with
             | [] => List.length shapes - 1
             | _ :: _ => List.length shapes
             end)%nat.
Proof.
induction shapes as [| ll shapes IH]; intros acc; cbn [fold_left map list_sum].
- cbv zeta. destruct acc; cbn [List.length list_sum fold_right]; split; lia.
- destruct (IH (merge_step acc ll)) as (H1 & H2).
  destruct (merge_step_length acc ll) as (L1 & L2 & L3).
  cbv zeta in *. unfold list_sum in *. cbn [List.length fold_right].
  split; [lia |].
  destruct acc as [| a acc].
  + destruct (merge_step [] ll); cbn [List.length] in *; lia.
  + destruct (merge_step (a :: acc) ll) as [| b r] eqn:E;
      [exfalso; apply L3; [discriminate | reflexivity] |].
    cbn [List.length] in *. lia.
Qed.

Lemma fold_merge_In (shapes : list (list point)) (p : point) :
  forall acc,
    In p (fold_left merge_step shapes acc) ->
    In p acc \/ exists ll, In ll shapes /\ In p ll.
Proof.
induction shapes as [| ll shapes IH]; intros acc; cbn [fold_left].
- intros H. left. exact H.
- intros H. destruct (IH _ H) as [H' | (l & Hl & Hp)].
  + destruct (merge_step_In _ _ _ H') as [Ha | Hb]; [left; exact Ha |].
    right. exists ll. split; [left; reflexivity | exact Hb].
  + right. exists l. split; [right; exact Hl | exact Hp].
Qed.

(** X8. The merged polyline of the edges of a group, for any edges and
    shapes: it has at most as many points as the shapes together and
    loses at most one point at each junction of two edges, and every point
    of it is a point of the shape of one of the edges. *)
Theorem merge_length_bounds (net : network) (es : list edge) :
  let total := list_sum (map (fun e => List.length (getShape e)) es) in
  (List.length (merge net es) <= total)%nat
  /\ (total <= List.length (merge net es) + (List.length es - 1))%nat
  /\ forall p, In p (merge net es) ->
       exists e, In e es /\ In p (lonlat net e).
Proof.
intros total. unfold merge.
destruct (fold_merge_length (map (lonlat net) es) []) as (H1 & H2).
cbv zeta in H1, H2. rewrite length_map in H2.
assert (Ht : list_sum (map (@List.length point) (map (lonlat net) es)) = total).
{ unfold total. rewrite map_map. f_equal. apply map_ext. intros e.
  unfold lonlat. apply length_map. }
rewrite Ht in H1, H2. cbn [List.length] in H1, H2.
split; [lia |]. split; [lia |].
intros p Hp. destruct (fold_merge_In _ _ _ Hp) as [[] | (ll & Hll & Hin)].
apply in_map_iff in Hll. destruct Hll as (e & <- & He).
exists e. split; assumption.
Qed.
End MergeLength.

(** ** postprocess.py, step 3: the groups *)

Lemma filter_none {A : Type} (p : A -> bool) (l : list A) :
  (forall x, In x l -> p x = false) -> filter p l = [].
Proof.
induction l as [| a l IH]; cbn [filter]; intros H; [reflexivity |].
rewrite (H a (or_introl eq_refl)). apply IH. intros x Hx. apply H. right. exact Hx.
Qed.

Section Groups.
Import Geometry.

Variable net : network.
Variable congestion : list (string * Aggregate.row).

(** The key of an edge, and the edges that the loop does not skip. *)
Let key_of (e : edge) : group_key :=
  (base_id (getID e), getLanes e, starts_with "-" (getID e)).

Let kept (e : edge) : bool :=
  negb (starts_with ":" (getID e)
        || match dict_get (getID e) congestion with
           | Some _ => false
           | None => true
           end).

Let turn (g : list (group_key * list edge)) (e : edge) :=
  if starts_with ":" (getID e)
     || match dict_get (getID e) congestion with
        | Some _ => false
        | None => true
        end
  then g
  else group_add (base_id (getID e), getLanes e, starts_with "-" (getID e)) e g.

Lemma key_eqb_eq (a b : group_key) : key_eqb a b = true <-> a = b.
Proof.
destruct a as [[s n] x], b as [[s' n'] x']. unfold key_eqb. cbn [fst snd].
rewrite !andb_true_iff, String.eqb_eq, Nat.eqb_eq, Bool.eqb_true_iff.
split; [intros ((-> & ->) & ->); reflexivity | intros [= -> -> ->]; auto].
Qed.

Lemma key_eqb_refl (a : group_key) : key_eqb a a = true.
Proof. apply key_eqb_eq. reflexivity. Qed.

Lemma key_eqb_neq (a b : group_key) : a <> b -> key_eqb a b = false.
Proof.
intros H. apply not_true_is_false. intros E. apply key_eqb_eq in E. tauto.
Qed.

Lemma group_add_keys (k : group_key) (e : edge) (g : list (group_key * list edge)) :
  (In k (map fst g) -> map fst (group_add k e g) = map fst g)
  /\ (~ In k (map fst g) -> map fst (group_add k e g) = map fst g ++ [k]).
Proof.
induction g as [| [k' es] g (IH1 & IH2)]; cbn [group_add map fst In].
- split; [intros [] | reflexivity].
- destruct (key_eqb k' k) eqn:E; cbn [map fst].
  + apply key_eqb_eq in E. subst k'. split; [reflexivity | tauto].
  + split.
    * intros [-> | H]; [rewrite key_eqb_refl in E; discriminate |].
      rewrite (IH1 H). reflexivity.
    * intros H. rewrite IH2 by tauto. reflexivity.
Qed.

Lemma group_add_In (k : group_key) (e : edge) (g : list (group_key * list edge))
  (k' : group_key) (es' : list edge) :
  NoDup (map fst g) ->
  In (k', es') (group_add k e g) ->
  (k' <> k /\ In (k', es') g)
  \/ (k' = k /\ exists es, In (k, es) g /\ es' = es ++ [e])
  \/ (k' = k /\ ~ In k (map fst g) /\ es' = [e]).
Proof.
induction g as [| [k0 es0] g IH]; cbn [group_add map fst]; intros Hnd.
- intros [[= <- <-] | []]. right. right. repeat split. intros [].
- inversion Hnd as [| ? ? Hk0 Hnd']; subst.
  destruct (key_eqb k0 k) eqn:E.
  + apply key_eqb_eq in E. subst k0. intros [[= <- <-] | H].
    * right. left. split; [reflexivity |]. exists es0. split; [left |]; reflexivity.
    * left. split; [| right; exact H].
      intros ->. apply Hk0. apply (in_map fst) in H. exact H.
  + assert (Hne : k0 <> k)
      by (intros ->; rewrite key_eqb_refl in E; discriminate).
    intros [[= <- <-] | H].
    * left. split; [exact Hne | left; reflexivity].
    * destruct (IH Hnd' H) as [(H1 & H2) | [(H1 & es & H2 & H3) | (H1 & H2 & H3)]].
      -- left. split; [exact H1 | right; exact H2].
      -- right. left. split; [exact H1 |]. exists es. split; [right |]; assumption.
      -- right. right. split; [exact H1 |]. split; [| exact H3].
         cbn [In]. intros [Hx | Hx]; [congruence | tauto].
Qed.

(** What the loop has built after the edges [done]. *)
Let built (done : list edge) (g : list (group_key * list edge)) : Prop :=
  NoDup (map fst g)
  /\ (forall k es, In (k, es) g ->
        es <> []
        /\ es = filter (fun e => kept e && key_eqb (key_of e) k) done)
  /\ (forall e, In e done -> kept e = true -> In (key_of e) (map fst g)).

Lemma built_turn (done : list edge) (g : list (group_key * list edge))
  (e : edge) :
  built done g -> built (done ++ [e]) (turn g e).
Proof.
intros (Hnd & Hgroups & Hkeys). unfold turn.
destruct (starts_with ":" (getID e)
          || match dict_get (getID e) congestion with
             | Some _ => false
             | None => true
             end) eqn:Eskip.
- assert (Hk : kept e = false) by (unfold kept; rewrite Eskip; reflexivity).
  split; [exact Hnd |]. split.
  + intros k es Hin. destruct (Hgroups k es Hin) as (Hne & ->).
    split; [exact Hne |]. rewrite filter_app. cbn [filter]. rewrite Hk.
    cbn [andb]. rewrite app_nil_r. reflexivity.
  + intros e' Hin He'. apply in_app_or in Hin. destruct Hin as [Hin | [<- | []]].
    * apply Hkeys; assumption.
    * congruence.
- assert (Hk : kept e = true) by (unfold kept; rewrite Eskip; reflexivity).
  fold (key_of e).
  destruct (group_add_keys (key_of e) e g) as (Kin & Kout).
  destruct (in_dec (fun a b : group_key =>
                      ltac:(repeat decide equality) : {a = b} + {a <> b})
              (key_of e) (map fst g)) as [Hin | Hout].
  + split; [rewrite (Kin Hin); exact Hnd |]. split.
    * intros k es H.
      destruct (group_add_In _ _ _ _ _ Hnd H)
        as [(H1 & H2) | [(H1 & es0 & H2 & H3) | (H1 & H2 & H3)]].
      -- destruct (Hgroups k es H2) as (Hne & ->). split; [exact Hne |].
         rewrite filter_app. cbn [filter].
         rewrite (key_eqb_neq (fun E => H1 (eq_sym E))), andb_false_r.
         rewrite app_nil_r. reflexivity.
      -- subst k es. destruct (Hgroups _ _ H2) as (Hne & ->).
         split; [intros E; apply app_eq_nil in E; destruct E; discriminate |].
         rewrite filter_app. cbn [filter]. rewrite Hk, key_eqb_refl.
         reflexivity.
      -- tauto.
    * intros e' Hin' He'. rewrite (Kin Hin).
      apply in_app_or in Hin'. destruct Hin' as [Hin' | [<- | []]];
        [apply Hkeys; assumption | exact Hin].
  + split.
    { rewrite (Kout Hout). apply NoDup_app; [exact Hnd | repeat constructor; intros [] |].
      intros x Hx [<- | []]. exact (Hout Hx). }
    split.
    * intros k es H.
      destruct (group_add_In _ _ _ _ _ Hnd H)
        as [(H1 & H2) | [(H1 & es0 & H2 & H3) | (H1 & H2 & H3)]].
      -- destruct (Hgroups k es H2) as (Hne & ->). split; [exact Hne |].
         rewrite filter_app. cbn [filter].
         rewrite (key_eqb_neq (fun E => H1 (eq_sym E))), andb_false_r.
         rewrite app_nil_r. reflexivity.
      -- exfalso. apply Hout. apply (in_map fst) in H2. exact H2.
      -- subst k es. split; [discriminate |].
         rewrite filter_app. cbn [filter]. rewrite Hk, key_eqb_refl. cbn [andb].
         replace (filter (fun e0 => kept e0 && key_eqb (key_of e0) (key_of e)) done)
           with (@nil edge); [reflexivity |].
         symmetry. apply filter_none.
         intros x Hx.
         destruct (kept x) eqn:Ex; [| reflexivity]. cbn [andb].
         apply key_eqb_neq. intros E. apply Hout. rewrite <- E.
         apply Hkeys; assumption.
    * intros e' Hin' He'. rewrite (Kout Hout). apply in_or_app.
      apply in_app_or in Hin'. destruct Hin' as [Hin' | [<- | []]];
        [left; apply Hkeys; assumption | right; left; reflexivity].
Qed.

Lemma built_fold (todo : list edge) :
  forall done g,
    built done g -> built (done ++ todo) (fold_left turn todo g).
Proof.
induction todo as [| e todo IH]; intros done g H; cbn [fold_left].
- rewrite app_nil_r. exact H.
- replace (done ++ e :: todo) with ((done ++ [e]) ++ todo)
    by (rewrite <- app_assoc; reflexivity).
  apply IH, built_turn, H.
Qed.

Lemma groups_built : built (getEdges net) (groups net congestion).
Proof.
apply (@built_fold (getEdges net) [] []).
split; [constructor |]. split; [intros k es [] | intros e []].
Qed.

(** Every edge of a group is an edge of the network. *)
Lemma group_edges_known (k : group_key) (es : list edge) (e : edge) :
  In (k, es) (groups net congestion) -> In e es -> In e (getEdges net).
Proof.
intros Hin He. destruct groups_built as (_ & H & _).
destruct (H k es Hin) as (_ & Hes). rewrite Hes in He.
apply filter_In in He. apply He.
Qed.

(** X9. The groups of step 3, for any network and any table of rows.  No
    two groups have the same key; each group is not empty and holds
    exactly the edges of the network, in its order, that are no internal
    edges (no colon in front), have a row, and have the key of the group:
    base id, number of lanes and direction; and the key of every such edge
    is the key of a group. *)
Theorem groups_partition :
  let gs := groups net congestion in
  NoDup (map fst gs)
  /\ (forall k es,
        In (k, es) gs ->
        es <> []
        /\ es = filter
                  (fun e =>
                     negb (starts_with ":" (getID e)
                           || match dict_get (getID e) congestion with
                              | Some _ => false
                              | None => true
                              end)
                     && key_eqb
                          (base_id (getID e), getLanes e,
                           starts_with "-" (getID e)) k)
                  (getEdges net))
  /\ (forall e,
        In e (getEdges net) ->
        starts_with ":" (getID e) = false ->
        dict_get (getID e) congestion <> None ->
        In (base_id (getID e), getLanes e, starts_with "-" (getID e))
          (map fst gs)).
Proof.
destruct groups_built as (H1 & H2 & H3). cbv zeta.
split; [exact H1 |]. split; [exact H2 |].
intros e He Hc Hr. apply (H3 e He). unfold kept. rewrite Hc.
destruct (dict_get (getID e) congestion); [reflexivity | congruence].
Qed.
End Groups.

(** ** postprocess.py, step 3: the lane offset *)

Section OffsetMirror.
Import Geometry.
Variable sqrt : Q -> Q.

(** X10. The lane offset outside the lines it is called on: an empty
    polyline comes back empty, and a polyline of one point raises
    [IndexError], since the direction at its only vertex reads the second
    one. *)
Theorem offset_line_short (p : point) (offset_m : Q) :
  offset_line sqrt [] offset_m = Ok []
  /\ offset_line sqrt [p] offset_m = Raise IndexError.
Proof.
split; reflexivity.
Qed.

Lemma offset_vertex_mirror (coords : list point) (off off' : Q) (n i : Z)
  (pt p p' : point) :
  (off' == - off)%Q ->
  offset_vertex sqrt coords off n i pt = Ok p ->
  offset_vertex sqrt coords off' n i pt = Ok p' ->
  (fst p + fst p' == 2 * fst pt)%Q /\ (snd p + snd p' == 2 * snd pt)%Q.
Proof.
intros Hoff. unfold offset_vertex.
destruct (direction coords n i) as [d | e]; cbn [bind]; [| discriminate].
destruct (Qeq_bool (norm sqrt d) 0) eqn:E.
- intros [= <-] [= <-]. split; ring.
- unfold py_div. rewrite E. cbn [bind]. intros [= <-] [= <-]. cbn [fst snd].
  split; rewrite Hoff; field; intros H;
    rewrite (proj2 (Qeq_bool_iff _ _) H) in E; discriminate E.
Qed.

Lemma offset_loop_mirror (coords : list point) (off off' : Q) (n : Z) :
  (off' == - off)%Q ->
  forall (todo : list point) (i : Z) (r r' : list point),
    offset_loop sqrt coords off n i todo = Ok r ->
    offset_loop sqrt coords off' n i todo = Ok r' ->
    Forall2
      (fun pt pp =>
         (fst (fst pp) + fst (snd pp) == 2 * fst pt)%Q
         /\ (snd (fst pp) + snd (snd pp) == 2 * snd pt)%Q)
      todo (combine r r').
Proof.
intros Hoff. induction todo as [| pt todo IH]; intros i r r'; cbn [offset_loop].
- intros [= <-] [= <-]. constructor.
- destruct (offset_vertex sqrt coords off n i pt) as [p | e] eqn:Ep;
    cbn [bind]; [| discriminate].
  destruct (offset_loop sqrt coords off n (i + 1) todo) as [ps | e] eqn:Eps;
    cbn [bind]; [| discriminate].
  intros [= <-].
  destruct (offset_vertex sqrt coords off' n i pt) as [p' | e] eqn:Ep';
    cbn [bind]; [| discriminate].
  destruct (offset_loop sqrt coords off' n (i + 1) todo) as [ps' | e] eqn:Eps';
    cbn [bind]; [| discriminate].
  intros [= <-]. cbn [combine]. constructor.
  + cbn [fst snd]. apply (@offset_vertex_mirror coords off off' n i pt p p' Hoff Ep Ep').
  + apply (IH (i + 1)%Z ps ps' Eps Eps').
Qed.

Lemma self_mirror (r : list point) :
  forall l : list point,
    Forall2
      (fun pt pp =>
         (fst (fst pp) + fst (snd pp) == 2 * fst pt)%Q
         /\ (snd (fst pp) + snd (snd pp) == 2 * snd pt)%Q)
      l (combine r r) ->
    Forall2 (fun pt p => (fst p == fst pt)%Q /\ (snd p == snd pt)%Q) l r.
Proof.
induction r as [| p r IH]; intros l Hm; cbn [combine] in Hm;
  inversion Hm as [| pt pp l' c' (Hx & Hy) Hrest]; subst; constructor.
- cbn [fst snd] in Hx, Hy. split; lra.
- apply IH, Hrest.
Qed.

(** X11. Opposite offsets give mirror images.  On a polyline of at least
    two points, for an offset and its opposite, [offset_line] gives two
    polylines whose points, vertex by vertex, have the vertex of the
    polyline as their middle; with the offset zero, as for the middle lane
    of an odd number of lanes, the result is the polyline itself, up to
    equality of the numbers. *)
Theorem offset_line_mirror (coords : list point) (off off' : Q) :
  (2 <= List.length coords)%nat ->
  (off' == - off)%Q ->
  exists r r',
    offset_line sqrt coords off = Ok r
    /\ offset_line sqrt coords off' = Ok r'
    /\ Forall2
         (fun pt pp =>
            (fst (fst pp) + fst (snd pp) == 2 * fst pt)%Q
            /\ (snd (fst pp) + snd (snd pp) == 2 * snd pt)%Q)
         coords (combine r r')
    /\ ((off == 0)%Q ->
        Forall2 (fun pt p => (fst p == fst pt)%Q /\ (snd p == snd pt)%Q)
          coords r).
Proof.
intros Hn Hoff.
destruct (@offset_line_ok sqrt coords off Hn) as (r & Hr & Hl & _).
destruct (@offset_line_ok sqrt coords off' Hn) as (r' & Hr' & Hl' & _).
exists r, r'. split; [exact Hr |]. split; [exact Hr' |]. split.
- apply (@offset_loop_mirror coords off off' _ Hoff coords 0%Z r r' Hr Hr').
- intros H0.
  assert (Hself : (off == - off)%Q) by (rewrite H0; reflexivity).
  pose proof (@offset_loop_mirror coords off off _ Hself coords 0%Z r r Hr Hr)
    as Hm.
  apply self_mirror, Hm.
Qed.
End OffsetMirror.

Lemma offset_line_mirror_witness :
  exists r r',
    Geometry.offset_line Samples.sqrt6 [(0, 0); (3, 4)]
      (Geometry.lane_offset 2 0) = Ok r
    /\ Geometry.offset_line Samples.sqrt6 [(0, 0); (3, 4)]
         (Geometry.lane_offset 2 1) = Ok r'
    /\ List.length (combine r r') = 2%nat.
Proof.
destruct (@offset_line_mirror Samples.sqrt6 [(0, 0); (3, 4)]
            (Geometry.lane_offset 2 0) (Geometry.lane_offset 2 1))
  as (r & r' & Hr & Hr' & Hm & _).
- cbn. lia.
- vm_compute. reflexivity.
- exists r, r'. split; [exact Hr |]. split; [exact Hr' |].
  apply Forall2_length in Hm. symmetry. exact Hm.
Defined.

(** ** postprocess.py, step 3: the features *)

Section FeatureFacts.
Import Geometry.
Variable sqrt : Q -> Q.
Variable net : network.
Variable congestion : list (string * Aggregate.row).

Lemma offset_loop_length (coords : list point) (off : Q) (n : Z) :
  forall (todo : list point) (i : Z) (r : list point),
    offset_loop sqrt coords off n i todo = Ok r ->
    List.length r = List.length todo.
Proof.
induction todo as [| pt todo IH]; intros i r; cbn [offset_loop].
- intros [= <-]. reflexivity.
- destruct (offset_vertex sqrt coords off n i pt) as [p | e]; cbn [bind];
    [| discriminate].
  destruct (offset_loop sqrt coords off n (i + 1) todo) as [ps | e] eqn:E;
    cbn [bind]; [| discriminate].
  intros [= <-]. cbn [List.length]. rewrite (IH _ _ E). reflexivity.
Qed.

Lemma collect_Forall {A B : Type} (f : A -> result B) (P : B -> Prop)
  (l : list A) :
  (forall a b, In a l -> f a = Ok b -> P b) ->
  forall bs, Aggregate.collect f l = Ok bs -> Forall P bs.
Proof.
induction l as [| a l IH]; intros Hf bs; cbn [Aggregate.collect].
- intros [= <-]. constructor.
- destruct (f a) as [b | e] eqn:E; cbn [bind]; [| discriminate].
  destruct (Aggregate.collect f l) as [bs' | e]; cbn [bind]; [| discriminate].
  intros [= <-]. constructor.
  + apply (Hf a b (or_introl eq_refl) E).
  + apply IH; [| reflexivity]. intros a' b' Hin. apply Hf. right. exact Hin.
Qed.

Lemma sr_to_color_in_colors (r : Q) : In (sr_to_color r) Bands.colors.
Proof.
rewrite sr_to_color_band. apply nth_In. apply band_lt_6.
Qed.

Lemma group_features_valid (key : group_key) (edges : list edge)
  (fs : list feature) :
  group_features sqrt net congestion key edges = Ok fs ->
  Forall
    (fun f =>
       (2 <= List.length (coordinates f))%nat
       /\ (1 <= n_lanes f)%nat /\ n_lanes f = snd (fst key)
       /\ In (color f) Bands.colors)
    fs.
Proof.
unfold group_features.
destruct (List.length (merge net (sorted_edges edges)) <? 2)%nat eqn:Elen;
  [intros [= <-]; constructor |].
apply Nat.ltb_ge in Elen.
destruct (weighted congestion (sorted_edges edges)) as [| rw rws];
  [intros [= <-]; constructor |].
destruct (py_div _ _) as [avg_sr | e]; cbn [bind]; [| discriminate].
destruct (py_div _ _) as [avg_flow | e]; cbn [bind]; [| discriminate].
destruct (Nat.eqb_spec (snd (fst key)) 1) as [E1 | E1].
- intros [= <-]. constructor; [| constructor].
  cbn [coordinates n_lanes color]. split; [exact Elen |]. split; [lia |].
  split; [symmetry; exact E1 | apply sr_to_color_in_colors].
- apply collect_Forall. intros li f Hli.
  destruct (offset_line sqrt _ _) as [coords | e] eqn:Eo; cbn [bind];
    [| discriminate].
  intros [= <-]. cbn [coordinates n_lanes color].
  unfold offset_line in Eo. rewrite (offset_loop_length _ _ _ _ _ Eo).
  apply in_seq in Hli.
  repeat split; try lia; try reflexivity. apply sr_to_color_in_colors.
Qed.

(** X12. What step 3 writes, for any network and any rows: when the loop
    over the groups ends without an exception, every feature is a line of
    at least two points, has at least one lane, and has one of the six
    colours of the classifier. *)
Theorem features_valid (fs : list feature) :
  features sqrt net congestion = Ok fs ->
  Forall
    (fun f =>
       (2 <= List.length (coordinates f))%nat
       /\ (1 <= n_lanes f)%nat
       /\ In (color f) Bands.colors)
    fs.
Proof.
unfold features. generalize (groups net congestion). intros gs. revert fs.
induction gs as [| [k es] gs IH]; intros fs; cbn [all_features].
- intros [= <-]. constructor.
- destruct (group_features sqrt net congestion k es) as [fs1 | e] eqn:E1;
    cbn [bind]; [| discriminate].
  destruct (all_features sqrt net congestion gs) as [fs2 | e]; cbn [bind];
    [| discriminate].
  intros [= <-]. apply Forall_app. split; [| apply IH; reflexivity].
  eapply Forall_impl; [| exact (group_features_valid _ _ E1)].
  cbn. intros f (H1 & H2 & _ & H3). repeat split; assumption.
Qed.
End FeatureFacts.

Section FeaturesTotal.
Import Geometry.
Variable sqrt : Q -> Q.
Variable net : network.
Variable congestion : list (string * Aggregate.row).

Lemma weighted_positive (edges : list edge) :
  (forall e, In e edges -> (0 < getLength e)%Q) ->
  Forall (fun rw => (0 < snd rw)%Q) (weighted congestion edges).
Proof.
unfold weighted. induction edges as [| e edges IH]; intros H; cbn [flat_map].
- constructor.
- apply Forall_app. split.
  + destruct (dict_get (getID e) congestion); [| constructor].
    constructor; [| constructor]. cbn [snd]. apply H. left. reflexivity.
  + apply IH. intros e' He'. apply H. right. exact He'.
Qed.

Lemma Qsum_positive (l : list Q) :
  l <> [] -> Forall (fun x => (0 < x)%Q) l -> (0 < Aggregate.Qsum l)%Q.
Proof.
intros Hne Hall. induction Hall as [| x l Hx Hall IH]; [congruence |].
unfold Aggregate.Qsum. cbn [fold_right]. fold (Aggregate.Qsum l).
destruct l as [| y l].
- unfold Aggregate.Qsum. cbn [fold_right]. lra.
- assert (H := IH ltac:(discriminate)). lra.
Qed.

Lemma py_div_positive (a b : Q) : (0 < b)%Q -> py_div a b = Ok (a / b)%Q.
Proof.
intros Hb. unfold py_div.
destruct (Qeq_bool b 0) eqn:E; [| reflexivity].
apply Qeq_bool_iff in E. lra.
Qed.

Lemma group_features_total (key : group_key) (edges : list edge) :
  (forall e, In e edges -> (0 < getLength e)%Q) ->
  exists fs, group_features sqrt net congestion key edges = Ok fs.
Proof.
intros Hpos. unfold group_features.
destruct (List.length (merge net (sorted_edges edges)) <? 2)%nat eqn:Elen;
  [eexists; reflexivity |].
apply Nat.ltb_ge in Elen.
assert (Hw : Forall (fun rw => (0 < snd rw)%Q)
               (weighted congestion (sorted_edges edges))).
{ apply weighted_positive. intros e He. apply Hpos.
  apply (Permutation_in e (Permutation_sym (sorted_edges_perm edges)) He). }
destruct (weighted congestion (sorted_edges edges)) as [| rw rws] eqn:Ew;
  [eexists; reflexivity |].
assert (HW : (0 < Aggregate.Qsum (map snd (rw :: rws)))%Q).
{ apply Qsum_positive; [discriminate |]. apply Forall_map. exact Hw. }
rewrite !(py_div_positive _ HW). cbn [bind].
destruct (snd (fst key) =? 1)%nat; [eexists; reflexivity |].
match goal with
| |- exists fs, Aggregate.collect ?f ?l = Ok fs =>
    destruct (@collect_ok _ _ f l) as (fs & Hfs & _); [| exists fs; exact Hfs]
end.
intros li _.
destruct (@offset_line_ok sqrt (merge net (sorted_edges edges))
            (lane_offset (snd (fst key)) li) Elen) as (r & -> & _).
cbn [bind]. eexists. reflexivity.
Qed.

Lemma features_exist :
  (forall e, In e (getEdges net) -> (0 < getLength e)%Q) ->
  exists fs, features sqrt net congestion = Ok fs.
Proof.
intros Hpos. unfold features.
assert (Hgroups : forall k es e,
          In (k, es) (groups net congestion) -> In e es ->
          In e (getEdges net))
  by (intros k es e; apply (@group_edges_known net congestion k es e)).
revert Hgroups.
generalize (groups net congestion). intros gs.
induction gs as [| [k es] gs IH]; intros Hgs; cbn [all_features].
- eexists. reflexivity.
- destruct (group_features_total k es) as (fs1 & ->).
  { intros e He. apply Hpos. apply (Hgs k es e (or_introl eq_refl) He). }
  destruct IH as (fs2 & ->).
  { intros k' es' e Hin. apply (Hgs k' es' e). right. exact Hin. }
  cbn [bind]. eexists. reflexivity.
Qed.

(** X13. Step 3 raises nothing when every edge of the network has a
    positive length, whatever the shapes and the rows: the loop over the
    groups ends with a list of features.  (With lengths that sum to zero
    in a group, the weighted mean divides by zero.) *)
Theorem features_total :
  (forall e, In e (getEdges net) -> (0 < getLength e)%Q) ->
  exists fs, features sqrt net congestion = Ok fs.
Proof.
exact features_exist.
Qed.
End FeaturesTotal.

Lemma features_valid_witness :
  exists fs,
    Geometry.features Samples.sqrt6 Samples.net Samples.congestion = Ok fs
    /\ Forall (fun f => (2 <= List.length (Geometry.coordinates f))%nat) fs.
Proof.
eexists. split; [vm_compute; reflexivity |].
eapply Forall_impl;
  [| apply (@features_valid Samples.sqrt6 Samples.net Samples.congestion);
     vm_compute; reflexivity].
cbn. intros f (H & _). exact H.
Defined.

Lemma features_total_witness :
  exists fs,
    Geometry.features Samples.sqrt6 Samples.net Samples.congestion = Ok fs.
Proof.
apply (@features_total Samples.sqrt6 Samples.net Samples.congestion).
intros e [<- | [<- | []]]; vm_compute; reflexivity.
Defined.

(** ** make_deckgl.py: the cut to the longest trajectories *)

Section SortedReverseOrder.
Context {A : Type}.
Variable key : A -> nat.

Lemma insert_desc_perm (x : A) (l : list A) :
  Permutation (x :: l) (MakeDeckgl.insert_desc key x l).
Proof.
induction l as [| y l IH]; cbn [MakeDeckgl.insert_desc]; [apply Permutation_refl |].
destruct (key x <? key y)%nat; [| apply Permutation_refl].
apply (perm_trans (perm_swap y x l)). apply perm_skip, IH.
Qed.

Lemma sorted_reverse_perm (l : list A) :
  Permutation l (MakeDeckgl.sorted_reverse key l).
Proof.
unfold MakeDeckgl.sorted_reverse. induction l as [| x l IH]; cbn [fold_right].
- apply perm_nil.
- apply (perm_trans (perm_skip x IH)). apply insert_desc_perm.
Qed.

Lemma insert_desc_sorted (x : A) (l : list A) :
  StronglySorted (fun a b => (key b <= key a)%nat) l ->
  StronglySorted (fun a b => (key b <= key a)%nat)
    (MakeDeckgl.insert_desc key x l).
Proof.
induction l as [| y l IH]; cbn [MakeDeckgl.insert_desc]; intros Hs.
- repeat constructor.
- inversion Hs as [| ? ? Hs' Hall]; subst.
  destruct (Nat.ltb_spec (key x) (key y)) as [Hlt | Hge].
  + constructor; [apply IH, Hs' |].
    apply (Permutation_Forall (insert_desc_perm x l)).
    constructor; [lia | exact Hall].
  + constructor; [exact Hs |]. constructor; [exact Hge |].
    eapply Forall_impl; [| exact Hall]. cbn. intros a Ha. lia.
Qed.

Lemma sorted_reverse_sorted (l : list A) :
  StronglySorted (fun a b => (key b <= key a)%nat)
    (MakeDeckgl.sorted_reverse key l).
Proof.
unfold MakeDeckgl.sorted_reverse. induction l as [| x l IH]; cbn [fold_right].
- constructor.
- apply insert_desc_sorted, IH.
Qed.

Lemma sorted_split (n : nat) (l : list A) (a b : A) :
  StronglySorted (fun a b => (key b <= key a)%nat) l ->
  In a (firstn n l) -> In b (skipn n l) -> (key b <= key a)%nat.
Proof.
revert n. induction l as [| x l IH]; intros [| n] Hs; cbn [firstn skipn];
  try (intros []; fail).
inversion Hs as [| ? ? Hs' Hall]; subst.
intros [<- | Ha] Hb.
- rewrite Forall_forall in Hall. apply Hall.
  rewrite <- (firstn_skipn n l). apply in_or_app. right. exact Hb.
- apply (IH n Hs' Ha Hb).
Qed.
End SortedReverseOrder.

Lemma NoDup_keys_filter {A B : Type} (p : A * B -> bool) (l : list (A * B)) :
  NoDup (map fst l) -> NoDup (map fst (filter p l)).
Proof.
induction l as [| a l IH]; cbn [map filter]; intros H; [constructor |].
inversion H as [| ? ? Hn Hnd]; subst.
destruct (p a); cbn [map]; [| apply IH, Hnd].
constructor; [| apply IH, Hnd].
intros Hin. apply Hn. apply in_map_iff in Hin. destruct Hin as (x & <- & Hx).
apply in_map, (proj1 (filter_In _ _ _) Hx).
Qed.

Lemma NoDup_firstn' {A : Type} (n : nat) (l : list A) :
  NoDup l -> NoDup (firstn n l).
Proof.
intros H. rewrite <- (firstn_skipn n l) in H. apply NoDup_app_remove_r in H.
exact H.
Qed.

Lemma StronglySorted_firstn {A : Type} (R : A -> A -> Prop) (n : nat)
  (l : list A) :
  StronglySorted R l -> StronglySorted R (firstn n l).
Proof.
revert n. induction l as [| x l IH]; intros [| n] H; cbn [firstn];
  try constructor.
- inversion H; subst. apply IH. assumption.
- inversion H as [| ? ? _ Hall]; subst. rewrite Forall_forall in *.
  intros y Hy. apply Hall. apply (@firstn_In _ n y l Hy).
Qed.

Lemma StronglySorted_map {A B : Type} (R : B -> B -> Prop) (g : A -> B)
  (l : list A) :
  StronglySorted (fun a b => R (g a) (g b)) l -> StronglySorted R (map g l).
Proof.
induction 1 as [| x l _ IH Hall]; cbn [map]; constructor; [exact IH |].
apply Forall_map. exact Hall.
Qed.

Section KeepsLongest.
Import MakeDeckgl.

Variable tbl : trajectories.
Hypothesis tbl_keys : NoDup (map fst tbl).

Let valid : trajectories :=
  filter (fun e => (MIN_WAYPOINTS <=? List.length (snd e))%nat) tbl.

Lemma valid_keys : NoDup (map fst valid).
Proof. apply NoDup_keys_filter, tbl_keys. Qed.

Lemma waypoints_of_valid (v : string) (w : list waypoint) :
  In (v, w) valid -> waypoints_of valid v = w.
Proof.
intros H. unfold waypoints_of.
rewrite (@In_dict_get _ v w valid valid_keys H). reflexivity.
Qed.

Lemma valid_key_entry (v : string) :
  In v (map fst valid) -> In (v, waypoints_of valid v) valid.
Proof.
intros H. apply in_map_iff in H. destruct H as ([v' w] & <- & Hin).
cbn [fst]. rewrite (@waypoints_of_valid v' w Hin). exact Hin.
Qed.

Lemma finalize_facts :
  NoDup (map fst (finalize tbl))
  /\ (forall e, In e (finalize tbl) ->
        In e tbl /\ (MIN_WAYPOINTS <= List.length (snd e))%nat)
  /\ ((List.length
         (filter (fun e => (MIN_WAYPOINTS <=? List.length (snd e))%nat) tbl)
       <= MAX_VEHICLES)%nat ->
      finalize tbl
      = filter (fun e => (MIN_WAYPOINTS <=? List.length (snd e))%nat) tbl)
  /\ ((MAX_VEHICLES
       < List.length
           (filter (fun e => (MIN_WAYPOINTS <=? List.length (snd e))%nat) tbl))%nat ->
      List.length (finalize tbl) = MAX_VEHICLES
      /\ StronglySorted
           (fun a b => (List.length (snd b) <= List.length (snd a))%nat)
           (finalize tbl)
      /\ forall e e',
           In e (finalize tbl) ->
           In e' tbl ->
           (MIN_WAYPOINTS <= List.length (snd e'))%nat ->
           ~ In e' (finalize tbl) ->
           (List.length (snd e') <= List.length (snd e))%nat).
Proof.
fold valid. unfold finalize. fold valid.
set (key := fun v => List.length (waypoints_of valid v)).
set (sorted := sorted_reverse key (map fst valid)).
set (M := MAX_VEHICLES).
assert (Hperm : Permutation (map fst valid) sorted)
  by apply sorted_reverse_perm.
assert (Hsorted : StronglySorted (fun a b => (key b <= key a)%nat) sorted)
  by apply sorted_reverse_sorted.
assert (Hin_valid : forall e, In e valid ->
          In e tbl /\ (MIN_WAYPOINTS <= List.length (snd e))%nat).
{ intros e He. apply filter_In in He. destruct He as (H1 & H2).
  split; [exact H1 | apply Nat.leb_le, H2]. }
assert (Hout : forall e,
          In e (map (fun vid => (vid, waypoints_of valid vid)) (firstn M sorted)) ->
          In e valid /\ In (fst e) (firstn M sorted)).
{ intros e He. apply in_map_iff in He. destruct He as (v & <- & Hv).
  split; [| exact Hv]. apply valid_key_entry.
  apply (Permutation_in v (Permutation_sym Hperm)), (@firstn_In _ M v sorted Hv). }
destruct (Nat.ltb_spec M (List.length valid)) as [Hlt | Hge].
- split; [| split; [| split]].
  + rewrite map_map. cbn [fst]. rewrite map_id. apply NoDup_firstn'.
    apply (Permutation_NoDup Hperm valid_keys).
  + intros e He. apply Hin_valid, Hout, He.
  + intros H. lia.
  + intros _. split; [| split].
    * rewrite length_map, length_firstn.
      rewrite <- (Permutation_length Hperm), length_map. lia.
    * apply StronglySorted_map. cbn [snd].
      apply (StronglySorted_firstn M Hsorted).
    * intros e e' He He' Hlen' Hnot.
      destruct (Hout e He) as (Hev & Hk).
      assert (He'v : In e' valid).
      { apply filter_In. split; [exact He' | apply Nat.leb_le, Hlen']. }
      destruct e as [v w], e' as [v' w']. cbn [fst snd] in *.
      assert (Hv' : In v' (skipn M sorted)).
      { assert (H : In v' sorted)
          by (apply (Permutation_in v' Hperm), (in_map fst _ _ He'v)).
        rewrite <- (firstn_skipn M sorted) in H. apply in_app_or in H.
        destruct H as [H | H]; [| exact H]. exfalso. apply Hnot.
        apply in_map_iff. exists v'. split; [| exact H].
        rewrite (@waypoints_of_valid v' w' He'v). reflexivity. }
      pose proof (@sorted_split _ key M sorted v v' Hsorted Hk Hv') as Hle.
      unfold key in Hle.
      rewrite (@waypoints_of_valid v w Hev), (@waypoints_of_valid v' w' He'v) in Hle.
      exact Hle.
- split; [exact valid_keys |]. split; [exact Hin_valid |].
  split; [reflexivity |]. intros H. lia.
Qed.

(** X14. The cut of make_deckgl.py, on a table with no vehicle twice, as
    the scan builds it.  The output has no vehicle twice and holds only
    trajectories of at least [MIN_WAYPOINTS] waypoints of the table.  With
    at most [MAX_VEHICLES] of them it is all of them in the order of the
    table.  With more, it is exactly [MAX_VEHICLES] of them, the longest
    first, and no trajectory left out is longer than one kept. *)
Theorem finalize_keeps_longest :
  NoDup (map fst (finalize tbl))
  /\ (forall e, In e (finalize tbl) ->
        In e tbl /\ (MIN_WAYPOINTS <= List.length (snd e))%nat)
  /\ ((List.length
         (filter (fun e => (MIN_WAYPOINTS <=? List.length (snd e))%nat) tbl)
       <= MAX_VEHICLES)%nat ->
      finalize tbl
      = filter (fun e => (MIN_WAYPOINTS <=? List.length (snd e))%nat) tbl)
  /\ ((MAX_VEHICLES
       < List.length
           (filter (fun e => (MIN_WAYPOINTS <=? List.length (snd e))%nat) tbl))%nat ->
      List.length (finalize tbl) = MAX_VEHICLES
      /\ StronglySorted
           (fun a b => (List.length (snd b) <= List.length (snd a))%nat)
           (finalize tbl)
      /\ forall e e',
           In e (finalize tbl) ->
           In e' tbl ->
           (MIN_WAYPOINTS <= List.length (snd e'))%nat ->
           ~ In e' (finalize tbl) ->
           (List.length (snd e') <= List.length (snd e))%nat).
Proof.
exact finalize_facts.
Qed.
End KeepsLongest.

Lemma finalize_keeps_longest_witness :
  NoDup (map fst Samples.morning_table)
  /\ MakeDeckgl.finalize Samples.morning_table = Samples.morning_table.
Proof.
assert (H : NoDup (map fst Samples.morning_table)).
{ cbn. constructor; [intros [E | []]; discriminate E |].
  constructor; [intros [] | constructor]. }
split; [exact H |].
destruct (@finalize_keeps_longest Samples.morning_table H) as (_ & _ & Hall & _).
rewrite Hall; [reflexivity |].
apply Nat.leb_le. vm_compute. reflexivity.
Defined.

(** ** The vehicles of the output *)

Section DistinctIds.

Lemma md_keys_step (st : MakeDeckgl.state) (l : string) (c : ctl)
  (st' : MakeDeckgl.state) :
  NoDup (map fst (MakeDeckgl.vehicles st)) ->
  MakeDeckgl.step st l = Ok (c, st') ->
  NoDup (map fst (MakeDeckgl.vehicles st')).
Proof.
intros Hnd. unfold MakeDeckgl.step.
destruct (Lex.contains "<timestep" l).
- destruct (Lex.RE_TIME l) as [v |]; [| intros [= _ <-]; exact Hnd].
  destruct (Lex.py_float v) as [t | e]; cbn [bind]; [| discriminate].
  destruct (Qltb MakeDeckgl.window_hi t); intros [= _ <-]; exact Hnd.
- destruct (MakeDeckgl.in_window st && Lex.contains "<vehicle" l);
    [| intros [= _ <-]; exact Hnd].
  destruct (parse_waypoint 5 (MakeDeckgl.cur_time st) l) as [[vw | e] |];
    cbn [bind]; [| discriminate | intros [= _ <-]; exact Hnd].
  intros [= _ <-]. cbn [MakeDeckgl.vehicles]. unfold add_waypoint.
  apply dict_update_NoDup, Hnd.
Qed.

Lemma s4_keys_step (st : Step4.state) (l : string) (c : ctl)
  (st' : Step4.state) :
  NoDup (map fst (Step4.vehicles st)) ->
  Step4.step st l = Ok (c, st') ->
  NoDup (map fst (Step4.vehicles st')).
Proof.
intros Hnd. unfold Step4.step.
destruct (Lex.contains "<timestep" l).
- destruct (Lex.RE_TIME l) as [v |]; [| intros [= _ <-]; exact Hnd].
  destruct (Lex.py_float v) as [t | e]; cbn [bind]; [| discriminate].
  destruct (Qltb Step4.stop_after t); intros [= _ <-]; exact Hnd.
- destruct (Qleb Step4.window_lo (Step4.cur_time st)
            && Qleb (Step4.cur_time st) Step4.window_hi
            && Lex.contains "<vehicle" l);
    [| intros [= _ <-]; exact Hnd].
  destruct (parse_waypoint 6 (Step4.cur_time st) l) as [[vw | e] |];
    cbn [bind]; [| discriminate | intros [= _ <-]; exact Hnd].
  intros [= _ <-]. cbn [Step4.vehicles]. unfold add_waypoint.
  apply dict_update_NoDup, Hnd.
Qed.

(** X15. No vehicle is written twice: in the list that make_deckgl.py
    writes, and in the list that step 4 of postprocess.py writes, the ids
    are pairwise different, whatever the trace, a trace with the lines of
    one vehicle scattered over it included. *)
Theorem deckgl_ids_distinct (trace : list string) (tbl : trajectories) :
  MakeDeckgl.deckgl trace = Ok tbl \/ Step4.deckgl trace = Ok tbl ->
  NoDup (map fst tbl).
Proof.
intros [H | H].
- unfold MakeDeckgl.deckgl, MakeDeckgl.scan in H.
  destruct (run MakeDeckgl.step MakeDeckgl.init trace) as [st |] eqn:E;
    [| discriminate].
  cbn in H. injection H as <-.
  apply finalize_facts.
  apply (@run_preserves MakeDeckgl.state MakeDeckgl.step
           (fun s => NoDup (map fst (MakeDeckgl.vehicles s)))
           (fun s l c s' => @md_keys_step s l c s') trace MakeDeckgl.init st);
    [constructor | exact E].
- unfold Step4.deckgl, Step4.scan in H.
  destruct (run Step4.step Step4.init trace) as [st |] eqn:E; [| discriminate].
  cbn in H. injection H as <-.
  apply NoDup_keys_filter.
  apply (@run_preserves Step4.state Step4.step
           (fun s => NoDup (map fst (Step4.vehicles s)))
           (fun s l c s' => @s4_keys_step s l c s') trace Step4.init st);
    [constructor | exact E].
Qed.
End DistinctIds.

Lemma deckgl_ids_distinct_witness :
  MakeDeckgl.deckgl Samples.morning = Ok Samples.morning_table
  /\ NoDup (map fst Samples.morning_table).
Proof.
assert (H : MakeDeckgl.deckgl Samples.morning = Ok Samples.morning_table)
  by (vm_compute; reflexivity).
split; [exact H |].
apply (@deckgl_ids_distinct Samples.morning Samples.morning_table (or_introl H)).
Defined.

(** ** The two scripts that write trips_deckgl.json *)

Section Siblings.

(** What the two scans have in common: the vehicles, and for each waypoint
    its second and its speed; the coordinates are rounded to five places
    by one and to six by the other. *)
Let coarse (wp : waypoint) : Z * Q := (wp_t wp, wp_speed wp).

Let view (tbl : trajectories) : list (string * list (Z * Q)) :=
  map (fun e => (fst e, map coarse (snd e))) tbl.

Let related (a : MakeDeckgl.state) (b : Step4.state) : Prop :=
  view (MakeDeckgl.vehicles a) = view (Step4.vehicles b)
  /\ MakeDeckgl.cur_time a = Step4.cur_time b
  /\ MakeDeckgl.in_window a
     = Qleb Step4.window_lo (Step4.cur_time b)
       && Qleb (Step4.cur_time b) Step4.window_hi.

Lemma view_add (vid : string) (wp wp' : waypoint) (t t' : trajectories) :
  coarse wp = coarse wp' -> view t = view t' ->
  view (add_waypoint vid wp t) = view (add_waypoint vid wp' t').
Proof.
intros Hwp. unfold add_waypoint. revert t'.
induction t as [| [k ws] t IH]; intros [| [k' ws'] t']; cbn;
  try discriminate.
- intros _. unfold view. cbn. rewrite Hwp. reflexivity.
- intros [= <- Hws Ht]. destruct (String.eqb k vid); cbn.
  + rewrite !map_app, Hws. cbn [map]. rewrite Hwp. f_equal. exact Ht.
  + rewrite Hws. f_equal. apply IH, Ht.
Qed.

Lemma parse_waypoint_digits (c : Q) (line : string) :
  match parse_waypoint 5 c line, parse_waypoint 6 c line with
  | None, None => True
  | Some (Raise e), Some (Raise e') => e = e'
  | Some (Ok (v, wp)), Some (Ok (v', wp')) => v = v' /\ coarse wp = coarse wp'
  | _, _ => False
  end.
Proof.
unfold parse_waypoint.
destruct (Lex.RE_VID line); [| exact I].
destruct (Lex.RE_X line); [| exact I].
destruct (Lex.RE_Y line); [| exact I].
destruct (Lex.RE_SPEED line); [| exact I].
destruct (Lex.py_float s0); cbn [bind]; [| reflexivity].
destruct (Lex.py_float s1); cbn [bind]; [| reflexivity].
destruct (Lex.py_float s2); cbn [bind]; [| reflexivity].
split; reflexivity.
Qed.

Lemma related_step (a : MakeDeckgl.state) (b : Step4.state) (l : string) :
  related a b ->
  match no_break MakeDeckgl.step a l, no_break Step4.step b l with
  | Ok (_, a'), Ok (_, b') => related a' b'
  | Raise e, Raise e' => e = e'
  | _, _ => False
  end.
Proof.
intros (Hv & Ht & Hw). unfold no_break, MakeDeckgl.step, Step4.step.
destruct (Lex.contains "<timestep" l).
- destruct (Lex.RE_TIME l) as [v |].
  + destruct (Lex.py_float v) as [t | e]; cbn [bind rmap]; [| reflexivity].
    destruct (Qltb MakeDeckgl.window_hi t), (Qltb Step4.stop_after t);
      cbn [bind rmap snd]; (split; [exact Hv | split; reflexivity]).
  + cbn. split; [exact Hv | split; assumption].
- pose proof Hw as Hw'. rewrite <- Ht in Hw'. rewrite <- Hw, <- Ht.
  destruct (MakeDeckgl.in_window a && Lex.contains "<vehicle" l);
    [| cbn; split; [exact Hv | split; assumption]].
  pose proof (parse_waypoint_digits (MakeDeckgl.cur_time a) l) as Hp.
  destruct (parse_waypoint 5 (MakeDeckgl.cur_time a) l) as [[[v wp] | e] |];
    destruct (parse_waypoint 6 (MakeDeckgl.cur_time a) l)
      as [[[v' wp'] | e'] |]; try contradiction; cbn [bind rmap fst snd].
  + destruct Hp as (<- & Hwp). split; [| split].
    * cbn [MakeDeckgl.vehicles Step4.vehicles]. apply view_add; assumption.
    * reflexivity.
    * exact Hw'.
  + exact Hp.
  + split; [exact Hv | split; assumption].
Qed.

Lemma related_run (trace : list string) :
  forall a b,
    related a b ->
    rmap (fun s => view (MakeDeckgl.vehicles s))
      (run (no_break MakeDeckgl.step) a trace)
    = rmap (fun s => view (Step4.vehicles s))
        (run (no_break Step4.step) b trace).
Proof.
induction trace as [| l trace IH]; intros a b Hr; cbn [run].
- cbn. f_equal. apply Hr.
- pose proof (@related_step a b l Hr) as Hs.
  assert (Ha : forall r, no_break MakeDeckgl.step a l = Ok r -> fst r = Continue).
  { unfold no_break, rmap. destruct (MakeDeckgl.step a l); cbn; [| discriminate].
    intros r [= <-]. reflexivity. }
  assert (Hb : forall r, no_break Step4.step b l = Ok r -> fst r = Continue).
  { unfold no_break, rmap. destruct (Step4.step b l); cbn; [| discriminate].
    intros r [= <-]. reflexivity. }
  destruct (no_break MakeDeckgl.step a l) as [[c a'] | e];
    destruct (no_break Step4.step b l) as [[c' b'] | e']; try contradiction.
  + rewrite (Ha _ eq_refl : c = Continue), (Hb _ eq_refl : c' = Continue).
    apply IH, Hs.
  + cbn. rewrite Hs. reflexivity.
Qed.

(** X16. The two scripts collect the same data.  Reading the entire file,
    make_deckgl.py and step 4 of postprocess.py build tables with the same
    vehicles in the same order and, waypoint by waypoint, the same second
    and the same speed, or raise the same exception; the coordinates
    differ in the rounding only.  With their early stops, which are not at
    the same time, they still agree on every trace whose timestep times
    never go back. *)
Theorem scans_agree (trace : list string) :
  rmap (map (fun e => (fst e, map (fun wp => (wp_t wp, wp_speed wp)) (snd e))))
    (MakeDeckgl.scan_full trace)
  = rmap (map (fun e => (fst e, map (fun wp => (wp_t wp, wp_speed wp)) (snd e))))
      (Step4.scan_full trace)
  /\ (monotone trace ->
      rmap
        (map (fun e => (fst e, map (fun wp => (wp_t wp, wp_speed wp)) (snd e))))
        (MakeDeckgl.scan trace)
      = rmap
          (map (fun e => (fst e, map (fun wp => (wp_t wp, wp_speed wp)) (snd e))))
          (Step4.scan trace)).
Proof.
assert (H : rmap view (MakeDeckgl.scan_full trace)
            = rmap view (Step4.scan_full trace)).
{ unfold MakeDeckgl.scan_full, Step4.scan_full.
  assert (Hr : related MakeDeckgl.init Step4.init)
    by (split; [reflexivity | split; reflexivity]).
  pose proof (@related_run trace MakeDeckgl.init Step4.init Hr) as E.
  destruct (run (no_break MakeDeckgl.step) MakeDeckgl.init trace);
    destruct (run (no_break Step4.step) Step4.init trace); exact E. }
split; [exact H |].
intros Hm. rewrite (@md_early_is_full trace Hm), (@s4_early_is_full trace Hm).
exact H.
Qed.
End Siblings.

(** ** What a waypoint keeps of its line *)

Lemma round_half_even_close (y : Q) :
  (Qabs (inject_Z (round_half_even y) - y) <= 1 # 2)%Q.
Proof.
pose proof (Qfloor_le y) as Hlo. pose proof (Qlt_floor y) as Hhi.
rewrite inject_Z_plus in Hhi. change (inject_Z 1) with 1%Q in Hhi.
apply Qabs_Qle_condition. unfold round_half_even.
destruct (Qcompare_spec (y - inject_Z (Qfloor y)) (1 # 2)) as [E | E | E].
- destruct (Z.even (Qfloor y)).
  + split; lra.
  + rewrite inject_Z_plus. change (inject_Z 1) with 1%Q. split; lra.
- split; lra.
- rewrite inject_Z_plus. change (inject_Z 1) with 1%Q. split; lra.
Qed.

(** [round(x, n)] is within half a unit of the last place of [x]. *)
Lemma py_round_close (x : Q) (n : nat) :
  (Qabs (py_round x n - x) <= 1 # (2 * Lex.ten_to n))%Q.
Proof.
unfold py_round. set (p := Lex.ten_to n).
pose proof (round_half_even_close (x * inject_Z (Zpos p))) as H.
set (r := round_half_even (x * inject_Z (Zpos p))) in *.
apply Qabs_Qle_condition in H. destruct H as (H1 & H2).
apply Qabs_Qle_condition.
assert (Hp : (0 < 1 # p)%Q) by reflexivity.
assert (Er : (r # p == inject_Z r * (1 # p))%Q)
  by (unfold Qeq, inject_Z; cbn; ring).
assert (E1 : (inject_Z (Zpos p) * (1 # p) == 1)%Q)
  by (unfold Qeq, inject_Z; cbn; lia).
assert (E : ((inject_Z r - x * inject_Z (Zpos p)) * (1 # p)
             == inject_Z r * (1 # p) - x)%Q).
{ transitivity (inject_Z r * (1 # p) - x * (inject_Z (Zpos p) * (1 # p)))%Q;
    [ring | rewrite E1; ring]. }
assert (Eh : (1 # (2 * p) == (1 # 2) * (1 # p))%Q) by reflexivity.
rewrite Er, Eh, <- E. split.
- setoid_replace (- ((1 # 2) * (1 # p)))%Q with ((- (1 # 2)) * (1 # p))%Q by ring.
  apply Qmult_le_compat_r; [exact H1 | apply Qlt_le_weak, Hp].
- apply Qmult_le_compat_r; [exact H2 | apply Qlt_le_weak, Hp].
Qed.

(** X17. A waypoint and its line, in both scripts.  When a vehicle line
    gives a waypoint, the id is what the id pattern finds, the time is
    the integer part of the current time, each coordinate is within half
    a unit of the last rounded place of the number in the line, and the
    speed is within 0.05 of 3.6 times the speed in the line. *)
Theorem waypoint_faithful (digits : nat) (c : Q) (line vid : string)
  (wp : waypoint) :
  parse_waypoint digits c line = Some (Ok (vid, wp)) ->
  Lex.RE_VID line = Some vid
  /\ wp_t wp = py_int c
  /\ exists xs ys ss x y s,
       Lex.RE_X line = Some xs /\ Lex.py_float xs = Ok x
       /\ Lex.RE_Y line = Some ys /\ Lex.py_float ys = Ok y
       /\ Lex.RE_SPEED line = Some ss /\ Lex.py_float ss = Ok s
       /\ (Qabs (wp_lon wp - x) <= 1 # (2 * Lex.ten_to digits))%Q
       /\ (Qabs (wp_lat wp - y) <= 1 # (2 * Lex.ten_to digits))%Q
       /\ (Qabs (wp_speed wp - s * (36 # 10)) <= 1 # 20)%Q.
Proof.
unfold parse_waypoint.
destruct (Lex.RE_VID line) as [v |]; [| discriminate].
destruct (Lex.RE_X line) as [xs |]; [| discriminate].
destruct (Lex.RE_Y line) as [ys |]; [| discriminate].
destruct (Lex.RE_SPEED line) as [ss |]; [| discriminate].
destruct (Lex.py_float xs) as [x |] eqn:Ex; [| discriminate].
destruct (Lex.py_float ys) as [y |] eqn:Ey; [| discriminate].
destruct (Lex.py_float ss) as [s |] eqn:Es; [| discriminate].
cbn [bind]. intros [= <- <-]. cbn [wp_t wp_lon wp_lat wp_speed].
split; [reflexivity |]. split; [reflexivity |].
exists xs, ys, ss, x, y, s.
split; [reflexivity |]. split; [exact Ex |].
split; [reflexivity |]. split; [exact Ey |].
split; [reflexivity |]. split; [exact Es |].
split; [apply py_round_close |]. split; [apply py_round_close |].
apply (py_round_close (s * kmh) 1).
Qed.

Lemma waypoint_faithful_witness :
  parse_waypoint 5 25200 (Samples.vehicle_line "7")
  = Some (Ok ("7"%string, Samples.seen 5 25200))
  /\ wp_t (Samples.seen 5 25200) = py_int 25200.
Proof.
assert (H : parse_waypoint 5 25200 (Samples.vehicle_line "7")
            = Some (Ok ("7"%string, Samples.seen 5 25200)))
  by (vm_compute; reflexivity).
split; [exact H |].
apply (@waypoint_faithful 5 25200 (Samples.vehicle_line "7") "7"
         (Samples.seen 5 25200) H).
Defined.

(** ** The classifier is monotone *)

Lemma filter_length_le {A : Type} (p q : A -> bool) (l : list A) :
  (forall x, p x = true -> q x = true) ->
  (List.length (filter p l) <= List.length (filter q l))%nat.
Proof.
intros H. induction l as [| a l IH]; cbn [filter]; [lia |].
destruct (p a) eqn:E.
- rewrite (H a E). cbn [List.length]. lia.
- destruct (q a); cbn [List.length]; lia.
Qed.

(** X18. A larger speed ratio never gets a more severe colour: with the
    six colours numbered from the most severe, red, to the least, green,
    the number of the colour of [r1] is at most the number of the colour
    of [r2] whenever [r1 <= r2]. *)
Theorem sr_to_color_monotone (r1 r2 : Q) :
  (r1 <= r2)%Q ->
  exists i j,
    (i <= j < 6)%nat
    /\ sr_to_color r1 = nth i Bands.colors []
    /\ sr_to_color r2 = nth j Bands.colors [].
Proof.
intros H. exists (Bands.band r1), (Bands.band r2).
split; [| split; apply sr_to_color_band].
split; [| apply band_lt_6].
unfold Bands.band. apply filter_length_le. intros t Ht.
unfold Qleb in *. apply Qle_bool_iff in Ht. apply Qle_bool_iff.
apply (Qle_trans _ _ _ Ht H).
Qed.

Lemma sr_to_color_monotone_witness :
  exists i j,
    (i <= j < 6)%nat
    /\ sr_to_color (30 # 100) = nth i Bands.colors []
    /\ sr_to_color (80 # 100) = nth j Bands.colors [].
Proof.
apply (@sr_to_color_monotone (30 # 100) (80 # 100)).
unfold Qle. cbn. lia.
Defined.

(** ** Lines that are skipped, and traces with no timestep *)

(** X19. A line on which a pattern finds nothing is skipped.  A timestep
    line with no time attribute, and a line that is no timestep line and
    lacks one of the attributes the scan reads (id, x, y and speed for the
    trajectories, lane and speed for the speeds), leave the state of the
    scan as it is, in all three scans and whatever the state, and the scan
    goes on with the next line. *)
Theorem missing_attribute_skips_line (line : string) :
  (Lex.contains "<timestep" line = true -> Lex.RE_TIME line = None ->
   (forall st, MakeDeckgl.step st line = Ok (Continue, st))
   /\ (forall st, Step4.step st line = Ok (Continue, st))
   /\ (forall st, Aggregate.step st line = Ok (Continue, st)))
  /\ (Lex.contains "<timestep" line = false ->
      (Lex.RE_VID line = None \/ Lex.RE_X line = None
       \/ Lex.RE_Y line = None \/ Lex.RE_SPEED line = None ->
       (forall st, MakeDeckgl.step st line = Ok (Continue, st))
       /\ (forall st, Step4.step st line = Ok (Continue, st)))
      /\ (Lex.RE_LANE line = None \/ Lex.RE_SPEED line = None ->
          forall st, Aggregate.step st line = Ok (Continue, st))).
Proof.
exact (missing_attribute_skips line).
Qed.

(** X20. The bounds of the output.  Whatever the trace, the list that
    make_deckgl.py writes has at most [MAX_VEHICLES] trajectories, each of
    at least [MIN_WAYPOINTS] waypoints, and every trajectory that step 4
    of postprocess.py writes has at least five waypoints. *)
Theorem output_bounds (trace : list string) (tbl : trajectories) :
  (MakeDeckgl.deckgl trace = Ok tbl ->
   (List.length tbl <= MakeDeckgl.MAX_VEHICLES)%nat
   /\ Forall (fun e => (MakeDeckgl.MIN_WAYPOINTS <= List.length (snd e))%nat) tbl)
  /\ (Step4.deckgl trace = Ok tbl ->
      Forall (fun e => (5 <= List.length (snd e))%nat) tbl).
Proof.
exact (deckgl_bounds trace tbl).
Qed.

Section NoTimestep.

Lemma quiet_run {S : Type} (step : S -> string -> result (ctl * S))
  (trace : list string) (st : S) :
  Forall (fun l => step st l = Ok (Continue, st)) trace ->
  run step st trace = Ok st.
Proof.
induction 1 as [| l trace Hl _ IH]; cbn [run]; [reflexivity |].
rewrite Hl. exact IH.
Qed.

(** X21. A trace with no timestep line gives nothing and raises nothing,
    whatever its lines: the three scans end with empty tables, since the
    time is still -1, before every window, and no vehicle line is
    parsed. *)
Theorem no_timestep_no_data (trace : list string) :
  Forall (fun l => Lex.contains "<timestep" l = false) trace ->
  MakeDeckgl.deckgl trace = Ok []
  /\ Step4.deckgl trace = Ok []
  /\ Aggregate.scan trace = Ok Aggregate.init.
Proof.
intros H. split; [| split].
- unfold MakeDeckgl.deckgl, MakeDeckgl.scan.
  rewrite (@quiet_run _ MakeDeckgl.step trace MakeDeckgl.init); [reflexivity |].
  eapply Forall_impl; [| exact H]. cbn beta. intros l Hl.
  unfold MakeDeckgl.step. rewrite Hl. reflexivity.
- unfold Step4.deckgl, Step4.scan.
  rewrite (@quiet_run _ Step4.step trace Step4.init); [reflexivity |].
  eapply Forall_impl; [| exact H]. cbn beta. intros l Hl.
  unfold Step4.step. rewrite Hl. reflexivity.
- unfold Aggregate.scan. apply quiet_run.
  eapply Forall_impl; [| exact H]. cbn beta. intros l Hl.
  unfold Aggregate.step, Aggregate.sample_of. rewrite Hl. reflexivity.
Qed.
End NoTimestep.

Lemma no_timestep_no_data_witness :
  MakeDeckgl.deckgl [Samples.vehicle "7" "1.2.3" "123#0_0"; "</timestep>"%string]
  = Ok [].
Proof.
apply (@no_timestep_no_data
         [Samples.vehicle "7" "1.2.3" "123#0_0"; "</timestep>"%string]).
repeat constructor.
Defined.

(** ** postprocess.py, step 3: the rows of a group *)

Section GroupRows.
Import Geometry.
Variable net : network.
Variable congestion : list (string * Aggregate.row).

Lemma weighted_all_rows (edges : list edge) :
  (forall e, In e edges -> dict_get (getID e) congestion <> None) ->
  List.length (weighted congestion edges) = List.length edges.
Proof.
unfold weighted. induction edges as [| e edges IH]; intros H; cbn [flat_map];
  [reflexivity |].
rewrite length_app, IH by (intros e' He'; apply H; right; exact He').
destruct (dict_get (getID e) congestion) eqn:E; [reflexivity |].
exfalso. apply (H e (or_introl eq_refl) E).
Qed.

(** X22. Every group that the loop of step 3 builds has a row for each of
    its edges: the list of weights has one entry for each edge, so for
    such a group the test for an empty list of ratios never holds, and a
    group gives no feature only when its merged polyline has fewer than
    two points. *)
Theorem groups_have_rows (k : group_key) (es : list edge) :
  In (k, es) (groups net congestion) ->
  es <> []
  /\ List.length (weighted congestion (sorted_edges es)) = List.length es
  /\ weighted congestion (sorted_edges es) <> [].
Proof.
intros Hin. destruct (groups_built net congestion) as (_ & H & _).
destruct (H k es Hin) as (Hne & Hes).
assert (Hlen : List.length (weighted congestion (sorted_edges es))
               = List.length es).
{ rewrite weighted_all_rows.
  - symmetry. apply Permutation_length, sorted_edges_perm.
  - intros e He.
    apply (Permutation_in e (Permutation_sym (sorted_edges_perm es))) in He.
    rewrite Hes in He. apply filter_In in He. destruct He as (_ & He).
    apply andb_true_iff in He. destruct He as (He & _).
    apply negb_true_iff, orb_false_iff in He. destruct He as (_ & He).
    destruct (dict_get (getID e) congestion); [discriminate | discriminate He]. }
split; [exact Hne |]. split; [exact Hlen |].
intros E. rewrite E in Hlen. destruct es; [congruence | discriminate Hlen].
Qed.

End GroupRows.

Lemma groups_have_rows_witness :
  In ("123"%string, 2%nat, false, [Samples.e0; Samples.e1])
    (Geometry.groups Samples.net Samples.congestion)
  /\ List.length
       (Geometry.weighted Samples.congestion
          (Geometry.sorted_edges [Samples.e0; Samples.e1])) = 2%nat.
Proof.
assert (H : In ("123"%string, 2%nat, false, [Samples.e0; Samples.e1])
              (Geometry.groups Samples.net Samples.congestion))
  by (vm_compute; left; reflexivity).
split; [exact H |].
apply (@groups_have_rows Samples.net Samples.congestion
         ("123"%string, 2%nat, false) [Samples.e0; Samples.e1] H).
Defined.

(** ** postprocess.py: steps 1, 2, 3 and 5 together *)

Section Pipeline.
Import Validation.



End Pipeline.

